(** * PPO baseline: rollout buffer, deployment environment and PPO losses

    A shallow embedding of [buffer.py], [environment.py] and the loss
    computation of [ppo_trainer.py], with the properties of the written
    specification stated and proved over it; then the rest of
    [PPOTrainer.update], the network of [policy.py] and the loops of
    [train.py] and [evaluate.py], with the behaviour the code itself shows.

    Numbers.  The Python code computes with IEEE floats (Python [float],
    numpy [float32]/[float64], torch tensors).  The embedding idealises
    them as exact numbers: rationals [Q] in the buffer and the environment
    (so that every definition evaluates), reals [R] in the trainer (whose
    ratio needs [exp]).  Rounding, [nan] and [inf] are outside the model
    (but for the statistics of [update], which can be [nan]); where numpy
    would produce them (division by a zero capacity) the theorems carry
    the hypothesis that excludes the case.  Python [int] is [Z].  Where the type of a number decides a result it is kept: a
    stored reward is a Python [int] or a Python [float], because the
    array of advantages takes its element type from the rewards. *)

From Stdlib Require Import ZArith QArith Qabs Reals Lia Lra Lqa.
From stdpp Require Import base list.

(** ** Numeric helpers shared by the components *)

Module Num.

Local Open Scope Q_scope.

(** [x < y] on floats, as a boolean. *)
Definition Qltb (x y : Q) : bool := negb (Qle_bool y x).

(** numpy's [a.sum()] / Python's [sum]. *)
Definition Qsum (l : list Q) : Q := foldr Qplus 0 l.

(** Elementwise binary operation on two arrays of the same shape. *)
Fixpoint zipWith {A B C} (f : A -> B -> C) (l : list A) (k : list B) : list C :=
  match l, k with
  | a :: l', b :: k' => f a b :: zipWith f l' k'
  | _, _ => []
  end.

(** Python's [int(x)] on a float: truncation toward zero. *)
Definition py_int (x : Q) : Z := Z.quot (Qnum x) (Zpos (Qden x)).

(** A bool used as a number ([True] is 1, [False] is 0). *)
Definition b2q (b : bool) : Q := if b then 1 else 0.

(** Array read [a[i]] at a position inside the array: the loop indices of
    a buffer whose lists have equal length, the positions returned by
    [np.where]. *)
Definition at_ (a : list Q) (i : nat) : Q := default 0 (a !! i).

(** A Python number as a caller passes it where a [float] is expected:
    an [int] or a [float] (numpy's scalars included; a [bool] is not
    taken as a number). *)
Inductive Number :=
| Int (z : Z)
| Float (q : Q).

(** The value of a number ([float(x)]). *)
Definition value_of (x : Number) : Q :=
  match x with Int z => inject_Z z | Float q => q end.

Definition is_int (x : Number) : bool :=
  match x with Int _ => true | Float _ => false end.

(** The element types numpy gives an array built from Python numbers. *)
Inductive DType := int64 | float64.

(** A one-dimensional numpy array: its element type and its entries. *)
Record ndarray := mk_ndarray { dtype : DType; data : list Q }.

(** [np.array(l)] for a list of Python numbers: [float64] for the empty
    list and as soon as one entry is a float, [int64] when every entry is
    an int.  Ints beyond 64 bits, for which numpy leaves [int64], are
    outside the model; an array of [float32] scalars only, which differs
    from a [float64] array in precision, counts as a float array. *)
Definition np_array (l : list Number) : ndarray :=
  mk_ndarray
    (if forallb is_int l && negb (Nat.eqb (length l) 0) then int64 else float64)
    (map value_of l).

(** [np.zeros_like(a)]: zeros in the shape and the element type of [a]. *)
Definition zeros_like (a : ndarray) : ndarray :=
  mk_ndarray (dtype a) (replicate (length (data a)) 0).

(** The conversion of a float to the element type of an array that an
    assignment [a[t] = x] makes: to [int64] by truncation toward zero. *)
Definition astype (d : DType) (x : Q) : Q :=
  match d with
  | int64 => inject_Z (py_int x)
  | float64 => x
  end.

(** [a[t] = x] *)
Definition setitem (a : ndarray) (t : nat) (x : Q) : ndarray :=
  mk_ndarray (dtype a) (<[t := astype (dtype a) x]> (data a)).

End Num.

(** ** buffer.py *)

Module RolloutBuffer.

Import Num.
Local Open Scope Q_scope.

(** The six parallel Python lists of a [RolloutBuffer] instance.  Of a
    stored number only the value enters a result, except for the
    rewards: [compute_returns_and_advantages] takes the element type of
    its arrays from them, so they are kept as Python numbers. *)
Record Buffer := mkBuffer {
  states : list (list Q);
  actions : list Z;
  rewards : list Number;
  log_probs : list Q;
  values : list Q;
  dones : list bool
}.

(** [RolloutBuffer.__init__] *)
Definition __init__ : Buffer :=
  {| states := []; actions := []; rewards := []; log_probs := [];
     values := []; dones := [] |}.

(** [RolloutBuffer.add]: one [append] per list. *)
Definition add (state : list Q) (action : Z) (reward : Number) (log_prob value : Q)
    (done : bool) (self : Buffer) : Buffer :=
  {| states := states self ++ [state];
     actions := actions self ++ [action];
     rewards := rewards self ++ [reward];
     log_probs := log_probs self ++ [log_prob];
     values := values self ++ [value];
     dones := dones self ++ [done] |}.

(** [RolloutBuffer.clear]: every attribute is rebound to a new empty list. *)
Definition clear (self : Buffer) : Buffer :=
  {| states := []; actions := []; rewards := []; log_probs := [];
     values := []; dones := [] |}.

(** [RolloutBuffer.__len__] *)
Definition __len__ (self : Buffer) : nat := length (states self).

(** What [get] returns: the five tensors built from copies of the lists. *)
Definition Batch : Type :=
  (list (list Q) * list Z * list Q * list Q * list Q)%type.

(** [RolloutBuffer.get], in state-passing style: the buffer after the
    call, and the returned tuple.  The method assigns no attribute;
    [torch.FloatTensor] turns every reward into a float. *)
Definition get (self : Buffer) : Buffer * Batch :=
  (self, (states self, actions self, map value_of (rewards self),
          log_probs self, values self)).

(** One iteration of the loop body of [compute_returns_and_advantages],
    for index [t], on the loop state ([gae], [advantages]).  The
    accumulator [gae] is a float; the assignment [advantages[t] = gae]
    converts it to the element type of the array. *)
Definition gae_iter (gamma gae_lambda : Q) (rewards : ndarray) (values : list Q)
    (dones : list bool) (st : Q * ndarray) (t : nat) : Q * ndarray :=
  let '(gae, advantages) := st in
  let next_value :=
    if Nat.eqb t (length (data rewards) - 1) then 0 else at_ values (t + 1) in
  let done_t := b2q (default false (dones !! t)) in
  let delta :=
    at_ (data rewards) t + gamma * next_value * (1 - done_t) - at_ values t in
  let gae := delta + gamma * gae_lambda * (1 - done_t) * gae in
  (gae, setitem advantages t gae).

(** [RolloutBuffer.compute_returns_and_advantages], in state-passing
    style: the arrays, [advantages = np.zeros_like(rewards)], [gae = 0],
    the loop over [reversed(range(len(rewards)))], then
    [returns = advantages + values]; the two results as float tensors. *)
Definition compute_returns_and_advantages (gamma gae_lambda : Q)
    (self : Buffer) : Buffer * (list Q * list Q) :=
  let rewards := np_array (rewards self) in
  let values := values self in
  let dones := dones self in
  let advantages := zeros_like rewards in
  let '(_, advantages) :=
    fold_left (gae_iter gamma gae_lambda rewards values dones)
              (rev (seq 0 (length (data rewards)))) (0, advantages) in
  let returns := zipWith Qplus (data advantages) values in
  (self, (returns, data advantages)).

(** *** Vocabulary of the specification *)

(** The six lists have the same length. *)
Definition aligned (b : Buffer) : Prop :=
  length (actions b) = length (states b)
  /\ length (rewards b) = length (states b)
  /\ length (log_probs b) = length (states b)
  /\ length (values b) = length (states b)
  /\ length (dones b) = length (states b).

(** A call of one of the two mutating methods. *)
Inductive Call :=
| call_add (state : list Q) (action : Z) (reward : Number) (log_prob value : Q)
    (done : bool)
| call_clear.

Definition exec (b : Buffer) (c : Call) : Buffer :=
  match c with
  | call_add state action reward log_prob value done =>
      add state action reward log_prob value done b
  | call_clear => clear b
  end.

(** A sequence of calls, first call first. *)
Definition execs (calls : list Call) (b : Buffer) : Buffer :=
  fold_left exec calls b.

(** The element type of the reward array of a buffer, hence of its
    advantages. *)
Definition rewards_dtype (b : Buffer) : DType := dtype (np_array (rewards b)).

(** [reward[t]] *)
Definition reward_at (b : Buffer) (t : nat) : Q := at_ (map value_of (rewards b)) t.

(** [next_value[t]] of the specification, for a buffer of length [T]:
    [values[t+1]] for [t < T-1], and 0 at the end. *)
Definition next_value (b : Buffer) (t : nat) : Q :=
  if (t <? length (rewards b) - 1)%nat then at_ (values b) (t + 1) else 0.

(** [1 - done[t]] *)
Definition not_done (b : Buffer) (t : nat) : Q :=
  1 - b2q (default false (dones b !! t)).

(** [delta[t] = reward[t] + gamma * next_value[t] * (1 - done[t]) - value[t]] *)
Definition delta (gamma : Q) (b : Buffer) (t : nat) : Q :=
  reward_at b t + gamma * next_value b t * not_done b t - at_ (values b) t.

(** The accumulator entering index [t] of the backward pass: 0 at the
    last index, the advantage of index [t+1] before. *)
Definition gae_in (b : Buffer) (advantages : list Q) (t : nat) : Q :=
  if (t <? length (rewards b) - 1)%nat then at_ advantages (t + 1) else 0.

(** The accumulator of the specification, before any conversion: its
    value after the indices [t + n - 1] down to [t], starting from 0. *)
Fixpoint gae_from (gamma gae_lambda : Q) (b : Buffer) (t n : nat) : Q :=
  match n with
  | O => 0
  | S n' =>
      delta gamma b t
      + gamma * gae_lambda * not_done b t * gae_from gamma gae_lambda b (S t) n'
  end.

(** [gae] after the iteration for index [t] of a whole backward pass. *)
Definition gae_at (gamma gae_lambda : Q) (b : Buffer) (t : nat) : Q :=
  gae_from gamma gae_lambda b t (length (rewards b) - t).

(** One stored transition, as the arguments of one call of [add]. *)
Record Transition := mkTransition {
  t_state : list Q;
  t_action : Z;
  t_reward : Number;
  t_log_prob : Q;
  t_value : Q;
  t_done : bool
}.

(** [add] called once per transition, first transition first. *)
Definition add_all (ts : list Transition) (b : Buffer) : Buffer :=
  fold_left (fun b t =>
               add (t_state t) (t_action t) (t_reward t) (t_log_prob t)
                   (t_value t) (t_done t) b) ts b.

(** The buffer a rollout of transitions [ts] leaves, from a new buffer. *)
Definition of_transitions (ts : list Transition) : Buffer := add_all ts __init__.

(** The [advantages] and [returns] arrays of [compute_returns_and_advantages]. *)
Definition advantages_of (gamma gae_lambda : Q) (b : Buffer) : list Q :=
  snd (snd (compute_returns_and_advantages gamma gae_lambda b)).

Definition returns_of (gamma gae_lambda : Q) (b : Buffer) : list Q :=
  fst (snd (compute_returns_and_advantages gamma gae_lambda b)).

End RolloutBuffer.

(** ** environment.py *)

Module ServiceDeploymentEnv.

Import Num.
Local Open Scope Z_scope.

(** The five strings of [EVENT_TYPES]; [current_event] holds one of them
    and [current_event_idx] its position, always assigned together. *)
Inductive Event :=
| agent_arrival | agent_departure | node_failure | node_recovery | no_event.

Definition EVENT_TYPES : list Event :=
  [agent_arrival; agent_departure; node_failure; node_recovery; no_event].

Definition num_event_types : nat := length EVENT_TYPES.

(** [EVENT_TYPES.index(e)] *)
Definition event_index (e : Event) : nat :=
  match e with
  | agent_arrival => 0 | agent_departure => 1 | node_failure => 2
  | node_recovery => 3 | no_event => 4
  end%nat.

(** The exceptions the modelled code can raise. *)
Inductive Exception :=
| ValueError | IndexError | ZeroDivisionError | OverflowError.

(** The arguments of the constructor. *)
Record Config := mkConfig {
  cfg_num_nodes : Z;
  cfg_num_services : Z;
  cfg_max_agents : Z;
  cfg_node_capacity : Q;
  cfg_event_probabilities : option (list Q)
}.

(** The default event probabilities [0.3, 0.2, 0.1, 0.1, 0.3]. *)
Definition default_event_probabilities : list Q :=
  [3 # 10; 2 # 10; 1 # 10; 1 # 10; 3 # 10]%Q.

(** The constructor's default arguments. *)
Definition default_config : Config :=
  {| cfg_num_nodes := 3; cfg_num_services := 5; cfg_max_agents := 10;
     cfg_node_capacity := 5; cfg_event_probabilities := None |}.

(** The attributes of a [ServiceDeploymentEnv] instance. *)
Record Env := mkEnv {
  num_nodes : Z;
  num_services : Z;
  max_agents : Z;
  default_node_capacity : Q;
  event_probabilities : list Q;
  node_status : list Q;
  node_occupancy : list Q;
  node_capacity : list Q;
  num_agents : Z;
  current_event : Event;
  steps : Z;
  max_steps : Z
}.

(** Attribute assignments. *)
Definition set_node_status (v : list Q) (s : Env) : Env :=
  mkEnv (num_nodes s) (num_services s) (max_agents s) (default_node_capacity s)
    (event_probabilities s) v (node_occupancy s) (node_capacity s)
    (num_agents s) (current_event s) (steps s) (max_steps s).

Definition set_node_occupancy (v : list Q) (s : Env) : Env :=
  mkEnv (num_nodes s) (num_services s) (max_agents s) (default_node_capacity s)
    (event_probabilities s) (node_status s) v (node_capacity s)
    (num_agents s) (current_event s) (steps s) (max_steps s).

Definition set_num_agents (v : Z) (s : Env) : Env :=
  mkEnv (num_nodes s) (num_services s) (max_agents s) (default_node_capacity s)
    (event_probabilities s) (node_status s) (node_occupancy s) (node_capacity s)
    v (current_event s) (steps s) (max_steps s).

Definition set_current_event (v : Event) (s : Env) : Env :=
  mkEnv (num_nodes s) (num_services s) (max_agents s) (default_node_capacity s)
    (event_probabilities s) (node_status s) (node_occupancy s) (node_capacity s)
    (num_agents s) v (steps s) (max_steps s).

Definition set_steps (v : Z) (s : Env) : Env :=
  mkEnv (num_nodes s) (num_services s) (max_agents s) (default_node_capacity s)
    (event_probabilities s) (node_status s) (node_occupancy s) (node_capacity s)
    (num_agents s) (current_event s) v (max_steps s).

(** Position addressed by a Python integer index in an array of length
    [len]: negative indices count from the end, anything else outside
    [-len, len) raises [IndexError] ([None]). *)
Definition np_index (len : nat) (i : Z) : option nat :=
  if (0 <=? i) && (i <? Z.of_nat len) then Some (Z.to_nat i)
  else if (i <? 0) && (- Z.of_nat len <=? i) then Some (Z.to_nat (Z.of_nat len + i))
  else None.

(** [a[i]] for a Python integer [i]. *)
Definition np_get (a : list Q) (i : Z) : option Q :=
  k ← np_index (length a) i; a !! k.

(** [np.where(cond)[0]]: the positions of [a], in increasing order, whose
    entry satisfies [cond]. *)
Definition np_where (cond : Q -> bool) (a : list Q) : list nat :=
  List.filter (fun i => cond (at_ a i)) (seq 0 (length a)).

(** The random draws one call of [step] consumes: [pick] decides
    [np_random.choice(candidates)] (position [pick mod len] of the
    candidates, so every candidate can be drawn), [next_event] is the
    outcome of [np_random.choice(5, p=event_probabilities)]. *)
Record Draws := mkDraws { pick : nat; next_event : Event }.

Definition choice (k : nat) (candidates : list nat) : nat :=
  default 0%nat (candidates !! (k mod length candidates)%nat).

(** The events [np_random.choice] can return under distribution [p]:
    those of positive probability. *)
Definition drawable (p : list Q) (e : Event) : bool :=
  Qltb 0 (at_ p (event_index e)).

(** The tolerance of [np_random.choice] on the sum of [p]:
    [sqrt(np.finfo(np.float64).eps)], which is [2 ** -26]. *)
Definition atol : Q := 1 # 67108864.

(** The check [np_random.choice] makes on [p] before drawing: as many
    entries as outcomes, none negative, and a sum within [atol] of 1
    ([abs(sum(p) - 1) > atol] is refused). *)
Definition valid_distribution (p : list Q) : bool :=
  Nat.eqb (length p) num_event_types
  && forallb (fun x => Qle_bool 0 x) p
  && Qle_bool (Qabs (Qsum p - 1)) atol.

(** [_get_observation]: the numpy division of the occupancy by the
    capacity is elementwise; [num_agents / max_agents] divides two
    Python integers and raises on a zero divisor. *)
Definition _get_observation (self : Env) : Exception + list Q :=
  let event_onehot :=
    <[event_index (current_event self) := 1%Q]> (replicate num_event_types 0%Q) in
  if max_agents self =? 0 then inl ZeroDivisionError
  else inr (event_onehot
            ++ node_status self
            ++ zipWith Qdiv (node_occupancy self) (node_capacity self)
            ++ [(inject_Z (num_agents self) / inject_Z (max_agents self))%Q]).

(** [reset]: the environment after the call, and the returned
    observation or the exception raised.  [np.ones] of a negative
    length raises before any attribute is assigned. *)
Definition reset (self : Env) : Env * (Exception + list Q) :=
  if num_nodes self <? 0 then (self, inl ValueError)
  else
    let n := Z.to_nat (num_nodes self) in
    let self' :=
      mkEnv (num_nodes self) (num_services self) (max_agents self)
        (default_node_capacity self) (event_probabilities self)
        (replicate n 1%Q) (replicate n 0%Q)
        (replicate n (default_node_capacity self))
        0 no_event 0 100 in
    (self', _get_observation self').

(** [float(n)] of a Python int raises [OverflowError] when [n] rounds
    beyond the largest float, which it does from [2 ** 1024 - 2 ** 970]
    on in absolute value. *)
Definition float_overflow : Z := 2 ^ 1024 - 2 ^ 970.

(** The largest [np.float32], [(2 ** 24 - 1) * 2 ** 104]. *)
Definition float32_max : Z := (2 ^ 24 - 1) * 2 ^ 104.

(** [spaces.Discrete(n)]: a size that is not positive is refused (by a
    [ValueError]; by an assertion in older releases of gymnasium). *)
Definition Discrete (n : Z) : option Exception :=
  if n <=? 0 then Some ValueError else None.

(** [spaces.Box(low=0, high=float(n), shape=(obs_dim,), dtype=np.float32)]:
    a bound beyond the range of the dtype and a [high] below [low] are
    refused (the shape, of at least six entries once [Discrete] has
    accepted the node count, is not).  The integers up to [2 ** 74] above
    the largest [float32] round to it as floats. *)
Definition Box (n : Z) : option Exception :=
  if float32_max + 2 ^ 74 <? n then Some ValueError
  else if n <? 0 then Some ValueError
  else None.

(** [__init__]: the constructed environment, or the exception raised.
    The arguments are stored as given; [event_probabilities or default]
    takes the default for [None] and for the empty list; the two spaces
    are built, [float(self.max_agents)] being evaluated for the second;
    then [reset] runs (the attributes it assigns do not exist before:
    placeholders here). *)
Definition __init__ (c : Config) : Exception + Env :=
  let probs :=
    match cfg_event_probabilities c with
    | None | Some [] => default_event_probabilities
    | Some p => p
    end in
  match Discrete (cfg_num_nodes c + 1) with
  | Some e => inl e
  | None =>
      if float_overflow <=? Z.abs (cfg_max_agents c) then inl OverflowError
      else
        match Box (cfg_max_agents c) with
        | Some e => inl e
        | None =>
            let self :=
              mkEnv (cfg_num_nodes c) (cfg_num_services c) (cfg_max_agents c)
                (cfg_node_capacity c) probs [] [] [] 0 no_event 0 0 in
            match reset self with
            | (self', inr _) => inr self'
            | (_, inl e) => inl e
            end
        end
  end.

(** The [info] dictionary [step] returns. *)
Inductive Info :=
| info_empty
| info_deployment_success | info_deployment_failed | info_deployment_rejected
| info_node_failure (node : nat)
| info_node_recovery (node : nat).

(** The first part of [step]: the effect of the current event, giving
    the environment, the reward and [info], or [IndexError] from an
    array access (raised before anything is assigned). *)
Definition apply_event (d : Draws) (action : Z) (self : Env)
    : Exception + (Env * Q * Info) :=
  match current_event self with
  | agent_arrival =>
      if action <? num_nodes self then
        match np_get (node_status self) action with
        | None => inl IndexError
        | Some st =>
            if Qeq_bool st 1 then
              match np_get (node_occupancy self) action,
                    np_get (node_capacity self) action with
              | Some occ, Some cap =>
                  if Qltb occ cap then
                    let node_idx :=
                      default 0%nat (np_index (length (node_occupancy self)) action) in
                    inr (set_num_agents (num_agents self + 1)
                           (set_node_occupancy
                              (<[node_idx := (occ + 1)%Q]> (node_occupancy self)) self),
                         1%Q, info_deployment_success)
                  else inr (self, (-1)%Q, info_deployment_failed)
              | _, _ => inl IndexError
              end
            else inr (self, (-1)%Q, info_deployment_failed)
        end
      else inr (self, (- (1 # 2))%Q, info_deployment_rejected)
  | agent_departure =>
      if 0 <? num_agents self then
        let occupied_nodes := np_where (Qltb 0) (node_occupancy self) in
        if (0 <? length occupied_nodes)%nat then
          let node_idx := choice (pick d) occupied_nodes in
          inr (set_num_agents (num_agents self - 1)
                 (set_node_occupancy
                    (<[node_idx := (at_ (node_occupancy self) node_idx - 1)%Q]>
                       (node_occupancy self)) self),
               0%Q, info_empty)
        else inr (self, 0%Q, info_empty)
      else inr (self, 0%Q, info_empty)
  | node_failure =>
      let active_nodes := np_where (fun s => Qeq_bool s 1) (node_status self) in
      if (0 <? length active_nodes)%nat then
        let failed_node := choice (pick d) active_nodes in
        let self1 := set_node_status (<[failed_node := 0%Q]> (node_status self)) self in
        let lost_services := at_ (node_occupancy self1) failed_node in
        let self2 :=
          set_node_occupancy (<[failed_node := 0%Q]> (node_occupancy self1)) self1 in
        let self3 :=
          set_num_agents
            (Z.max 0 (py_int (inject_Z (num_agents self2) - lost_services)%Q)) self2 in
        inr (self3, (- (2) * lost_services)%Q, info_node_failure failed_node)
      else inr (self, 0%Q, info_empty)
  | node_recovery =>
      let failed_nodes := np_where (fun s => Qeq_bool s 0) (node_status self) in
      if (0 <? length failed_nodes)%nat then
        let recovered_node := choice (pick d) failed_nodes in
        inr (set_node_status (<[recovered_node := 1%Q]> (node_status self)) self,
             (1 # 2)%Q, info_node_recovery recovered_node)
      else inr (self, 0%Q, info_empty)
  | no_event => inr (self, 0%Q, info_empty)
  end.

(** [_generate_next_event]: [np_random.choice] rejects an invalid
    probability vector with [ValueError]; otherwise the drawn event
    becomes the current one. *)
Definition _generate_next_event (d : Draws) (self : Env) : Exception + Env :=
  if valid_distribution (event_probabilities self)
  then inr (set_current_event (next_event d) self)
  else inl ValueError.

(** The tuple [step] returns. *)
Record StepResult := mkStepResult {
  observation : list Q;
  reward : Q;
  terminated : bool;
  truncated : bool;
  info : Info
}.

(** [step]: the environment after the call (also when the call raises:
    the object keeps whatever was assigned before the exception), and
    the returned tuple or the exception. *)
Definition step (d : Draws) (action : Z) (self : Env)
    : Env * (Exception + StepResult) :=
  match apply_event d action self with
  | inl e => (self, inl e)
  | inr (self1, reward, info) =>
      let self2 := set_steps (steps self1 + 1) self1 in
      match _generate_next_event d self2 with
      | inl e => (self2, inl e)
      | inr self3 =>
          let terminated := max_steps self3 <=? steps self3 in
          let truncated := false in
          match _get_observation self3 with
          | inl e => (self3, inl e)
          | inr obs => (self3, inr (mkStepResult obs reward terminated truncated info))
          end
      end
  end.

(** The states an environment object built from configuration [c] can
    be in: after construction, after a [reset] that returned, and after
    any call of [step], with any action and any draws. *)
Inductive reachable (c : Config) : Env -> Prop :=
| reach_init : forall self, __init__ c = inr self -> reachable c self
| reach_reset : forall self self' obs,
    reachable c self -> reset self = (self', inr obs) -> reachable c self'
| reach_step : forall self d action,
    reachable c self -> reachable c (fst (step d action self)).

(** *** Vocabulary of the specification *)

(** A whole, non-negative number of services. *)
Definition whole (x : Q) : Prop := exists z : Z, 0 <= z /\ (x == inject_Z z)%Q.

(** What the deployment test [occupancy < capacity] maintains for one
    node of capacity [cap]: the occupancy is a whole number, and it is
    either zero or was reached from an occupancy below [cap]. *)
Definition node_ok (cap occ : Q) : Prop :=
  whole occ /\ ((occ == 0)%Q \/ (occ < cap + 1)%Q).

(** The invariant of the environment object. *)
Definition Inv (s : Env) : Prop :=
  0 <= num_nodes s
  /\ length (node_status s) = Z.to_nat (num_nodes s)
  /\ length (node_occupancy s) = Z.to_nat (num_nodes s)
  /\ node_capacity s = replicate (Z.to_nat (num_nodes s)) (default_node_capacity s)
  /\ Forall (fun x => x = 0%Q \/ x = 1%Q) (node_status s)
  /\ Forall (node_ok (default_node_capacity s)) (node_occupancy s)
  /\ (inject_Z (num_agents s) == Qsum (node_occupancy s))%Q
  /\ max_steps s = 100
  /\ 0 <= steps s.

(** The attributes only the constructor assigns. *)
Definition same_frame_cfg (s s' : Env) : Prop :=
  num_nodes s' = num_nodes s
  /\ num_services s' = num_services s
  /\ max_agents s' = max_agents s
  /\ default_node_capacity s' = default_node_capacity s
  /\ event_probabilities s' = event_probabilities s.

(** The attributes an event handler leaves alone. *)
Definition same_frame (s s' : Env) : Prop :=
  num_nodes s' = num_nodes s
  /\ num_services s' = num_services s
  /\ max_agents s' = max_agents s
  /\ default_node_capacity s' = default_node_capacity s
  /\ event_probabilities s' = event_probabilities s
  /\ node_capacity s' = node_capacity s
  /\ max_steps s' = max_steps s.

(** The event probabilities the constructor stores for configuration [c]. *)
Definition configured_probabilities (c : Config) : list Q :=
  match cfg_event_probabilities c with
  | None | Some [] => default_event_probabilities
  | Some p => p
  end.

(** The state [reset] leaves for the arguments [c]: every node active
    and empty, no agent, [no_event], counter 0 and horizon 100. *)
Definition constructed (c : Config) : Env :=
  mkEnv (cfg_num_nodes c) (cfg_num_services c) (cfg_max_agents c)
    (cfg_node_capacity c) (configured_probabilities c)
    (replicate (Z.to_nat (cfg_num_nodes c)) 1%Q)
    (replicate (Z.to_nat (cfg_num_nodes c)) 0%Q)
    (replicate (Z.to_nat (cfg_num_nodes c)) (cfg_node_capacity c))
    0 no_event 0 100.

(** The attributes fixed by the constructor arguments. *)
Definition configured (c : Config) (s : Env) : Prop :=
  num_nodes s = cfg_num_nodes c
  /\ max_agents s = cfg_max_agents c
  /\ max_agents s <> 0
  /\ default_node_capacity s = cfg_node_capacity c
  /\ event_probabilities s = configured_probabilities c.

(** The layout of the observation vector of state [s]. *)
Definition observation_of (s : Env) : list Q :=
  <[event_index (current_event s) := 1%Q]> (replicate num_event_types 0%Q)
  ++ node_status s
  ++ zipWith Qdiv (node_occupancy s) (node_capacity s)
  ++ [(inject_Z (num_agents s) / inject_Z (max_agents s))%Q].

(** What holds of an observation [obs] emitted in state [s]: its layout
    and length, and the bounds on its normalised entries, each under the
    condition on the configuration it needs. *)
Definition observation_ok (s : Env) (obs : list Q) : Prop :=
  let normalized_occupancy := zipWith Qdiv (node_occupancy s) (node_capacity s) in
  let normalized_agents := (inject_Z (num_agents s) / inject_Z (max_agents s))%Q in
  obs = <[event_index (current_event s) := 1%Q]> (replicate num_event_types 0%Q)
        ++ node_status s ++ normalized_occupancy ++ [normalized_agents]
  /\ length obs = (num_event_types + 2 * Z.to_nat (num_nodes s) + 1)%nat
  /\ ((0 < default_node_capacity s)%Q ->
      Forall (fun x => (0 <= x)%Q) normalized_occupancy)
  /\ ((0 < default_node_capacity s)%Q -> whole (default_node_capacity s) ->
      Forall (fun x => (x <= 1)%Q) normalized_occupancy)
  /\ (0 < max_agents s -> (0 <= normalized_agents)%Q)
  /\ (0 < max_agents s -> whole (default_node_capacity s) ->
      (inject_Z (num_nodes s) * default_node_capacity s <= inject_Z (max_agents s))%Q ->
      (normalized_agents <= 1)%Q).

(** No service is deployed on a failed node. *)
Definition failed_nodes_empty (s : Env) : Prop :=
  forall (i : nat) (occ : Q),
    node_status s !! i = Some 0%Q -> node_occupancy s !! i = Some occ -> (occ == 0)%Q.

(** Running [step] over a list of (draws, action) pairs. *)
Definition run (script : list (Draws * Z)) (self : Env) : Env :=
  fold_left (fun s da => fst (step (fst da) (snd da) s)) script self.

End ServiceDeploymentEnv.

(** ** ppo_trainer.py: the losses of one mini-batch of [PPOTrainer.update] *)

Module PPOTrainer.

Import Num.
Local Open Scope R_scope.

(** The hyperparameters the loss computation reads from [self]. *)
Record Trainer := mkTrainer {
  clip_epsilon : R;
  value_coef : R;
  entropy_coef : R
}.

(** [torch.clamp(x, lo, hi)] on one entry. *)
Definition clamp (x lo hi : R) : R := Rmin (Rmax x lo) hi.

(** [t.sum()] and [t.mean()] of a one-dimensional tensor. *)
Definition Rsum (l : list R) : R := foldr Rplus 0 l.
Definition mean (l : list R) : R := Rsum l / INR (length l).

(** [ratio = torch.exp(log_probs - batch_old_log_probs)] *)
Definition ratio (log_probs batch_old_log_probs : list R) : list R :=
  map exp (zipWith Rminus log_probs batch_old_log_probs).

(** [surr1 = ratio * batch_advantages] *)
Definition surr1 (ratio batch_advantages : list R) : list R :=
  zipWith Rmult ratio batch_advantages.

(** [surr2 = torch.clamp(ratio, 1 - eps, 1 + eps) * batch_advantages] *)
Definition surr2 (self : Trainer) (ratio batch_advantages : list R) : list R :=
  zipWith Rmult
    (map (fun r => clamp r (1 - clip_epsilon self) (1 + clip_epsilon self)) ratio)
    batch_advantages.

(** [torch.min(surr1, surr2)], the clipped surrogate objective. *)
Definition surrogate (self : Trainer) (ratio batch_advantages : list R) : list R :=
  zipWith Rmin (surr1 ratio batch_advantages) (surr2 self ratio batch_advantages).

(** [policy_loss = -torch.min(surr1, surr2).mean()] *)
Definition policy_loss (self : Trainer)
    (log_probs batch_old_log_probs batch_advantages : list R) : R :=
  - mean (surrogate self (ratio log_probs batch_old_log_probs) batch_advantages).

(** [values_clipped = batch_old_values
      + torch.clamp(values - batch_old_values, -eps, eps)] *)
Definition values_clipped (self : Trainer) (values batch_old_values : list R) : list R :=
  zipWith Rplus batch_old_values
    (map (fun x => clamp x (- clip_epsilon self) (clip_epsilon self))
         (zipWith Rminus values batch_old_values)).

(** [value_loss = torch.max((values - batch_returns).pow(2),
      (values_clipped - batch_returns).pow(2)).mean()] *)
Definition value_loss (self : Trainer)
    (values batch_old_values batch_returns : list R) : R :=
  let value_loss1 := map (fun x => x ^ 2) (zipWith Rminus values batch_returns) in
  let value_loss2 :=
    map (fun x => x ^ 2)
        (zipWith Rminus (values_clipped self values batch_old_values) batch_returns) in
  mean (zipWith Rmax value_loss1 value_loss2).

(** [entropy_loss = -entropy.mean()] *)
Definition entropy_loss (entropy : list R) : R := - mean entropy.

(** [loss = policy_loss + value_coef * value_loss
      + entropy_coef * entropy_loss], for the tensors [log_probs],
    [values], [entropy] returned by [policy.evaluate] and the slices of
    the rollout selected by the batch indices. *)
Definition loss (self : Trainer)
    (log_probs values entropy
     batch_old_log_probs batch_returns batch_advantages batch_old_values : list R) : R :=
  policy_loss self log_probs batch_old_log_probs batch_advantages
  + value_coef self * value_loss self values batch_old_values batch_returns
  + entropy_coef self * entropy_loss entropy.

(** *** The same losses sample by sample, as the specification words them *)

(** One row of a mini-batch. *)
Record Sample := mkSample {
  new_log_prob : R;
  old_log_prob : R;
  advantage : R;
  value : R;
  old_value : R;
  return_ : R;
  sample_entropy : R
}.

Definition spec_ratio (s : Sample) : R := exp (new_log_prob s - old_log_prob s).

Definition spec_unclipped (s : Sample) : R := spec_ratio s * advantage s.

Definition spec_clipped (eps : R) (s : Sample) : R :=
  clamp (spec_ratio s) (1 - eps) (1 + eps) * advantage s.

Definition spec_policy_loss (eps : R) (batch : list Sample) : R :=
  - mean (map (fun s => Rmin (spec_unclipped s) (spec_clipped eps s)) batch).

Definition spec_clipped_value (eps : R) (s : Sample) : R :=
  old_value s + clamp (value s - old_value s) (- eps) eps.

Definition spec_value_loss (eps : R) (batch : list Sample) : R :=
  mean (map (fun s => Rmax ((value s - return_ s) ^ 2)
                           ((spec_clipped_value eps s - return_ s) ^ 2)) batch).

Definition spec_entropy_loss (batch : list Sample) : R :=
  - mean (map sample_entropy batch).

(** *** The rest of [PPOTrainer.update] *)

(** The exceptions the modelled part of [update] can raise: those of
    its own statements ([ValueError] from [range], [ZeroDivisionError]
    from the final divisions) and those of the calls into torch inside
    the loop body ([ValueError] from the argument checks of
    [Categorical], [RuntimeError]). *)
Inductive Exception := ValueError | ZeroDivisionError | RuntimeError.

(** A Python float of the statistics: a number, or [nan] ([None]). *)
Definition Stat : Type := option R.

(** [x + y] and [x / n] on such floats, for a positive integer [n]. *)
Definition stat_add (x y : Stat) : Stat :=
  match x, y with
  | Some a, Some b => Some (a + b)
  | _, _ => None
  end.

Definition stat_div (x : Stat) (n : nat) : Stat :=
  match x with
  | Some a => Some (a / INR n)
  | None => None
  end.

(** [t.std()] of torch: the unbiased estimator, with [n - 1] in the
    denominator (for one element torch returns [nan], outside the model). *)
Definition std (l : list R) : R :=
  sqrt (Rsum (map (fun x => (x - mean l) ^ 2) l) / (INR (length l) - 1)).

(** [advantages = (advantages - advantages.mean()) / (advantages.std() + 1e-8)] *)
Definition normalize (advantages : list R) : list R :=
  map (fun a => (a - mean advantages) / (std advantages + 1 / 100000000)) advantages.

(** [range(0, n, step)]: a zero step raises [ValueError], a negative step
    gives the empty range, a positive step the multiples of [step] below
    [n]. *)
Definition py_range (n : nat) (step : Z) : Exception + list nat :=
  if (step =? 0)%Z then inl ValueError
  else if (step <? 0)%Z then inr []
  else
    let k := Z.to_nat step in
    inr (map (fun i => (i * k)%nat) (seq 0 ((n + k - 1) / k))).

(** [a[start:stop]] for [0 <= start <= stop <= len(a)]. *)
Definition slice {A : Type} (a : list A) (start stop : nat) : list A :=
  take (stop - start) (drop start a).

(** The [batch_indices] arrays of one epoch, in the order of the inner
    loop: for each [start_idx] of [range(0, len(states), batch_size)], the
    slice [indices[start_idx:min(start_idx + batch_size, len(states))]] of
    the shuffled index array ([len(indices) = len(states)]). *)
Definition minibatches (indices : list nat) (batch_size : Z)
    : Exception + list (list nat) :=
  match py_range (length indices) batch_size with
  | inl e => inl e
  | inr starts =>
      inr (map (fun start_idx =>
                  let end_idx :=
                    Nat.min (start_idx + Z.to_nat batch_size) (length indices) in
                  slice indices start_idx end_idx) starts)
  end.

Section Update.

(** The trainable state (policy parameters and optimizer state),
    changed in place by the loop body. *)
Variable Policy : Type.

(** The body of the inner loop for one [batch_indices] array: the batch
    is gathered, [policy.evaluate] is called, the losses are computed, the
    gradient is clipped and [optimizer.step()] is applied.  It gives the
    trainable state it leaves and either the exception it raised or the
    three numbers added to the running totals: [policy_loss.item()],
    [value_loss.item()] and [entropy.mean().item()].  (With a single
    transition in the buffer the normalised advantage is [nan]: the first
    step returns [nan] losses and leaves [nan] parameters, and the
    [policy.evaluate] of the next step raises [ValueError].) *)
Variable train_step : Policy -> list nat -> Policy * (Exception + Stat * Stat * Stat).

(** The loop variables of [update]. *)
Record Totals := mkTotals {
  policy : Policy;
  total_policy_loss : Stat;
  total_value_loss : Stat;
  total_entropy : Stat;
  num_updates : nat
}.

(** One iteration of the inner loop, on the loop variables and the
    exception raised so far, if any (nothing runs after an exception). *)
Definition run_batch (st : Totals * option Exception) (batch_indices : list nat)
    : Totals * option Exception :=
  match st with
  | (st, Some e) => (st, Some e)
  | (st, None) =>
      match train_step (policy st) batch_indices with
      | (policy', inl e) =>
          (mkTotals policy' (total_policy_loss st) (total_value_loss st)
             (total_entropy st) (num_updates st), Some e)
      | (policy', inr (pl, vl, en)) =>
          (mkTotals policy' (stat_add (total_policy_loss st) pl)
             (stat_add (total_value_loss st) vl)
             (stat_add (total_entropy st) en) (S (num_updates st)), None)
      end
  end.

(** One epoch, on the index array as shuffled for it. *)
Definition run_epoch (batch_size : Z) (st : Totals * option Exception)
    (indices : list nat) : Totals * option Exception :=
  match st with
  | (st, Some e) => (st, Some e)
  | (st, None) =>
      match minibatches indices batch_size with
      | inl e => (st, Some e)
      | inr batches => fold_left run_batch batches (st, None)
      end
  end.

(** The epochs of [update]: [shuffled e] is the index array after
    [np.random.shuffle] in epoch [e]. *)
Definition run_epochs (update_epochs batch_size : Z) (shuffled : nat -> list nat)
    (policy0 : Policy) : Totals * option Exception :=
  fold_left (fun st e => run_epoch batch_size st (shuffled e))
            (seq 0 (Z.to_nat update_epochs))
            (mkTotals policy0 (Some 0) (Some 0) (Some 0) 0, None).

(** [update] from the epochs on: the trainable state it leaves, and the
    statistics dictionary ([policy_loss], [value_loss], [entropy]) or the
    exception raised.  The divisions by [num_updates] divide by a Python
    integer. *)
Definition update (update_epochs batch_size : Z) (shuffled : nat -> list nat)
    (policy0 : Policy) : Policy * (Exception + Stat * Stat * Stat) :=
  match run_epochs update_epochs batch_size shuffled policy0 with
  | (st, Some e) => (policy st, inl e)
  | (st, None) =>
      if Nat.eqb (num_updates st) 0 then (policy st, inl ZeroDivisionError)
      else (policy st,
            inr (stat_div (total_policy_loss st) (num_updates st),
                 stat_div (total_value_loss st) (num_updates st),
                 stat_div (total_entropy st) (num_updates st)))
  end.

End Update.

End PPOTrainer.

(** ** train.py and evaluate.py: the loops around the environment *)

Module Drivers.

Import Num RolloutBuffer ServiceDeploymentEnv.
Local Open Scope Z_scope.

(** What [policy.act(state)] returns: the sampled action, its
    log-probability and the value estimate.  The policy network and its
    sampling are outside this model: the loops take these triples, like
    the draws of the environment, from an oracle. *)
Record Act := mkAct { act_action : Z; act_log_prob : Q; act_value : Q }.

(** *** evaluate.py: one episode *)

(** The [while not done] loop of [evaluate] (and of the test part of
    [quick_demo]), from the iteration with counter [step_count] on:
    [policy.act], [env.step], [done = terminated or truncated], the reward
    added to [episode_reward], the counter advanced.  [oracle k] gives the
    draws and the action of iteration [k]; [fuel] bounds the number of
    iterations, [None] meaning that the loop has not ended within it. *)
Fixpoint episode_loop (fuel : nat) (oracle : Z -> Draws * Z) (env : Env)
    (episode_reward : Q) (step_count : Z) : option (Exception + (Env * Q * Z)) :=
  match fuel with
  | O => None
  | S fuel' =>
      let '(d, action) := oracle step_count in
      match step d action env with
      | (_, inl e) => Some (inl e)
      | (env', inr res) =>
          let done := terminated res || truncated res in
          let episode_reward := (episode_reward + reward res)%Q in
          let step_count := step_count + 1 in
          if done then Some (inr (env', episode_reward, step_count))
          else episode_loop fuel' oracle env' episode_reward step_count
      end
  end.

(** One evaluation episode: [env.reset()], then the loop. *)
Definition evaluate_episode (fuel : nat) (oracle : Z -> Draws * Z) (env : Env)
    : option (Exception + (Env * Q * Z)) :=
  match reset env with
  | (_, inl e) => Some (inl e)
  | (env0, inr _) => episode_loop fuel oracle env0 0%Q 0
  end.

(** *** train.py: collecting a rollout *)

(** The variables of [train] the collection loop reads and assigns
    (the tensorboard writer and the prints are left out). *)
Record TrainState := mkTrainState {
  env : Env;
  buffer : Buffer;
  state : list Q;
  episode_reward : Q;
  episode_length : Z;
  global_step : Z;
  episode_num : Z;
  episode_rewards : list Q;
  episode_lengths : list Z
}.

(** One iteration of [for _ in range(args.update_interval)], up to the
    test for [break].  Of the logging at the end of an episode only the
    test [episode_num % args.log_interval == 0] is kept, whose modulo
    raises on [log_interval = 0]. *)
Definition collect_iteration (log_interval : Z) (o : Draws * Act) (ts : TrainState)
    : Exception + TrainState :=
  let '(d, a) := o in
  match step d (act_action a) (env ts) with
  | (_, inl e) => inl e
  | (env1, inr res) =>
      let done := terminated res || truncated res in
      let buffer1 :=
        add (state ts) (act_action a) (Float (reward res)) (act_log_prob a)
            (act_value a) done (buffer ts) in
      let episode_reward1 := (episode_reward ts + reward res)%Q in
      let episode_length1 := episode_length ts + 1 in
      let global_step1 := global_step ts + 1 in
      if done then
        if log_interval =? 0 then inl ZeroDivisionError
        else
          match reset env1 with
          | (_, inl e) => inl e
          | (env2, inr obs) =>
              inr (mkTrainState env2 buffer1 obs 0%Q 0 global_step1
                     (episode_num ts + 1)
                     (episode_rewards ts ++ [episode_reward1])
                     (episode_lengths ts ++ [episode_length1]))
          end
      else
        inr (mkTrainState env1 buffer1 (observation res) episode_reward1
               episode_length1 global_step1 (episode_num ts)
               (episode_rewards ts) (episode_lengths ts))
  end.

(** The loop [for _ in range(args.update_interval)] with its [break] on
    [global_step >= args.total_timesteps]; [n] is the number of iterations
    the range still allows, [oracle g] gives the draws and the policy's
    answer at global step [g]. *)
Fixpoint collect_rollout (n : nat) (total_timesteps log_interval : Z)
    (oracle : Z -> Draws * Act) (ts : TrainState) : Exception + TrainState :=
  match n with
  | O => inr ts
  | S n' =>
      match collect_iteration log_interval (oracle (global_step ts)) ts with
      | inl e => inl e
      | inr ts' =>
          if total_timesteps <=? global_step ts' then inr ts'
          else collect_rollout n' total_timesteps log_interval oracle ts'
      end
  end.

(** What holds of the variables of [train] between two iterations: the
    environment is a reachable one with a valid event distribution, the
    episode length counts the steps of the running episode, which has not
    reached the horizon, and the two episode lists grow together. *)
Definition train_ready (c : Config) (ts : TrainState) : Prop :=
  reachable c (env ts)
  /\ valid_distribution (event_probabilities (env ts)) = true
  /\ episode_length ts = steps (env ts)
  /\ steps (env ts) < 100
  /\ length (episode_rewards ts) = length (episode_lengths ts)
  /\ aligned (buffer ts).

(** The number of [done] flags a buffer holds. *)
Definition done_count (b : Buffer) : nat :=
  length (List.filter (fun d : bool => d) (dones b)).

(** *** train.py: the training loop *)

Section Train.

(** [trainer.update(buffer)], as far as the loop depends on it: the
    exception it raises, if any.  (Its effect on the policy does not enter
    the control flow: the policy's answers come from the oracle.) *)
Variable trainer_update : Buffer -> option Exception.

(** One pass of the body of [while global_step < args.total_timesteps]:
    the collection loop, the update and [buffer.clear()] when the buffer
    is not empty, then the checkpoint test
    [global_step % args.save_interval == 0 and global_step > 0], whose
    modulo raises on [save_interval = 0] (saving itself, the writer and
    the prints are left out). *)
Definition train_pass (update_interval total_timesteps save_interval log_interval : Z)
    (oracle : Z -> Draws * Act) (ts : TrainState) : Exception + TrainState :=
  match collect_rollout (Z.to_nat update_interval) total_timesteps log_interval
          oracle ts with
  | inl e => inl e
  | inr ts1 =>
      let updated :=
        if (0 <? __len__ (buffer ts1))%nat then
          match trainer_update (buffer ts1) with
          | Some e => inl e
          | None => inr (clear (buffer ts1))
          end
        else inr (buffer ts1) in
      match updated with
      | inl e => inl e
      | inr buffer2 =>
          if save_interval =? 0 then inl ZeroDivisionError
          else
            inr (mkTrainState (env ts1) buffer2 (state ts1) (episode_reward ts1)
                   (episode_length ts1) (global_step ts1) (episode_num ts1)
                   (episode_rewards ts1) (episode_lengths ts1))
      end
  end.

(** The [while] loop; [None] when it has not ended within [fuel] passes. *)
Fixpoint train_loop (fuel : nat)
    (update_interval total_timesteps save_interval log_interval : Z)
    (oracle : Z -> Draws * Act) (ts : TrainState) : option (Exception + TrainState) :=
  match fuel with
  | O => None
  | S fuel' =>
      if global_step ts <? total_timesteps then
        match train_pass update_interval total_timesteps save_interval log_interval
                oracle ts with
        | inl e => Some (inl e)
        | inr ts' =>
            train_loop fuel' update_interval total_timesteps save_interval log_interval
              oracle ts'
        end
      else Some (inr ts)
  end.

End Train.

End Drivers.

(** ** policy.py *)

Module ActorCritic.

Import Num.
Local Open Scope R_scope.

(** The parameters of an [nn.Linear(in_features, out_features)]: one
    weight row per output feature, and the bias vector. *)
Record Linear := mkLinear { weight : list (list R); bias : list R }.

Definition dot (w x : list R) : R := PPOTrainer.Rsum (zipWith Rmult w x).

(** The layer applied to one input row: [x W^T + b]. *)
Definition linear (l : Linear) (x : list R) : list R :=
  zipWith Rplus (map (fun row => dot row x) (weight l)) (bias l).

(** [nn.Softmax(dim=-1)] on one row. *)
Definition softmax (x : list R) : list R :=
  map (fun xi => exp xi / PPOTrainer.Rsum (map exp x)) x.

(** The parameters of [ActorCritic]: the two linear layers of [shared],
    the linear layer of [actor] and [critic]. *)
Record Network := mkNetwork {
  shared_0 : Linear;
  shared_2 : Linear;
  actor_0 : Linear;
  critic : Linear
}.

(** [forward], on one state row: the action probabilities and the value
    row. *)
Definition forward (self : Network) (state : list R) : list R * list R :=
  let features :=
    map tanh (linear (shared_2 self) (map tanh (linear (shared_0 self) state))) in
  let action_probs := softmax (linear (actor_0 self) features) in
  let value := linear (critic self) features in
  (action_probs, value).

(** [Categorical(probs)]: the distribution normalises its argument,
    [probs / probs.sum(-1)]. *)
Definition Categorical (probs : list R) : list R :=
  map (fun p => p / PPOTrainer.Rsum probs) probs.

(** [dist.log_prob(action)]: the logarithm of the probability of the
    action; an action outside the support is an error ([None]). *)
Definition log_prob (dist : list R) (action : nat) : option R :=
  p ← dist !! action; Some (ln p).

(** [dist.entropy()] *)
Definition entropy (dist : list R) : R :=
  - PPOTrainer.Rsum (map (fun p => p * ln p) dist).

(** [act]: [sampled] is the index [dist.sample()] drew; the result is
    the action, its log-probability and [value.item()]. *)
Definition act (self : Network) (state : list R) (sampled : nat)
    : option (nat * R * R) :=
  let '(action_probs, value) := forward self state in
  let dist := Categorical action_probs in
  lp ← log_prob dist sampled;
  v ← value !! 0%nat;
  Some (sampled, lp, v).

(** [evaluate] on one (state, action) row of the batch: the
    log-probability of the action, the value and the entropy. *)
Definition evaluate (self : Network) (state : list R) (action : nat)
    : option (R * R * R) :=
  let '(action_probs, values) := forward self state in
  let dist := Categorical action_probs in
  lp ← log_prob dist action;
  v ← values !! 0%nat;
  Some (lp, v, entropy dist).

End ActorCritic.

(** * Properties of the rollout buffer *)

Module BufferProps.

Import Num RolloutBuffer.
Local Open Scope Q_scope.

Lemma at_insert_eq (l : list Q) (i : nat) (x : Q) :
  (i < length l)%nat -> at_ (<[i := x]> l) i = x.
Proof.
  intros Hi. unfold at_. rewrite list_lookup_insert_eq by exact Hi. reflexivity.
Qed.

Lemma at_insert_ne (l : list Q) (i j : nat) (x : Q) :
  i <> j -> at_ (<[i := x]> l) j = at_ l j.
Proof.
  intros Hij. unfold at_. rewrite list_lookup_insert_ne by exact Hij. reflexivity.
Qed.

Lemma at_zipWith_plus (l k : list Q) (t : nat) :
  (t < length l)%nat -> (t < length k)%nat ->
  at_ (zipWith Qplus l k) t = at_ l t + at_ k t.
Proof.
  revert k t. induction l as [|a l IH]; intros [|c k] [|t] Hl Hk;
    simpl in *; try lia; [reflexivity|].
  change (at_ (zipWith Qplus l k) t = at_ l t + at_ k t).
  apply IH; lia.
Qed.

Lemma length_zipWith {A B C} (f : A -> B -> C) (l : list A) (k : list B) :
  length l = length k -> length (zipWith f l k) = length l.
Proof.
  revert k. induction l as [|a l IH]; intros [|b k] H; simpl in *; try lia.
  f_equal. apply IH. lia.
Qed.

Section Loop.

Variables (gamma gae_lambda : Q) (b : Buffer).

Let T := length (rewards b).
Let rewards_array := np_array (rewards b).
Let body := fun (t : nat) (st : Q * ndarray) =>
  gae_iter gamma gae_lambda rewards_array (values b) (dones b) st t.

(** The loop, run over the indices [k+n-1] down to [k]. *)
Let pass (k n : nat) : Q * ndarray :=
  fold_right body (0, zeros_like rewards_array) (seq k n).

(** What holds after the iterations for the indices [k .. T-1]: the
    accumulator is the unconverted one, and each entry written is its
    conversion to the element type of the array. *)
Lemma pass_invariant (n k : nat) :
  (k + n = T)%nat ->
  let '(gae, advantages) := pass k n in
  dtype advantages = rewards_dtype b
  /\ length (data advantages) = T
  /\ gae = gae_from gamma gae_lambda b k n
  /\ forall t, (k <= t < T)%nat ->
       at_ (data advantages) t
       = astype (rewards_dtype b) (gae_from gamma gae_lambda b t (T - t)).
Proof.
  revert k. induction n as [|n IH]; intros k Hk.
  - unfold pass. simpl. split; [reflexivity|].
    split; [rewrite length_replicate; apply length_map|].
    split; [reflexivity | intros t Ht; lia].
  - unfold pass. simpl seq. simpl fold_right.
    specialize (IH (S k)). fold (pass (S k) n).
    destruct (pass (S k) n) as [gae advantages].
    destruct IH as (Hdt & Hlen & Hgae & Hrec); [lia|].
    unfold body, gae_iter.
    assert (HkT : (k < T)%nat) by lia.
    assert (Hnv : (if Nat.eqb k (length (data rewards_array) - 1) then 0
                   else at_ (values b) (k + 1))
                  = next_value b k).
    { unfold next_value, rewards_array. simpl data. rewrite length_map. fold T.
      destruct (Nat.eqb_spec k (T - 1)), (Nat.ltb_spec k (T - 1)); try lia; reflexivity. }
    rewrite Hnv.
    assert (Hacc : at_ (data rewards_array) k + gamma * next_value b k
                     * (1 - b2q (default false (dones b !! k))) - at_ (values b) k
                   + gamma * gae_lambda * (1 - b2q (default false (dones b !! k))) * gae
                   = gae_from gamma gae_lambda b k (S n)).
    { rewrite Hgae. reflexivity. }
    rewrite Hacc. unfold setitem. simpl dtype. simpl data.
    split; [exact Hdt|].
    split; [rewrite length_insert; exact Hlen|].
    split; [reflexivity|].
    intros t Ht. destruct (decide (t = k)) as [->|Hne].
    + rewrite at_insert_eq by lia. rewrite Hdt.
      replace (T - k)%nat with (S n) by lia. reflexivity.
    + rewrite at_insert_ne by lia. apply Hrec. lia.
Qed.

(** The loop of the method is [pass 0 T]. *)
Lemma loop_is_pass :
  fold_left (gae_iter gamma gae_lambda rewards_array (values b) (dones b))
            (rev (seq 0 T)) (0, zeros_like rewards_array)
  = pass 0 T.
Proof.
  unfold pass. rewrite <- fold_left_rev_right. rewrite rev_involutive. reflexivity.
Qed.

End Loop.

Lemma gae_unfold (gamma gae_lambda : Q) (b : Buffer) :
  compute_returns_and_advantages gamma gae_lambda b
  = (b, (zipWith Qplus
           (data (snd (fold_left
                         (gae_iter gamma gae_lambda (np_array (rewards b))
                            (values b) (dones b))
                         (rev (seq 0 (length (rewards b))))
                         (0, zeros_like (np_array (rewards b))))))
           (values b),
         data (snd (fold_left
                      (gae_iter gamma gae_lambda (np_array (rewards b))
                         (values b) (dones b))
                      (rev (seq 0 (length (rewards b))))
                      (0, zeros_like (np_array (rewards b))))))).
Proof.
  unfold compute_returns_and_advantages. simpl data. rewrite length_map.
  destruct (fold_left _ _ _) as [gae advantages]. reflexivity.
Qed.

(** The advantages are the conversions of the accumulator to the element
    type of the reward array. *)
Lemma advantages_converted (gamma gae_lambda : Q) (b : Buffer) :
  length (advantages_of gamma gae_lambda b) = length (rewards b)
  /\ forall t : nat, (t < length (rewards b))%nat ->
       at_ (advantages_of gamma gae_lambda b) t
       = astype (rewards_dtype b) (gae_at gamma gae_lambda b t).
Proof.
  unfold advantages_of. rewrite gae_unfold. simpl snd. rewrite loop_is_pass.
  pose proof (pass_invariant gamma gae_lambda b (length (rewards b)) 0 eq_refl) as Hinv.
  cbv beta in Hinv |- *.
  destruct (fold_right _ _ _) as [gae advantages]. simpl snd.
  destruct Hinv as (_ & Hlen & _ & Hrec).
  split; [exact Hlen|]. intros t Ht. apply Hrec. lia.
Qed.

(** The accumulator follows the recurrence of the specification. *)
Lemma gae_at_unfold (gamma gae_lambda : Q) (b : Buffer) (t : nat) :
  (t < length (rewards b))%nat ->
  gae_at gamma gae_lambda b t
  = delta gamma b t
    + gamma * gae_lambda * not_done b t
      * (if (t <? length (rewards b) - 1)%nat then gae_at gamma gae_lambda b (t + 1)
         else 0).
Proof.
  intros Ht. unfold gae_at.
  replace (length (rewards b) - t)%nat with (S (length (rewards b) - (t + 1))) by lia.
  simpl gae_from. replace (S t) with (t + 1)%nat by lia.
  destruct (Nat.ltb_spec t (length (rewards b) - 1)); [reflexivity|].
  replace (length (rewards b) - (t + 1))%nat with 0%nat by lia. reflexivity.
Qed.

(** With float rewards nothing is converted: the advantages follow the
    recurrence themselves. *)
Lemma gae_recurrence (gamma gae_lambda : Q) (b : Buffer) :
  rewards_dtype b = float64 ->
  length (advantages_of gamma gae_lambda b) = length (rewards b)
  /\ forall t : nat, (t < length (rewards b))%nat ->
       at_ (advantages_of gamma gae_lambda b) t
       = delta gamma b t
         + gamma * gae_lambda * not_done b t
           * gae_in b (advantages_of gamma gae_lambda b) t.
Proof.
  intros Hf. destruct (advantages_converted gamma gae_lambda b) as [Hlen Hadv].
  split; [exact Hlen|]. intros t Ht.
  rewrite (Hadv t Ht), Hf. simpl astype. rewrite (gae_at_unfold _ _ _ _ Ht).
  unfold gae_in. destruct (Nat.ltb_spec t (length (rewards b) - 1)); [|reflexivity].
  rewrite Hadv by lia. rewrite Hf. reflexivity.
Qed.

Lemma returns_at (gamma gae_lambda : Q) (b : Buffer) (t : nat) :
  length (values b) = length (rewards b) -> (t < length (rewards b))%nat ->
  at_ (returns_of gamma gae_lambda b) t
  = at_ (advantages_of gamma gae_lambda b) t + at_ (values b) t.
Proof.
  intros Hv Ht. destruct (advantages_converted gamma gae_lambda b) as [Hlen _].
  unfold returns_of, advantages_of in *. rewrite gae_unfold in *. simpl in *.
  apply at_zipWith_plus; lia.
Qed.

Lemma aligned_exec (b : Buffer) (c : Call) : aligned b -> aligned (exec b c).
Proof.
  unfold aligned. intros (Ha & Hr & Hl & Hv & Hd).
  destruct c; simpl; [|repeat split; reflexivity].
  rewrite !length_app. simpl. repeat split; lia.
Qed.

(** C1, the code at the failing input.  The claim gives, for a buffer
    of one transition with done, reward r and value v, the advantage
    r - v and the return r.  For the reward 1 passed as a Python int and
    the value 1/2 the reward array is an [int64] array, so is the array of
    advantages, and the accumulator 1/2 is stored as 0: the method returns
    the advantage 0 and the return 1/2, not 1/2 and 1.  The same
    transition with the reward passed as the float 1.0 gives what the
    claim says. *)
Theorem compute_returns_and_advantages_int_reward :
  let b := add [0] 0 (Int 1) 0 (1 # 2) true __init__ in
  let b' := add [0] 0 (Float 1) 0 (1 # 2) true __init__ in
  rewards_dtype b = int64
  /\ (exists ret adv : Q,
        snd (compute_returns_and_advantages (99 # 100) (95 # 100) b) = ([ret], [adv])
        /\ adv == 0 /\ ret == 1 # 2
        /\ ~ adv == 1 - (1 # 2) /\ ~ ret == 1)
  /\ (exists ret adv : Q,
        snd (compute_returns_and_advantages (99 # 100) (95 # 100) b') = ([ret], [adv])
        /\ adv == 1 - (1 # 2) /\ ret == 1).
Proof.
  split; [reflexivity|]. split.
  - eexists _, _. split; [vm_compute; reflexivity|].
    repeat split; try reflexivity; intros H; vm_compute in H; discriminate.
  - eexists _, _. split; [vm_compute; reflexivity|]. split; reflexivity.
Qed.

(** X29.  With float rewards [compute_returns_and_advantages] is
    generalised advantage estimation.  For a buffer of length T >= 1
    (whose lists are aligned) whose reward array is a float array, which
    it is as soon as one stored reward is a float, the method returns
    arrays [returns] and [advantages] of length T with, at every index
    t < T, [advantages[t] = delta[t] + gamma * gae_lambda * (1 - done[t]) * gae]
    where [gae] is 0 at t = T-1 and [advantages[t+1]] before,
    [delta[t] = reward[t] + gamma * next_value[t] * (1 - done[t]) - value[t]],
    [next_value] being [values[t+1]] or 0 at the end, and
    [returns[t] = advantages[t] + values[t]].  For the one-transition
    buffer with done and the float reward r the advantage is r - v and the
    return is r; for the two-transition buffer with dones [0, 1] and float
    rewards the values are those of the recurrence written out. *)
Theorem gae_on_float_rewards (gamma gae_lambda : Q) :
  (forall b : Buffer, aligned b -> (1 <= __len__ b)%nat ->
     rewards_dtype b = float64 ->
     exists returns advantages : list Q,
       compute_returns_and_advantages gamma gae_lambda b = (b, (returns, advantages))
       /\ length advantages = __len__ b
       /\ length returns = __len__ b
       /\ forall t : nat, (t < __len__ b)%nat ->
            at_ advantages t
            = delta gamma b t
              + gamma * gae_lambda * not_done b t * gae_in b advantages t
            /\ at_ returns t = at_ advantages t + at_ (values b) t)
  /\ (forall (b : Buffer) (r v : Q),
        rewards b = [Float r] -> values b = [v] -> dones b = [true] ->
        exists ret adv : Q,
          snd (compute_returns_and_advantages gamma gae_lambda b) = ([ret], [adv])
          /\ adv == r - v /\ ret == r)
  /\ (forall (b : Buffer) (r0 r1 v0 v1 : Q),
        rewards b = [Float r0; Float r1] -> values b = [v0; v1] ->
        dones b = [false; true] ->
        exists ret0 ret1 adv0 adv1 : Q,
          snd (compute_returns_and_advantages gamma gae_lambda b)
          = ([ret0; ret1], [adv0; adv1])
          /\ adv1 == r1 - v1
          /\ adv0 == (r0 + gamma * v1 - v0) + gamma * gae_lambda * adv1
          /\ ret0 == adv0 + v0 /\ ret1 == adv1 + v1).
Proof.
  split; [|split].
  - intros b (Ha & Hr & Hl & Hv & Hd) Hlen Hf. unfold __len__ in *.
    destruct (gae_recurrence gamma gae_lambda b Hf) as [Hlen' Hrec].
    exists (returns_of gamma gae_lambda b), (advantages_of gamma gae_lambda b).
    split.
    { unfold returns_of, advantages_of. rewrite gae_unfold. reflexivity. }
    split; [lia|]. split.
    { unfold returns_of, advantages_of in *. rewrite gae_unfold in *. simpl in *.
      rewrite length_zipWith; lia. }
    intros t Ht. split; [apply Hrec; lia|].
    apply returns_at; lia.
  - intros b r v Hr Hv Hd. rewrite gae_unfold, Hr, Hv, Hd.
    cbn [length seq rev app fold_left gae_iter replicate snd zipWith
         Nat.eqb Nat.sub at_ lookup list_lookup default from_option b2q
         list_insert insert Datatypes.id np_array zeros_like setitem astype
         dtype data forallb is_int andb negb map list_fmap fmap value_of].
    eexists _, _. split; [reflexivity|]. split; ring.
  - intros b r0 r1 v0 v1 Hr Hv Hd. rewrite gae_unfold, Hr, Hv, Hd.
    cbn [length seq rev app fold_left gae_iter replicate snd zipWith
         Nat.eqb Nat.sub Nat.add at_ lookup list_lookup default from_option b2q
         list_insert insert Datatypes.id np_array zeros_like setitem astype
         dtype data forallb is_int andb negb map list_fmap fmap value_of].
    eexists _, _, _, _. split; [reflexivity|]. repeat split; ring.
Qed.

(** X29 on a buffer of two transitions with float rewards. *)
Lemma gae_on_float_rewards_witness :
  let b := add [1] 1 (Float 2) 0 (1 # 2) true
             (add [0] 0 (Float 1) 0 (1 # 4) false __init__) in
  aligned b /\ (1 <= __len__ b)%nat /\ rewards_dtype b = float64
  /\ exists returns advantages : list Q,
       compute_returns_and_advantages (99 # 100) (95 # 100) b = (b, (returns, advantages))
       /\ length advantages = __len__ b
       /\ length returns = __len__ b
       /\ forall t : nat, (t < __len__ b)%nat ->
            at_ advantages t
            = delta (99 # 100) b t
              + (99 # 100) * (95 # 100) * not_done b t * gae_in b advantages t
            /\ at_ returns t = at_ advantages t + at_ (values b) t.
Proof.
  intros b.
  assert (Hal : aligned b) by (repeat split; reflexivity).
  assert (Hlen : (1 <= __len__ b)%nat) by (vm_compute; lia).
  assert (Hf : rewards_dtype b = float64) by reflexivity.
  split; [exact Hal|]. split; [exact Hlen|]. split; [exact Hf|].
  exact (proj1 (gae_on_float_rewards (99 # 100) (95 # 100)) b Hal Hlen Hf).
Defined.

(** C9.  After any sequence of [add] and [clear] calls on a new buffer
    the six lists have equal length; after [clear] the length is 0; and
    calls made after a [clear] leave the buffer they leave on a newly
    constructed one. *)
Theorem buffer_lists_aligned_clear_fresh :
  (forall calls : list Call, aligned (execs calls __init__))
  /\ (forall b : Buffer, __len__ (clear b) = 0%nat)
  /\ (forall (b : Buffer) (calls : list Call),
        execs calls (clear b) = execs calls __init__).
Proof.
  split; [|split].
  - intros calls. unfold execs.
    assert (H0 : aligned __init__) by (repeat split; reflexivity).
    revert H0. generalize __init__.
    induction calls as [|c calls IH]; intros b Hb; simpl; [exact Hb|].
    apply IH, aligned_exec, Hb.
  - intros b. reflexivity.
  - intros b calls. reflexivity.
Qed.

(** C10.  [get] and [compute_returns_and_advantages] leave the buffer
    as it was, and a second call of [compute_returns_and_advantages]
    with the same arguments returns what the first returned. *)
Theorem get_and_gae_read_only (gamma gae_lambda : Q) (b : Buffer) :
  fst (get b) = b
  /\ fst (compute_returns_and_advantages gamma gae_lambda b) = b
  /\ snd (compute_returns_and_advantages gamma gae_lambda
            (fst (compute_returns_and_advantages gamma gae_lambda b)))
     = snd (compute_returns_and_advantages gamma gae_lambda b)
  /\ fst (compute_returns_and_advantages gamma gae_lambda
            (fst (get b))) = b.
Proof.
  rewrite !gae_unfold. simpl. repeat split.
Qed.

End BufferProps.

(** * Properties of the environment *)

Module EnvProps.

Import Num ServiceDeploymentEnv.
Local Open Scope Z_scope.

(** ** Arithmetic of the idealised floats *)

Lemma Qltb_lt (x y : Q) : Qltb x y = true <-> (x < y)%Q.
Proof.
  unfold Qltb. rewrite negb_true_iff.
  destruct (Qle_bool y x) eqn:E.
  - apply Qle_bool_iff in E. split; [discriminate|]. intros H.
    exfalso. apply (Qlt_not_le _ _ H E).
  - split; [|reflexivity]. intros _. apply Qnot_le_lt. intros H.
    apply Qle_bool_iff in H. congruence.
Qed.

Lemma py_int_whole (x : Q) (z : Z) : (x == inject_Z z)%Q -> py_int x = z.
Proof.
  unfold Qeq, py_int. simpl. intros H. rewrite Z.mul_1_r in H. rewrite H.
  apply Z.quot_mul. discriminate.
Qed.

Lemma Qsum_nonneg (l : list Q) : Forall (fun x => (0 <= x)%Q) l -> (0 <= Qsum l)%Q.
Proof.
  induction 1 as [|x l Hx _ IH]; simpl; [apply Qle_refl|].
  change (0 <= x + Qsum l)%Q. lra.
Qed.

Lemma Qsum_insert (l : list Q) (i : nat) (x y : Q) :
  l !! i = Some y -> (Qsum (<[i := x]> l) == Qsum l - y + x)%Q.
Proof.
  revert i. induction l as [|a l IH]; intros [|i] H; simpl in H; try discriminate.
  - injection H as ->. simpl. change (x + Qsum l == y + Qsum l - y + x)%Q. ring.
  - simpl. change (a + Qsum (<[i := x]> l) == a + Qsum l - y + x)%Q.
    rewrite (IH i H). ring.
Qed.

Lemma Qsum_replicate_0 (n : nat) : (Qsum (replicate n 0%Q) == 0)%Q.
Proof.
  induction n as [|n IH]; simpl; [reflexivity|].
  change (0 + Qsum (replicate n 0%Q) == 0)%Q. rewrite IH. reflexivity.
Qed.

Lemma whole_nonneg (x : Q) : whole x -> (0 <= x)%Q.
Proof.
  intros (z & Hz & ->). change 0%Q with (inject_Z 0). rewrite <- Zle_Qle. exact Hz.
Qed.

Lemma whole_0 : whole 0.
Proof. exists 0. split; [lia | reflexivity]. Qed.

Lemma whole_succ (x : Q) : whole x -> whole (x + 1).
Proof.
  intros (z & Hz & Hx). exists (z + 1). split; [lia|].
  rewrite inject_Z_plus, Hx. reflexivity.
Qed.

Lemma whole_pred (x : Q) : whole x -> (0 < x)%Q -> whole (x - 1).
Proof.
  intros (z & Hz & Hx) Hpos. exists (z - 1).
  rewrite Hx in Hpos. change 0%Q with (inject_Z 0) in Hpos.
  rewrite <- Zlt_Qlt in Hpos. split; [lia|].
  unfold Z.sub. rewrite inject_Z_plus, Hx. reflexivity.
Qed.

(** Between two whole numbers, [x < c + 1] is [x <= c]. *)
Lemma whole_lt_succ_le (x c : Q) :
  whole x -> whole c -> (x < c + 1)%Q -> (x <= c)%Q.
Proof.
  intros (z & _ & Hx) (k & _ & Hc) H. rewrite Hx, Hc in *.
  change 1%Q with (inject_Z 1) in H. rewrite <- inject_Z_plus in H.
  rewrite <- Zlt_Qlt in H. rewrite <- Zle_Qle. lia.
Qed.

(** ** numpy helpers *)

Lemma at_lookup (a : list Q) (i : nat) (x : Q) : a !! i = Some x -> at_ a i = x.
Proof. unfold at_. intros ->. reflexivity. Qed.

Lemma lookup_at (a : list Q) (i : nat) : (i < length a)%nat -> a !! i = Some (at_ a i).
Proof.
  intros H. destruct (lookup_lt_is_Some_2 a i H) as [x Hx].
  rewrite (at_lookup _ _ _ Hx). exact Hx.
Qed.

Lemma np_where_spec (cond : Q -> bool) (a : list Q) (i : nat) :
  In i (np_where cond a) <-> (i < length a)%nat /\ cond (at_ a i) = true.
Proof.
  unfold np_where. rewrite List.filter_In, in_seq. intuition lia.
Qed.

Lemma choice_In (k : nat) (l : list nat) :
  (0 <? length l)%nat = true -> In (choice k l) l.
Proof.
  intros H. apply Nat.ltb_lt in H. unfold choice.
  assert (Hk : (k mod length l < length l)%nat) by (apply Nat.mod_upper_bound; lia).
  destruct (lookup_lt_is_Some_2 l _ Hk) as [x Hx]. rewrite Hx. simpl.
  apply list_elem_of_In. eapply list_elem_of_lookup_2. exact Hx.
Qed.

Lemma np_index_lt (len : nat) (i : Z) (k : nat) :
  np_index len i = Some k -> (k < len)%nat.
Proof.
  unfold np_index.
  destruct ((0 <=? i) && (i <? Z.of_nat len)) eqn:E1.
  - intros [= <-]. apply andb_true_iff in E1. lia.
  - destruct ((i <? 0) && (- Z.of_nat len <=? i)) eqn:E2; [|discriminate].
    intros [= <-]. apply andb_true_iff in E2. lia.
Qed.

Lemma np_index_in_range (len : nat) (i : Z) :
  0 <= i < Z.of_nat len -> np_index len i = Some (Z.to_nat i).
Proof.
  intros H. unfold np_index.
  destruct (Z.leb_spec 0 i), (Z.ltb_spec i (Z.of_nat len)); try lia. reflexivity.
Qed.

Lemma np_get_Some (a : list Q) (i : Z) (x : Q) :
  np_get a i = Some x ->
  exists k, np_index (length a) i = Some k /\ a !! k = Some x.
Proof.
  unfold np_get. destruct (np_index (length a) i) as [k|]; simpl; [|discriminate].
  intros H. exists k. split; [reflexivity | exact H].
Qed.

(** ** The invariant *)

Lemma same_frame_refl (s : Env) : same_frame s s.
Proof. repeat split. Qed.

Lemma Inv_intro (s s' : Env) :
  Inv s -> same_frame s s' -> 0 <= steps s' ->
  length (node_status s') = length (node_status s) ->
  length (node_occupancy s') = length (node_occupancy s) ->
  Forall (fun x => x = 0%Q \/ x = 1%Q) (node_status s') ->
  Forall (node_ok (default_node_capacity s)) (node_occupancy s') ->
  (inject_Z (num_agents s') == Qsum (node_occupancy s'))%Q ->
  Inv s'.
Proof.
  intros (Hn & Hls & Hlo & Hcap & Hst & Hocc & Hsum & Hmax & Hsteps)
         (Fn & _ & _ & Fc & _ & Fcap & Fmax) Hs' Hls' Hlo' Hst' Hocc' Hsum'.
  unfold Inv. rewrite Fn, Fc, Fcap, Fmax.
  repeat split; try assumption; congruence.
Qed.

Lemma capacity_lookup (s : Env) (k : nat) (cp : Q) :
  Inv s -> node_capacity s !! k = Some cp -> cp = default_node_capacity s.
Proof.
  intros (_ & _ & _ & Hcap & _) H. rewrite Hcap in H.
  apply lookup_replicate in H. tauto.
Qed.

Lemma unchanged_ok (s : Env) (e : Event) :
  Inv s -> current_event s = e ->
  Inv s /\ same_frame s s /\ steps s = steps s /\ current_event s = e.
Proof.
  intros HI He. split; [exact HI|]. split; [apply same_frame_refl|].
  split; [reflexivity | exact He].
Qed.

Lemma Inv_after_event (d : Draws) (action : Z) (s s1 : Env) (r : Q) (i : Info) :
  Inv s -> apply_event d action s = inr (s1, r, i) ->
  Inv s1 /\ same_frame s s1 /\ steps s1 = steps s
  /\ current_event s1 = current_event s.
Proof.
  intros HI H.
  pose proof HI as (Hn & Hls & Hlo & Hcap & Hst & Hocc & Hsum & Hmax & Hsteps).
  unfold apply_event in H.
  destruct (current_event s) eqn:Hev.
  - (* agent_arrival *)
    destruct (action <? num_nodes s); [|injection H as <- _ _; exact (unchanged_ok s _ HI Hev)].
    destruct (np_get (node_status s) action) as [st|]; [|discriminate].
    destruct (Qeq_bool st 1); [|injection H as <- _ _; exact (unchanged_ok s _ HI Hev)].
    destruct (np_get (node_occupancy s) action) as [occ|] eqn:Hocc_get; [|discriminate].
    destruct (np_get (node_capacity s) action) as [cap|] eqn:Hcap_get; [|discriminate].
    destruct (Qltb occ cap) eqn:Hlt; [|injection H as <- _ _; exact (unchanged_ok s _ HI Hev)].
    injection H as <- _ _.
    apply np_get_Some in Hocc_get as (k & Hk & Hocck).
    apply np_get_Some in Hcap_get as (k' & _ & Hcapk).
    apply (capacity_lookup s) in Hcapk; [|exact HI]. subst cap.
    rewrite Hk. simpl default.
    apply Qltb_lt in Hlt.
    pose proof (Forall_lookup_1 _ _ _ _ Hocc Hocck) as [Hw _].
    split; [|split; [repeat split | split; [reflexivity | exact Hev]]].
    eapply Inv_intro; [exact HI | repeat split | exact Hsteps | reflexivity | | exact Hst | | ];
      simpl.
    + apply length_insert.
    + apply Forall_insert; [exact Hocc|]. split; [apply whole_succ, Hw|].
      right. lra.
    + rewrite (Qsum_insert _ _ _ _ Hocck). rewrite inject_Z_plus, Hsum.
      change (inject_Z 1) with 1%Q. ring.
  - (* agent_departure *)
    destruct (0 <? num_agents s); [|injection H as <- _ _; exact (unchanged_ok s _ HI Hev)].
    destruct (0 <? length (np_where (Qltb 0) (node_occupancy s)))%nat eqn:Hne;
      [|injection H as <- _ _; exact (unchanged_ok s _ HI Hev)].
    injection H as <- _ _.
    pose proof (choice_In (pick d) _ Hne) as Hin.
    apply np_where_spec in Hin as [Hlt Hpos]. apply Qltb_lt in Hpos.
    set (k := choice (pick d) (np_where (Qltb 0) (node_occupancy s))) in *.
    pose proof (lookup_at _ _ Hlt) as Hk.
    pose proof (Forall_lookup_1 _ _ _ _ Hocc Hk) as [Hw Hbound].
    split; [|split; [repeat split | split; [reflexivity | exact Hev]]].
    eapply Inv_intro; [exact HI | repeat split | exact Hsteps | reflexivity | | exact Hst | | ];
      simpl.
    + apply length_insert.
    + apply Forall_insert; [exact Hocc|]. split; [apply whole_pred; assumption|].
      right. destruct Hbound as [H0|Hb]; [rewrite H0 in Hpos; lra | lra].
    + rewrite (Qsum_insert _ _ _ _ Hk). unfold Z.sub. rewrite inject_Z_plus, Hsum.
      change (inject_Z (- (1))) with (- (1))%Q. ring.
  - (* node_failure *)
    destruct (0 <? length (np_where (fun x => Qeq_bool x 1) (node_status s)))%nat eqn:Hne;
      [|injection H as <- _ _; exact (unchanged_ok s _ HI Hev)].
    injection H as <- _ _.
    pose proof (choice_In (pick d) _ Hne) as Hin.
    apply np_where_spec in Hin as [Hlt _].
    set (k := choice (pick d) (np_where (fun x => Qeq_bool x 1) (node_status s))) in *.
    simpl.
    assert (Hlt' : (k < length (node_occupancy s))%nat) by lia.
    pose proof (lookup_at _ _ Hlt') as Hk.
    pose proof (Forall_lookup_1 _ _ _ _ Hocc Hk) as [Hw _].
    assert (Hocc' : Forall (node_ok (default_node_capacity s))
                      (<[k := 0%Q]> (node_occupancy s))).
    { apply Forall_insert; [exact Hocc|]. split; [apply whole_0 | left; reflexivity]. }
    assert (Hrest : (inject_Z (num_agents s) - at_ (node_occupancy s) k
                     == Qsum (<[k := 0%Q]> (node_occupancy s)))%Q).
    { rewrite (Qsum_insert _ _ _ _ Hk), Hsum. ring. }
    assert (Hge : (0 <= Qsum (<[k := 0%Q]> (node_occupancy s)))%Q).
    { apply Qsum_nonneg. eapply Forall_impl; [exact Hocc'|].
      intros x [Hx _]. apply whole_nonneg, Hx. }
    destruct Hw as (z & Hz & Hzk).
    assert (Hdiff : (inject_Z (num_agents s) - at_ (node_occupancy s) k
                     == inject_Z (num_agents s - z))%Q).
    { unfold Z.sub at 1. rewrite inject_Z_plus, inject_Z_opp, Hzk. reflexivity. }
    split; [|split; [repeat split | split; [reflexivity | exact Hev]]].
    eapply Inv_intro; [exact HI | repeat split | exact Hsteps | | | | | ];
      simpl.
    + apply length_insert.
    + apply length_insert.
    + apply Forall_insert; [exact Hst | left; reflexivity].
    + exact Hocc'.
    + rewrite (py_int_whole _ _ Hdiff).
      rewrite <- Hrest, Hdiff in Hge.
      change 0%Q with (inject_Z 0) in Hge. rewrite <- Zle_Qle in Hge.
      rewrite Z.max_r by exact Hge. rewrite <- Hrest. symmetry. exact Hdiff.
  - (* node_recovery *)
    destruct (0 <? length (np_where (fun x => Qeq_bool x 0) (node_status s)))%nat;
      [|injection H as <- _ _; exact (unchanged_ok s _ HI Hev)].
    injection H as <- _ _.
    split; [|split; [repeat split | split; [reflexivity | exact Hev]]].
    eapply Inv_intro; [exact HI | repeat split | exact Hsteps | | reflexivity | | exact Hocc | exact Hsum];
      simpl.
    + apply length_insert.
    + apply Forall_insert; [exact Hst | right; reflexivity].
  - injection H as <- _ _. exact (unchanged_ok s _ HI Hev).
Qed.

Lemma Inv_reset (s s' : Env) (obs : list Q) :
  reset s = (s', inr obs) ->
  Inv s' /\ same_frame_cfg s s' /\ max_agents s' <> 0
  /\ steps s' = 0 /\ max_steps s' = 100 /\ current_event s' = no_event
  /\ num_agents s' = 0
  /\ _get_observation s' = inr obs.
Proof.
  unfold reset. destruct (Z.ltb_spec (num_nodes s) 0) as [|Hn]; [discriminate|].
  intros H. injection H as <- Hobs.
  assert (Hmax : max_agents s <> 0).
  { unfold _get_observation in Hobs. simpl in Hobs.
    destruct (Z.eqb_spec (max_agents s) 0); [discriminate | assumption]. }
  split; [|repeat split; try assumption].
  unfold Inv. simpl. rewrite !length_replicate.
  repeat split; try lia.
  - apply Forall_replicate. right. reflexivity.
  - apply Forall_replicate. split; [apply whole_0 | left; reflexivity].
  - rewrite Qsum_replicate_0. reflexivity.
Qed.

(** ** The shape of a call of [step] *)

Lemma get_observation_of (s : Env) :
  max_agents s <> 0 -> _get_observation s = inr (observation_of s).
Proof.
  intros H. unfold _get_observation.
  destruct (Z.eqb_spec (max_agents s) 0); [contradiction | reflexivity].
Qed.

Lemma get_observation_inr (s : Env) (obs : list Q) :
  _get_observation s = inr obs -> max_agents s <> 0 /\ obs = observation_of s.
Proof.
  unfold _get_observation.
  destruct (Z.eqb_spec (max_agents s) 0); [discriminate|].
  intros [= <-]. split; [assumption | reflexivity].
Qed.

Lemma step_raises_in_event (d : Draws) (action : Z) (s : Env) (e : Exception) :
  apply_event d action s = inl e -> step d action s = (s, inl e).
Proof. intros H. unfold step. rewrite H. reflexivity. Qed.

Lemma step_after_event (d : Draws) (action : Z) (s s1 : Env) (r : Q) (i : Info) :
  apply_event d action s = inr (s1, r, i) ->
  let s2 := set_steps (steps s1 + 1) s1 in
  let s3 := set_current_event (next_event d) s2 in
  (valid_distribution (event_probabilities s1) = false
   /\ step d action s = (s2, inl ValueError))
  \/ (valid_distribution (event_probabilities s1) = true
      /\ max_agents s1 = 0
      /\ step d action s = (s3, inl ZeroDivisionError))
  \/ (valid_distribution (event_probabilities s1) = true
      /\ max_agents s1 <> 0
      /\ step d action s
         = (s3, inr (mkStepResult (observation_of s3) r
                       (max_steps s1 <=? steps s1 + 1) false i))).
Proof.
  intros H s2 s3. unfold step. rewrite H. fold s2.
  unfold _generate_next_event. simpl event_probabilities.
  destruct (valid_distribution (event_probabilities s1)); [|left; tauto].
  right. fold s3. unfold _get_observation. simpl max_agents.
  destruct (Z.eqb_spec (max_agents s1) 0) as [E|E]; [left; tauto|].
  right. repeat split; try assumption.
Qed.

Lemma Inv_set_steps (s : Env) (n : Z) : Inv s -> 0 <= n -> Inv (set_steps n s).
Proof.
  intros HI Hn.
  pose proof HI as (_ & _ & _ & _ & Hst & Hocc & Hsum & _).
  eapply Inv_intro; [exact HI | repeat split | exact Hn | | | | | ]; simpl;
    try reflexivity; assumption.
Qed.

Lemma Inv_set_current_event (s : Env) (e : Event) :
  Inv s -> Inv (set_current_event e s).
Proof.
  intros HI.
  pose proof HI as (_ & _ & _ & _ & Hst & Hocc & Hsum & _ & Hsteps).
  eapply Inv_intro; [exact HI | repeat split | exact Hsteps | | | | | ]; simpl;
    try reflexivity; assumption.
Qed.

Lemma Inv_step (d : Draws) (action : Z) (s : Env) :
  Inv s -> Inv (fst (step d action s)) /\ same_frame s (fst (step d action s)).
Proof.
  intros HI.
  destruct (apply_event d action s) as [e|[[s1 r] i]] eqn:Hev.
  - rewrite (step_raises_in_event _ _ _ _ Hev). simpl.
    split; [exact HI | apply same_frame_refl].
  - destruct (Inv_after_event _ _ _ _ _ _ HI Hev) as (HI1 & Hfr & _ & _).
    assert (H2 : Inv (set_steps (steps s1 + 1) s1)).
    { apply Inv_set_steps; [exact HI1|].
      destruct HI1 as (_ & _ & _ & _ & _ & _ & _ & _ & Hs). lia. }
    destruct (step_after_event _ _ _ _ _ _ Hev) as [[_ ->]|[(_ & _ & ->)|(_ & _ & ->)]];
      simpl fst.
    + split; [exact H2 | exact Hfr].
    + split; [apply Inv_set_current_event, H2 | exact Hfr].
    + split; [apply Inv_set_current_event, H2 | exact Hfr].
Qed.

(** ** Reachable states *)

Lemma float32_below_overflow : float32_max + 2 ^ 74 < float_overflow.
Proof. apply Z.ltb_lt. vm_compute. reflexivity. Qed.

Lemma float32_rounding_margin : 0 < 2 ^ 74.
Proof. apply Z.ltb_lt. vm_compute. reflexivity. Qed.

(** The constructor returns exactly for a node count of at least 0 and
    a positive [max_agents] that is no [float32] overflow, and then
    returns the reset state. *)
Lemma init_inr_iff (c : Config) (s : Env) :
  __init__ c = inr s
  <-> 0 <= cfg_num_nodes c /\ 0 < cfg_max_agents c <= float32_max + 2 ^ 74
      /\ s = constructed c.
Proof.
  pose proof float32_below_overflow as Hle.
  set (margin := 2 ^ 74) in *.
  unfold __init__, Discrete, Box. fold (configured_probabilities c). fold margin.
  destruct (Z.leb_spec (cfg_num_nodes c + 1) 0).
  { split; [discriminate | intros (? & ? & _); lia]. }
  destruct (Z.leb_spec float_overflow (Z.abs (cfg_max_agents c))).
  { split; [discriminate | intros (? & ? & _); lia]. }
  destruct (Z.ltb_spec (float32_max + margin) (cfg_max_agents c)).
  { split; [discriminate | intros (? & ? & _); lia]. }
  destruct (Z.ltb_spec (cfg_max_agents c) 0).
  { split; [discriminate | intros (? & ? & _); lia]. }
  unfold reset. simpl num_nodes.
  destruct (Z.ltb_spec (cfg_num_nodes c) 0); [lia|].
  unfold _get_observation. simpl max_agents.
  destruct (Z.eqb_spec (cfg_max_agents c) 0).
  { split; [discriminate | intros (? & ? & _); lia]. }
  unfold constructed. split.
  - intros [= <-]. repeat split; lia.
  - intros (_ & _ & ->). reflexivity.
Qed.

Lemma constructed_reset (c : Config) :
  0 <= cfg_num_nodes c -> cfg_max_agents c <> 0 ->
  reset (mkEnv (cfg_num_nodes c) (cfg_num_services c) (cfg_max_agents c)
           (cfg_node_capacity c) (configured_probabilities c) [] [] [] 0 no_event 0 0)
  = (constructed c, inr (observation_of (constructed c))).
Proof.
  intros Hn Hm. unfold reset. simpl num_nodes.
  destruct (Z.ltb_spec (cfg_num_nodes c) 0); [lia|].
  unfold _get_observation. simpl max_agents.
  destruct (Z.eqb_spec (cfg_max_agents c) 0); [congruence | reflexivity].
Qed.

Lemma init_inr (c : Config) (s : Env) :
  __init__ c = inr s -> Inv s /\ configured c s /\ current_event s = no_event
                        /\ steps s = 0.
Proof.
  intros H. apply init_inr_iff in H as (Hn & Hm & ->).
  pose proof (constructed_reset c Hn ltac:(lia)) as Hr.
  apply Inv_reset in Hr as (HI & _).
  split; [exact HI|]. unfold configured, constructed. simpl.
  repeat split; lia.
Qed.

Lemma reachable_constructed (c : Config) (s : Env) :
  reachable c s -> __init__ c = inr (constructed c).
Proof.
  induction 1 as [s Hinit | s s' obs _ IH _ | s d action _ IH]; try exact IH.
  pose proof Hinit as H. apply init_inr_iff in H as (_ & _ & ->). exact Hinit.
Qed.

Lemma reachable_facts (c : Config) (s : Env) :
  reachable c s -> Inv s /\ configured c s.
Proof.
  induction 1 as [s Hinit | s s' obs _ [HI Hc] Hr | s d action _ [HI Hc]].
  - apply init_inr in Hinit. tauto.
  - apply Inv_reset in Hr as (HI' & (Fn & _ & Fm & Fc & Fp) & Hmax & _).
    split; [exact HI'|]. destruct Hc as (Cn & Cm & _ & Cc & Cp).
    repeat split; congruence.
  - destruct (Inv_step d action s HI) as (HI' & Fn & _ & Fm & Fc & Fp & _).
    split; [exact HI'|]. destruct Hc as (Cn & Cm & Cz & Cc & Cp).
    repeat split; congruence.
Qed.

Lemma reachable_run (c : Config) (script : list (Draws * Z)) (s : Env) :
  reachable c s -> reachable c (run script s).
Proof.
  revert s. induction script as [|[d a] script IH]; intros s H; simpl; [exact H|].
  apply IH. apply reach_step. exact H.
Qed.

(** ** The scenarios of the specification, evaluated *)

(** One node of capacity 1, an arrival, action 0 on the empty active node:
    reward +1, occupancy [1], one agent. *)
Example scenario_deploy_on_empty_node :
  let s := mkEnv 1 5 10 1 default_event_probabilities
             [1]%Q [0]%Q [1]%Q 0 agent_arrival 0 100 in
  match step (mkDraws 0 no_event) 0 s with
  | (s', inr res) =>
      reward res = 1%Q /\ node_occupancy s' = [1]%Q /\ num_agents s' = 1
  | (_, inl _) => False
  end.
Proof. vm_compute. repeat split. Qed.

(** The same node at capacity: reward -1, state unchanged. *)
Example scenario_deploy_on_full_node :
  let s := mkEnv 1 5 10 1 default_event_probabilities
             [1]%Q [1]%Q [1]%Q 1 agent_arrival 1 100 in
  match step (mkDraws 0 no_event) 0 s with
  | (s', inr res) =>
      reward res = (-1)%Q /\ node_status s' = [1]%Q
      /\ node_occupancy s' = [1]%Q /\ num_agents s' = 1
  | (_, inl _) => False
  end.
Proof. vm_compute. repeat split. Qed.

(** A failure of the only active node, which holds 3 agents: reward -6,
    status [0], occupancy [0], no agent. *)
Example scenario_failure_of_sole_node :
  let s := mkEnv 1 5 10 5 default_event_probabilities
             [1]%Q [3]%Q [5]%Q 3 node_failure 4 100 in
  match step (mkDraws 0 no_event) 0 s with
  | (s', inr res) =>
      (reward res == - (6))%Q /\ node_status s' = [0]%Q
      /\ node_occupancy s' = [0]%Q /\ num_agents s' = 0
  | (_, inl _) => False
  end.
Proof. vm_compute. repeat split. Qed.

(** ** Occupancy, capacity and status (C3) *)

Lemma event_zeroes_failed_node (d : Draws) (action : Z) (s s1 : Env) (r : Q)
    (i0 : Info) (i : nat) :
  Inv s -> apply_event d action s = inr (s1, r, i0) ->
  node_status s !! i = Some 1%Q -> node_status s1 !! i = Some 0%Q ->
  node_occupancy s1 !! i = Some 0%Q.
Proof.
  intros HI H H1 H0.
  assert (Hsame : node_status s1 = node_status s -> node_occupancy s1 !! i = Some 0%Q).
  { intros E. rewrite E, H1 in H0. discriminate. }
  pose proof HI as (_ & Hls & Hlo & _).
  unfold apply_event in H.
  destruct (current_event s).
  - destruct (action <? num_nodes s); [|injection H as <- _ _; auto].
    destruct (np_get (node_status s) action) as [st|]; [|discriminate].
    destruct (Qeq_bool st 1); [|injection H as <- _ _; auto].
    destruct (np_get (node_occupancy s) action) as [occ|]; [|discriminate].
    destruct (np_get (node_capacity s) action) as [cap|]; [|discriminate].
    destruct (Qltb occ cap); injection H as <- _ _; auto.
  - destruct (0 <? num_agents s); [|injection H as <- _ _; auto].
    destruct (0 <? length (np_where (Qltb 0) (node_occupancy s)))%nat;
      injection H as <- _ _; auto.
  - destruct (0 <? length (np_where (fun x => Qeq_bool x 1) (node_status s)))%nat eqn:Hne;
      [|injection H as <- _ _; auto].
    injection H as <- _ _. clear Hsame. simpl in *.
    pose proof (choice_In (pick d) _ Hne) as Hin.
    apply np_where_spec in Hin as [Hlt _].
    set (k := choice (pick d) (np_where (fun x => Qeq_bool x 1) (node_status s))) in *.
    destruct (decide (k = i)) as [<-|Hne'].
    + apply list_lookup_insert_eq. lia.
    + rewrite list_lookup_insert_ne in H0 by exact Hne'. congruence.
  - destruct (0 <? length (np_where (fun x => Qeq_bool x 0) (node_status s)))%nat;
      [|injection H as <- _ _; auto].
    injection H as <- _ _. clear Hsame. simpl in *.
    set (k := choice (pick d) (np_where (fun x => Qeq_bool x 0) (node_status s))) in *.
    destruct (decide (k = i)) as [<-|Hne'].
    + apply lookup_lt_Some in H1.
      rewrite list_lookup_insert_eq in H0 by exact H1. discriminate.
    + rewrite list_lookup_insert_ne in H0 by exact Hne'. congruence.
  - injection H as <- _ _. auto.
Qed.

(** C3, the code at the failing input.  The claim bounds every
    occupancy by the capacity of its node, and the code means to keep it
    (the capacity is its "max capacity per node", a refused deployment one
    on a node that is "down or full").  With the capacity 2.5 (a positive
    float, as the constructor takes) three deployments on node 0 are
    accepted, the third by the test [occupancy < capacity] at occupancy
    2 < 2.5, and leave the occupancy 3 above the capacity.  Every event of
    the script has positive probability. *)
Theorem occupancy_can_exceed_capacity :
  let c := mkConfig 3 5 10 (5 # 2) None in
  let script :=
    [(mkDraws 0 agent_arrival, 3); (mkDraws 0 agent_arrival, 0);
     (mkDraws 0 agent_arrival, 0); (mkDraws 0 no_event, 0)] in
  exists s0 : Env,
    __init__ c = inr s0
    /\ reachable c (run script s0)
    /\ Forall (fun da => drawable (event_probabilities s0) (next_event (fst da)) = true)
          script
    /\ node_occupancy (run script s0) = [3; 0; 0]%Q
    /\ node_capacity (run script s0) = [5 # 2; 5 # 2; 5 # 2]%Q
    /\ ~ (3 <= 5 # 2)%Q.
Proof.
  intros c script. eexists. split; [reflexivity|].
  split; [apply reachable_run, reach_init; reflexivity|].
  split; [repeat constructor|].
  split; [reflexivity|]. split; [reflexivity|].
  intros H. apply Qle_bool_iff in H. discriminate.
Qed.

(** X28.  In every reachable state [num_agents] is the sum of the
    occupancies; every occupancy is a whole number, at least 0, and
    either 0 or below capacity + 1, hence at most the capacity when the
    capacity is a non-negative whole number; every status is 0 or 1; and
    a step that turns a status from 1 to 0 leaves that node's occupancy
    at 0. *)
Theorem env_invariants (c : Config) (s : Env) :
  reachable c s ->
  (inject_Z (num_agents s) == Qsum (node_occupancy s))%Q
  /\ (forall (i : nat) (occ cap : Q),
        node_occupancy s !! i = Some occ -> node_capacity s !! i = Some cap ->
        whole occ /\ (0 <= occ)%Q
        /\ ((occ == 0)%Q \/ (occ < cap + 1)%Q)
        /\ (whole cap -> (occ <= cap)%Q))
  /\ (forall (i : nat) (st : Q),
        node_status s !! i = Some st -> st = 0%Q \/ st = 1%Q)
  /\ (forall (d : Draws) (action : Z) (i : nat),
        node_status s !! i = Some 1%Q ->
        node_status (fst (step d action s)) !! i = Some 0%Q ->
        node_occupancy (fst (step d action s)) !! i = Some 0%Q).
Proof.
  intros Hreach. destruct (reachable_facts c s Hreach) as [HI _].
  pose proof HI as (_ & _ & _ & _ & Hst & Hocc & Hsum & _).
  split; [exact Hsum|]. split; [|split].
  - intros i occ cap Ho Hc.
    apply (capacity_lookup s) in Hc; [|exact HI]. subst cap.
    destruct (Forall_lookup_1 _ _ _ _ Hocc Ho) as [Hw Hb].
    pose proof (whole_nonneg _ Hw) as Hge.
    repeat split; try assumption.
    intros Hcap. destruct Hb as [H0|Hlt].
    + rewrite H0. apply whole_nonneg, Hcap.
    + apply whole_lt_succ_le; assumption.
  - intros i st Hi. exact (Forall_lookup_1 _ _ _ _ Hst Hi).
  - intros d action i H1 H0.
    destruct (apply_event d action s) as [e|[[s1 r] i0]] eqn:Hev.
    + rewrite (step_raises_in_event _ _ _ _ Hev) in H0. simpl in H0.
      rewrite H1 in H0. discriminate.
    + pose proof (event_zeroes_failed_node d action s s1 r i0 i HI Hev H1) as Hz.
      destruct (step_after_event _ _ _ _ _ _ Hev)
        as [[_ Hs]|[(_ & _ & Hs)|(_ & _ & Hs)]];
        rewrite Hs in H0 |- *; simpl in H0 |- *; exact (Hz H0).
Qed.

(** X28 on the state two deployments on node 0 reach with capacity 2.5. *)
Lemma env_invariants_witness :
  let c := mkConfig 3 5 10 (5 # 2) None in
  let s := mkEnv 3 5 10 (5 # 2) default_event_probabilities
             [1; 1; 1]%Q [2; 0; 0]%Q [5 # 2; 5 # 2; 5 # 2]%Q 2 no_event 3 100 in
  reachable c s
  /\ (inject_Z (num_agents s) == Qsum (node_occupancy s))%Q
  /\ (forall (i : nat) (occ cap : Q),
        node_occupancy s !! i = Some occ -> node_capacity s !! i = Some cap ->
        whole occ /\ (0 <= occ)%Q
        /\ ((occ == 0)%Q \/ (occ < cap + 1)%Q)
        /\ (whole cap -> (occ <= cap)%Q))
  /\ (forall (i : nat) (st : Q),
        node_status s !! i = Some st -> st = 0%Q \/ st = 1%Q).
Proof.
  intros c s.
  assert (Hr : reachable c s).
  { assert (Hi : __init__ c
                 = inr (mkEnv 3 5 10 (5 # 2) default_event_probabilities
                          [1; 1; 1]%Q [0; 0; 0]%Q [5 # 2; 5 # 2; 5 # 2]%Q
                          0 no_event 0 100))
      by reflexivity.
    exact (reach_step _ _ (mkDraws 0 no_event) 0
             (reach_step _ _ (mkDraws 0 agent_arrival) 0
                (reach_step _ _ (mkDraws 0 agent_arrival) 3 (reach_init _ _ Hi)))). }
  split; [exact Hr|].
  pose proof (env_invariants c s Hr) as (Hsum & Hocc & Hst & _).
  split; [exact Hsum|]. split; [exact Hocc | exact Hst].
Defined.

(** ** Agent arrival (C4) *)

Lemma np_get_in_range (a : list Q) (i : Z) :
  0 <= i < Z.of_nat (length a) -> np_get a i = Some (at_ a (Z.to_nat i)).
Proof.
  intros H. unfold np_get. rewrite (np_index_in_range _ _ H). simpl.
  apply lookup_at. lia.
Qed.

Lemma apply_event_deploy (d : Draws) (action : Z) (s : Env) :
  Inv s -> current_event s = agent_arrival -> 0 <= action < num_nodes s ->
  let k := Z.to_nat action in
  apply_event d action s
  = if Qeq_bool (at_ (node_status s) k) 1 then
      if Qltb (at_ (node_occupancy s) k) (at_ (node_capacity s) k) then
        inr (set_num_agents (num_agents s + 1)
               (set_node_occupancy
                  (<[k := (at_ (node_occupancy s) k + 1)%Q]> (node_occupancy s)) s),
             1%Q, info_deployment_success)
      else inr (s, (-1)%Q, info_deployment_failed)
    else inr (s, (-1)%Q, info_deployment_failed).
Proof.
  intros (Hn & Hls & Hlo & Hcap & _) Hev Ha k.
  assert (Hlc : length (node_capacity s) = Z.to_nat (num_nodes s))
    by (rewrite Hcap; apply length_replicate).
  unfold apply_event. rewrite Hev.
  destruct (Z.ltb_spec action (num_nodes s)); [|lia].
  rewrite !np_get_in_range by lia. fold k.
  rewrite np_index_in_range by lia. reflexivity.
Qed.

(** C4.  On an agent arrival in a reachable state (with a valid event
    distribution, so that the call returns): for an action in
    [0, num_nodes) the reward is +1 exactly when the target node is active
    and its occupancy is below its capacity, and then that node's
    occupancy and [num_agents] grow by 1; otherwise the reward is -1 and
    [node_status], [node_occupancy] and [num_agents] are unchanged; for
    the action [num_nodes] the reward is -0.5 and the three are
    unchanged. *)
Theorem step_agent_arrival (c : Config) (s : Env) (d : Draws) (action : Z) :
  reachable c s ->
  valid_distribution (event_probabilities s) = true ->
  current_event s = agent_arrival ->
  (0 <= action < num_nodes s ->
   let k := Z.to_nat action in
   let deployable :=
     (at_ (node_status s) k == 1)%Q
     /\ (at_ (node_occupancy s) k < at_ (node_capacity s) k)%Q in
   exists (s' : Env) (res : StepResult),
     step d action s = (s', inr res)
     /\ (reward res = 1%Q <-> deployable)
     /\ (deployable ->
         reward res = 1%Q
         /\ node_occupancy s'
            = <[k := (at_ (node_occupancy s) k + 1)%Q]> (node_occupancy s)
         /\ num_agents s' = num_agents s + 1
         /\ node_status s' = node_status s)
     /\ (~ deployable ->
         reward res = (-1)%Q
         /\ node_status s' = node_status s
         /\ node_occupancy s' = node_occupancy s
         /\ num_agents s' = num_agents s))
  /\ (action = num_nodes s ->
      exists (s' : Env) (res : StepResult),
        step d action s = (s', inr res)
        /\ reward res = (- (1 # 2))%Q
        /\ node_status s' = node_status s
        /\ node_occupancy s' = node_occupancy s
        /\ num_agents s' = num_agents s).
Proof.
  intros Hreach Hvalid Hev.
  destruct (reachable_facts c s Hreach) as [HI (_ & _ & Hmax & _)].
  split.
  - intros Ha k deployable.
    pose proof (apply_event_deploy d action s HI Hev Ha) as Happ.
    cbv zeta in Happ. fold k in Happ.
    destruct (Qeq_bool (at_ (node_status s) k) 1) eqn:Hst;
      [destruct (Qltb (at_ (node_occupancy s) k) (at_ (node_capacity s) k)) eqn:Hlt|].
    + assert (Hd : deployable).
      { split; [apply Qeq_bool_iff, Hst | apply Qltb_lt, Hlt]. }
      destruct (step_after_event _ _ _ _ _ _ Happ)
        as [[Hv _]|[(_ & Hm & _)|(_ & _ & Hs)]]; simpl in *; [congruence | congruence|].
      eexists _, _. split; [exact Hs|]. simpl.
      split; [tauto|]. split; [auto | intros Hnd; contradiction].
    + assert (Hd : ~ deployable).
      { intros [_ Hd]. apply Qltb_lt in Hd. congruence. }
      destruct (step_after_event _ _ _ _ _ _ Happ)
        as [[Hv _]|[(_ & Hm & _)|(_ & _ & Hs)]]; simpl in *; [congruence | congruence|].
      eexists _, _. split; [exact Hs|]. simpl.
      split; [split; [discriminate | contradiction]|].
      split; [intros Hyes; contradiction | auto].
    + assert (Hd : ~ deployable).
      { intros [Hd _]. apply Qeq_bool_iff in Hd. congruence. }
      destruct (step_after_event _ _ _ _ _ _ Happ)
        as [[Hv _]|[(_ & Hm & _)|(_ & _ & Hs)]]; simpl in *; [congruence | congruence|].
      eexists _, _. split; [exact Hs|]. simpl.
      split; [split; [discriminate | contradiction]|].
      split; [intros Hyes; contradiction | auto].
  - intros ->.
    assert (Happ : apply_event d (num_nodes s) s
                   = inr (s, (- (1 # 2))%Q, info_deployment_rejected)).
    { unfold apply_event. rewrite Hev, Z.ltb_irrefl. reflexivity. }
    destruct (step_after_event _ _ _ _ _ _ Happ)
      as [[Hv _]|[(_ & Hm & _)|(_ & _ & Hs)]]; simpl in *; [congruence | congruence|].
    eexists _, _. split; [exact Hs|]. simpl. auto.
Qed.

(** C4 on the default environment after one step that drew an arrival:
    node 0 is active and empty. *)
Lemma step_agent_arrival_witness :
  let c := default_config in
  let s := mkEnv 3 5 10 5 default_event_probabilities
             [1; 1; 1]%Q [0; 0; 0]%Q [5; 5; 5]%Q 0 agent_arrival 1 100 in
  let d := mkDraws 0 no_event in
  reachable c s
  /\ valid_distribution (event_probabilities s) = true
  /\ current_event s = agent_arrival
  /\ exists (s' : Env) (res : StepResult),
       step d 0 s = (s', inr res) /\ reward res = 1%Q
       /\ node_occupancy s' = [1; 0; 0]%Q /\ num_agents s' = 1.
Proof.
  intros c s d.
  assert (Hr : reachable c s).
  { assert (Hi : __init__ c = inr (mkEnv 3 5 10 5 default_event_probabilities
                   [1; 1; 1]%Q [0; 0; 0]%Q [5; 5; 5]%Q 0 no_event 0 100))
      by reflexivity.
    exact (reach_step c _ (mkDraws 0 agent_arrival) 3 (reach_init c _ Hi)). }
  assert (Hv : valid_distribution (event_probabilities s) = true) by reflexivity.
  assert (He : current_event s = agent_arrival) by reflexivity.
  split; [exact Hr|]. split; [exact Hv|]. split; [exact He|].
  destruct (proj1 (step_agent_arrival c s d 0 Hr Hv He)) as (s' & res & Hs & _ & Hyes & _);
    [simpl; lia|].
  exists s', res. split; [exact Hs|].
  destruct Hyes as (Hrew & Hocc & Hna & _).
  { split; [reflexivity | reflexivity]. }
  split; [exact Hrew|]. split; [exact Hocc | exact Hna].
Defined.

(** ** Events other than an arrival (C7) *)

(** C7.  When the current event is not an agent arrival, [step] does
    the same for any two actions under the same draws: the same
    successor state and the same returned tuple (or exception). *)
Theorem step_ignores_action_off_arrival (s : Env) (d : Draws) (a1 a2 : Z) :
  current_event s <> agent_arrival -> step d a1 s = step d a2 s.
Proof.
  intros Hev. unfold step, apply_event.
  destruct (current_event s); [contradiction | reflexivity ..].
Qed.

(** C7 on a departure with two agents on node 1. *)
Lemma step_ignores_action_off_arrival_witness :
  let s := mkEnv 3 5 10 5 default_event_probabilities
             [1; 1; 1]%Q [0; 2; 0]%Q [5; 5; 5]%Q 2 agent_departure 7 100 in
  current_event s <> agent_arrival
  /\ step (mkDraws 4 node_failure) 0 s = step (mkDraws 4 node_failure) 3 s.
Proof.
  intros s.
  assert (He : current_event s <> agent_arrival) by (simpl; discriminate).
  split; [exact He|].
  exact (step_ignores_action_off_arrival s (mkDraws 4 node_failure) 0 3 He).
Defined.

(** ** The horizon (C8) *)

Lemma np_get_total (a : list Q) (i : Z) :
  - Z.of_nat (length a) <= i < Z.of_nat (length a) -> exists x, np_get a i = Some x.
Proof.
  intros H. unfold np_get.
  assert (Hk : exists k, np_index (length a) i = Some k).
  { unfold np_index.
    destruct (Z.leb_spec 0 i), (Z.ltb_spec i (Z.of_nat (length a))),
             (Z.ltb_spec i 0), (Z.leb_spec (- Z.of_nat (length a)) i);
      simpl; try lia; eauto. }
  destruct Hk as [k Hk]. rewrite Hk. simpl.
  apply lookup_lt_is_Some_2. eapply np_index_lt, Hk.
Qed.

Lemma apply_event_returns (d : Draws) (action : Z) (s : Env) :
  Inv s -> - num_nodes s <= action ->
  exists s1 r i, apply_event d action s = inr (s1, r, i).
Proof.
  intros (Hn & Hls & Hlo & Hcap & _) Ha.
  assert (Hlc : length (node_capacity s) = Z.to_nat (num_nodes s))
    by (rewrite Hcap; apply length_replicate).
  unfold apply_event. destruct (current_event s).
  - destruct (Z.ltb_spec action (num_nodes s)); [|eauto].
    destruct (np_get_total (node_status s) action) as [st ->]; [lia|].
    destruct (np_get_total (node_occupancy s) action) as [occ ->]; [lia|].
    destruct (np_get_total (node_capacity s) action) as [cap ->]; [lia|].
    destruct (Qeq_bool st 1); [|eauto]. destruct (Qltb occ cap); eauto.
  - destruct (0 <? num_agents s); [|eauto].
    destruct (0 <? length _)%nat; eauto.
  - destruct (0 <? length _)%nat; eauto.
  - destruct (0 <? length _)%nat; eauto.
  - eauto.
Qed.

Lemma step_counts (d : Draws) (action : Z) (s : Env) :
  Inv s -> steps s <= steps (fst (step d action s)) <= steps s + 1.
Proof.
  intros HI.
  destruct (apply_event d action s) as [e|[[s1 r] i]] eqn:Hev.
  - rewrite (step_raises_in_event _ _ _ _ Hev). simpl. lia.
  - destruct (Inv_after_event _ _ _ _ _ _ HI Hev) as (_ & _ & Hs & _).
    destruct (step_after_event _ _ _ _ _ _ Hev) as [[_ ->]|[(_ & _ & ->)|(_ & _ & ->)]];
      simpl; lia.
Qed.

Lemma run_counts (c : Config) (script : list (Draws * Z)) (s : Env) :
  reachable c s -> steps (run script s) <= steps s + Z.of_nat (length script).
Proof.
  revert s. induction script as [|[d a] script IH]; intros s Hr; simpl run.
  - simpl. lia.
  - specialize (IH _ (reach_step c s d a Hr)).
    pose proof (step_counts d a s (proj1 (reachable_facts c s Hr))).
    simpl length. lia.
Qed.

(** C8.  In every reachable state the horizon is 100.  [reset] puts the
    step counter at 0; a call of [step] that returns has advanced the
    counter by 1, returns [terminated] true exactly when the advanced
    counter is at least 100, and returns [truncated] false; so none of
    the first 99 calls after a [reset] reports termination, whatever the
    node and agent state.  With a valid event distribution and an action
    that is a valid index or a rejection the call does return. *)
Theorem episode_horizon (c : Config) (s : Env) :
  reachable c s ->
  max_steps s = 100
  /\ (forall (s0 : Env) (obs : list Q),
        reset s = (s0, inr obs) -> steps s0 = 0 /\ max_steps s0 = 100)
  /\ (forall (d : Draws) (action : Z) (s' : Env) (res : StepResult),
        step d action s = (s', inr res) ->
        steps s' = steps s + 1
        /\ (terminated res = true <-> 100 <= steps s')
        /\ truncated res = false)
  /\ (forall (s0 : Env) (obs : list Q) (script : list (Draws * Z))
         (d : Draws) (action : Z) (s' : Env) (res : StepResult),
        reset s = (s0, inr obs) -> (length script < 99)%nat ->
        step d action (run script s0) = (s', inr res) ->
        terminated res = false)
  /\ (forall (d : Draws) (action : Z),
        valid_distribution (event_probabilities s) = true ->
        - num_nodes s <= action ->
        exists (s' : Env) (res : StepResult), step d action s = (s', inr res)).
Proof.
  intros Hreach. destruct (reachable_facts c s Hreach) as [HI Hcfg].
  assert (Hstep : forall s (d : Draws) (action : Z) (s' : Env) (res : StepResult),
             Inv s -> step d action s = (s', inr res) ->
             steps s' = steps s + 1
             /\ (terminated res = true <-> 100 <= steps s')
             /\ truncated res = false).
  { clear. intros s d action s' res HI Hs.
    destruct (apply_event d action s) as [e|[[s1 r] i]] eqn:Hev.
    - rewrite (step_raises_in_event _ _ _ _ Hev) in Hs. discriminate.
    - destruct (Inv_after_event _ _ _ _ _ _ HI Hev)
        as (HI1 & (_ & _ & _ & _ & _ & _ & Fmax) & Hsteps & _).
      destruct HI as (_ & _ & _ & _ & _ & _ & _ & Hmax & _).
      destruct (step_after_event _ _ _ _ _ _ Hev)
        as [[_ Hs']|[(_ & _ & Hs')|(_ & _ & Hs')]];
        rewrite Hs' in Hs; try discriminate.
      injection Hs as <- <-. simpl. rewrite Fmax, Hmax, Hsteps.
      split; [reflexivity|]. split; [apply Z.leb_le | reflexivity]. }
  split; [destruct HI as (_ & _ & _ & _ & _ & _ & _ & Hmax & _); exact Hmax|].
  split; [|split; [|split]].
  - intros s0 obs Hr. apply Inv_reset in Hr. tauto.
  - intros d action s' res Hs. exact (Hstep s d action s' res HI Hs).
  - intros s0 obs script d action s' res Hr Hlen Hs.
    assert (Hr0 : reachable c s0) by (eapply reach_reset; eassumption).
    pose proof (run_counts c script s0 Hr0) as Hcount.
    apply Inv_reset in Hr as (_ & _ & _ & H0 & _).
    pose proof (reachable_run c script s0 Hr0) as Hrun.
    destruct (Hstep _ d action s' res (proj1 (reachable_facts _ _ Hrun)) Hs)
      as (Hinc & Hterm & _).
    destruct (terminated res); [|reflexivity].
    assert (100 <= steps s') by (apply Hterm; reflexivity). lia.
  - intros d action Hvalid Ha.
    destruct (apply_event_returns d action s HI Ha) as (s1 & r & i & Hev).
    destruct (Inv_after_event _ _ _ _ _ _ HI Hev)
      as (_ & (_ & _ & Fm & _ & Fp & _) & _).
    destruct Hcfg as (_ & _ & Hmax & _).
    destruct (step_after_event _ _ _ _ _ _ Hev)
      as [[Hv _]|[(_ & Hm & _)|(_ & _ & Hs)]]; [congruence | congruence | eauto].
Qed.

(** C8 on the default environment as constructed. *)
Lemma episode_horizon_witness :
  let s := mkEnv 3 5 10 5 default_event_probabilities
             [1; 1; 1]%Q [0; 0; 0]%Q [5; 5; 5]%Q 0 no_event 0 100 in
  reachable default_config s
  /\ max_steps s = 100
  /\ forall (d : Draws) (action : Z) (s' : Env) (res : StepResult),
       step d action s = (s', inr res) ->
       steps s' = steps s + 1
       /\ (terminated res = true <-> 100 <= steps s')
       /\ truncated res = false.
Proof.
  intros s.
  assert (Hr : reachable default_config s) by (apply reach_init; reflexivity).
  split; [exact Hr|].
  pose proof (episode_horizon default_config s Hr) as (Hmax & _ & Hstep & _).
  split; [exact Hmax | exact Hstep].
Defined.

(** ** Construction (C6) *)

(** C6, as stated, fails: the constructor returns an environment for a
    node count of 0, for a negative capacity, and for event
    probabilities that sum to 5. *)
Lemma malformed_configurations_construct :
  (exists s : Env, __init__ (mkConfig 0 5 10 5 None) = inr s)
  /\ (exists s : Env, __init__ (mkConfig 3 5 10 (- (1)) None) = inr s)
  /\ (exists s : Env,
        __init__ (mkConfig 3 5 10 5 (Some [1; 1; 1; 1; 1]%Q)) = inr s
        /\ valid_distribution (event_probabilities s) = false).
Proof.
  split; [|split]; eexists; [reflexivity | reflexivity |].
  split; reflexivity.
Qed.

(** C6, amended.  Construction fails for a negative node count and for
    a [max_agents] that is not positive; for a node count of at least 0
    and a positive [max_agents] (up to the largest [float32], the bound of
    the observation space) it returns the environment in its reset state,
    whatever the capacity and the event probabilities; an invalid
    probability vector is rejected by the calls of [step], which raise
    [ValueError] (or [IndexError], when the action is refused first). *)
Theorem construction_outcome (c : Config) :
  (cfg_num_nodes c < 0 \/ cfg_max_agents c <= 0 ->
   exists e : Exception, __init__ c = inl e)
  /\ (0 <= cfg_num_nodes c -> 0 < cfg_max_agents c <= float32_max ->
      __init__ c
      = inr (mkEnv (cfg_num_nodes c) (cfg_num_services c) (cfg_max_agents c)
               (cfg_node_capacity c) (configured_probabilities c)
               (replicate (Z.to_nat (cfg_num_nodes c)) 1%Q)
               (replicate (Z.to_nat (cfg_num_nodes c)) 0%Q)
               (replicate (Z.to_nat (cfg_num_nodes c)) (cfg_node_capacity c))
               0 no_event 0 100))
  /\ (forall (s : Env) (d : Draws) (action : Z),
        reachable c s ->
        valid_distribution (configured_probabilities c) = false ->
        snd (step d action s) = inl ValueError
        \/ snd (step d action s) = inl IndexError).
Proof.
  split; [|split].
  - intros H. destruct (__init__ c) as [e|s] eqn:E; [exists e; reflexivity|].
    apply init_inr_iff in E. lia.
  - intros Hn Hm. apply init_inr_iff.
    pose proof float32_rounding_margin. repeat split; lia.
  - intros s d action Hreach Hbad.
    destruct (reachable_facts c s Hreach) as [HI (_ & _ & _ & _ & Hp)].
    destruct (apply_event d action s) as [e|[[s1 r] i]] eqn:Hev.
    + rewrite (step_raises_in_event _ _ _ _ Hev). simpl. right.
      revert Hev. clear. unfold apply_event.
      destruct (current_event s).
      * destruct (action <? num_nodes s); [|discriminate].
        destruct (np_get (node_status s) action); [|congruence].
        destruct (Qeq_bool q 1); [|discriminate].
        destruct (np_get (node_occupancy s) action),
                 (np_get (node_capacity s) action); try congruence.
        destruct (Qltb q0 q1); discriminate.
      * destruct (0 <? num_agents s); [|discriminate].
        destruct (0 <? length _)%nat; discriminate.
      * destruct (0 <? length _)%nat; discriminate.
      * destruct (0 <? length _)%nat; discriminate.
      * discriminate.
    + destruct (Inv_after_event _ _ _ _ _ _ HI Hev)
        as (_ & (_ & _ & _ & _ & Fp & _) & _).
      destruct (step_after_event _ _ _ _ _ _ Hev)
        as [[_ ->]|[(Hv & _)|(Hv & _)]]; [left; reflexivity | congruence ..].
Qed.

(** The amended C6 on the default configuration. *)
Lemma construction_outcome_witness :
  0 <= cfg_num_nodes default_config
  /\ 0 < cfg_max_agents default_config <= float32_max
  /\ __init__ default_config
     = inr (mkEnv 3 5 10 5 default_event_probabilities
              [1; 1; 1]%Q [0; 0; 0]%Q [5; 5; 5]%Q 0 no_event 0 100).
Proof.
  assert (Hn : 0 <= cfg_num_nodes default_config) by (simpl; lia).
  assert (Hm : 0 < cfg_max_agents default_config <= float32_max)
    by (split; [simpl; lia | vm_compute; discriminate]).
  split; [exact Hn|]. split; [exact Hm|].
  exact (proj1 (proj2 (construction_outcome default_config)) Hn Hm).
Defined.

(** ** Observations (C5) *)

Lemma Forall_normalized (P R : Q -> Prop) (c : Q) (l : list Q) :
  (forall x, P x -> R (x / c)%Q) -> Forall P l ->
  Forall R (zipWith Qdiv l (replicate (length l) c)).
Proof.
  intros HPR. induction 1 as [|x l Hx _ IH]; simpl; constructor; auto.
Qed.

Lemma Qsum_le_bound (c : Q) (l : list Q) :
  Forall (fun x => (x <= c)%Q) l ->
  (Qsum l <= inject_Z (Z.of_nat (length l)) * c)%Q.
Proof.
  induction 1 as [|x l Hx _ IH].
  - simpl. change (0 <= 0 * c)%Q. lra.
  - change (x + Qsum l <= inject_Z (Z.of_nat (S (length l))) * c)%Q.
    rewrite Nat2Z.inj_succ. unfold Z.succ. rewrite inject_Z_plus.
    change (inject_Z 1) with 1%Q. lra.
Qed.

Lemma node_ok_le_capacity (cap occ : Q) :
  whole cap -> node_ok cap occ -> (occ <= cap)%Q.
Proof.
  intros Hc [Hw [H0|Hlt]].
  - rewrite H0. apply whole_nonneg, Hc.
  - apply whole_lt_succ_le; assumption.
Qed.

Lemma observation_ok_of (s : Env) : Inv s -> observation_ok s (observation_of s).
Proof.
  intros (Hn & Hls & Hlo & Hcap & Hst & Hocc & Hsum & _).
  assert (Hnonneg : Forall (fun x => (0 <= x)%Q) (node_occupancy s)).
  { eapply Forall_impl; [exact Hocc|]. intros x [Hx _]. apply whole_nonneg, Hx. }
  unfold observation_ok. cbv zeta. split; [reflexivity|].
  rewrite Hcap. rewrite <- Hlo.
  split; [|split; [|split; [|split]]].
  - unfold observation_of. rewrite Hcap, <- Hlo.
    rewrite !length_app, length_insert, length_replicate, Hls, <- Hlo.
    rewrite BufferProps.length_zipWith by (rewrite length_replicate; reflexivity).
    simpl. lia.
  - intros Hpos. apply (Forall_normalized (fun x => (0 <= x)%Q)); [|exact Hnonneg].
    intros x Hx. apply Qle_shift_div_l; [exact Hpos | lra].
  - intros Hpos Hw.
    apply (Forall_normalized (node_ok (default_node_capacity s))); [|exact Hocc].
    intros x Hx. apply Qle_shift_div_r; [exact Hpos|].
    pose proof (node_ok_le_capacity _ _ Hw Hx). lra.
  - intros Hm. apply Qle_shift_div_l.
    + change 0%Q with (inject_Z 0). rewrite <- Zlt_Qlt. exact Hm.
    + rewrite Hsum. pose proof (Qsum_nonneg _ Hnonneg). lra.
  - intros Hm Hw Hfit. apply Qle_shift_div_r.
    + change 0%Q with (inject_Z 0). rewrite <- Zlt_Qlt. exact Hm.
    + rewrite Hsum.
      assert (Hle : Forall (fun x => (x <= default_node_capacity s)%Q) (node_occupancy s)).
      { eapply Forall_impl; [exact Hocc|]. intros x Hx.
        apply node_ok_le_capacity; assumption. }
      apply Qsum_le_bound in Hle. rewrite Hlo, Z2Nat.id in Hle by exact Hn. lra.
Qed.

(** C5, as stated, fails on the default configuration (3 nodes of
    capacity 5, [max_agents] 10): eleven accepted deployments leave 11
    agents, and the observation returned by the eleventh ends with the
    entry 11/10, above 1. *)
Lemma normalized_agent_count_can_exceed_one :
  let arrive := mkDraws 0 agent_arrival in
  let script :=
    (arrive, 3) :: map (fun a => (arrive, a)) [0; 0; 0; 0; 0; 1; 1; 1; 1; 1] in
  exists (s0 s' : Env) (res : StepResult),
    __init__ default_config = inr s0
    /\ step (mkDraws 0 no_event) 2 (run script s0) = (s', inr res)
    /\ reachable default_config s'
    /\ num_agents s' = 11
    /\ last (observation res) = Some (11 # 10)%Q
    /\ ~ (11 # 10 <= 1)%Q.
Proof.
  intros arrive script.
  set (s0 := mkEnv 3 5 10 5 default_event_probabilities
               [1; 1; 1]%Q [0; 0; 0]%Q [5; 5; 5]%Q 0 no_event 0 100).
  exists s0, (fst (step (mkDraws 0 no_event) 2 (run script s0))). eexists.
  split; [reflexivity|].
  split; [vm_compute; reflexivity|].
  split; [apply reach_step, reachable_run, reach_init; reflexivity|].
  split; [reflexivity|]. split; [reflexivity|].
  intros H. apply Qle_bool_iff in H. discriminate.
Qed.

(** C5, amended.  Every observation returned by [reset] or [step] in a
    reachable state is the concatenation of the one-hot event type, the
    node statuses, the occupancies divided by the capacities and
    [num_agents / max_agents], of length
    [num_event_types + 2 * num_nodes + 1].  For a positive capacity the
    normalised occupancies are at least 0, and at most 1 when the
    capacity is a whole number; for a positive [max_agents] the
    normalised agent count is at least 0, and at most 1 when the
    capacity is a whole number and [num_nodes * capacity <= max_agents]. *)
Theorem observations_emitted (c : Config) (s : Env) :
  reachable c s ->
  (forall (s' : Env) (obs : list Q),
     reset s = (s', inr obs) -> observation_ok s' obs)
  /\ (forall (d : Draws) (action : Z) (s' : Env) (res : StepResult),
        step d action s = (s', inr res) -> observation_ok s' (observation res)).
Proof.
  intros Hreach. destruct (reachable_facts c s Hreach) as [HI _]. split.
  - intros s' obs Hr. apply Inv_reset in Hr as (HI' & _ & _ & _ & _ & _ & _ & Hobs).
    apply get_observation_inr in Hobs as [_ ->]. apply observation_ok_of, HI'.
  - intros d action s' res Hs.
    pose proof (Inv_step d action s HI) as [HI' _]. rewrite Hs in HI'. simpl in HI'.
    destruct (apply_event d action s) as [e|[[s1 r] i]] eqn:Hev.
    + rewrite (step_raises_in_event _ _ _ _ Hev) in Hs. discriminate.
    + destruct (step_after_event _ _ _ _ _ _ Hev)
        as [[_ Hs']|[(_ & _ & Hs')|(_ & _ & Hs')]];
        rewrite Hs' in Hs; try discriminate.
      injection Hs as <- <-. simpl observation.
      apply observation_ok_of. exact HI'.
Qed.

(** The amended C5 on the default environment: the observation returned
    by a [reset] has the 12 entries of the layout. *)
Lemma observations_emitted_witness :
  let s := mkEnv 3 5 10 5 default_event_probabilities
             [1; 1; 1]%Q [0; 0; 0]%Q [5; 5; 5]%Q 0 no_event 0 100 in
  reachable default_config s
  /\ forall (s' : Env) (obs : list Q),
       reset s = (s', inr obs) -> observation_ok s' obs.
Proof.
  intros s.
  assert (Hr : reachable default_config s) by (apply reach_init; reflexivity).
  split; [exact Hr|].
  exact (proj1 (observations_emitted default_config s Hr)).
Defined.

End EnvProps.

(** * Properties of the mini-batch losses *)

Module TrainerProps.

Import Num PPOTrainer.
Local Open Scope R_scope.

(** Linear arithmetic over the reals. *)
Local Ltac lra := Lra.lra.
Local Ltac nra := Lra.nra.

Lemma zipWith_map {A B C D} (f : B -> C -> D) (g : A -> B) (h : A -> C) (l : list A) :
  zipWith f (map g l) (map h l) = map (fun a => f (g a) (h a)) l.
Proof. induction l as [|a l IH]; simpl; [reflexivity | rewrite IH; reflexivity]. Qed.

Lemma clamp_above (x lo hi : R) : hi < x -> clamp x lo hi = hi.
Proof.
  intros H. unfold clamp. apply Rmin_right.
  pose proof (Rmax_l x lo). lra.
Qed.

Lemma clamp_below (x lo hi : R) : x < lo -> lo <= hi -> clamp x lo hi = lo.
Proof.
  intros H Hle. unfold clamp. rewrite Rmax_right by lra.
  apply Rmin_left. exact Hle.
Qed.

Section Batch.

Variables (self : Trainer) (batch : list Sample).

Let eps := clip_epsilon self.
Let log_probs := map new_log_prob batch.
Let batch_old_log_probs := map old_log_prob batch.
Let batch_advantages := map advantage batch.
Let values := map value batch.
Let batch_old_values := map old_value batch.
Let batch_returns := map return_ batch.
Let entropy := map sample_entropy batch.

Lemma ratio_per_sample :
  ratio log_probs batch_old_log_probs = map spec_ratio batch.
Proof.
  unfold ratio, log_probs, batch_old_log_probs.
  rewrite zipWith_map, List.map_map. reflexivity.
Qed.

Lemma surr1_per_sample :
  surr1 (ratio log_probs batch_old_log_probs) batch_advantages
  = map spec_unclipped batch.
Proof.
  rewrite ratio_per_sample. unfold surr1, batch_advantages.
  rewrite zipWith_map. reflexivity.
Qed.

Lemma surr2_per_sample :
  surr2 self (ratio log_probs batch_old_log_probs) batch_advantages
  = map (spec_clipped eps) batch.
Proof.
  rewrite ratio_per_sample. unfold surr2, batch_advantages.
  rewrite List.map_map, zipWith_map. reflexivity.
Qed.

Lemma surrogate_per_sample :
  surrogate self (ratio log_probs batch_old_log_probs) batch_advantages
  = map (fun s => Rmin (spec_unclipped s) (spec_clipped eps s)) batch.
Proof.
  unfold surrogate. rewrite surr1_per_sample, surr2_per_sample.
  rewrite zipWith_map. reflexivity.
Qed.

Lemma policy_loss_per_sample :
  policy_loss self log_probs batch_old_log_probs batch_advantages
  = spec_policy_loss eps batch.
Proof. unfold policy_loss. rewrite surrogate_per_sample. reflexivity. Qed.

Lemma value_loss_per_sample :
  value_loss self values batch_old_values batch_returns
  = spec_value_loss eps batch.
Proof.
  unfold value_loss, values_clipped, values, batch_old_values, batch_returns.
  rewrite !zipWith_map, !List.map_map, !zipWith_map, !List.map_map, !zipWith_map.
  reflexivity.
Qed.

End Batch.

Lemma exp_1_above_2 : 2 < exp (1 - 0).
Proof.
  replace (1 - 0) with 1 by lra.
  pose proof (exp_ineq1 1) as H. lra.
Qed.

(** C2, as stated, fails in its last sentence: with the ratio
    [exp(1) > 1.2] above the clip range and a negative advantage, the
    minimum of the two surrogates is the unclipped one, [-exp(1)], not
    the clipped one, [-1.2]. *)
Lemma ratio_outside_range_unclipped_branch :
  let self := mkTrainer (1 / 5) (1 / 2) (1 / 100) in
  let log_probs := [1] in
  let batch_old_log_probs := [0] in
  let batch_advantages := [-1] in
  Forall (fun r => r < 1 - clip_epsilon self \/ 1 + clip_epsilon self < r)
         (ratio log_probs batch_old_log_probs)
  /\ surrogate self (ratio log_probs batch_old_log_probs) batch_advantages
     <> surr2 self (ratio log_probs batch_old_log_probs) batch_advantages.
Proof.
  simpl. pose proof exp_1_above_2 as He. split.
  - constructor; [right; lra | constructor].
  - unfold surrogate, surr1, surr2. simpl.
    rewrite clamp_above by lra.
    intros [= H]. revert H. unfold Rmin.
    destruct (Rle_dec _ _) as [Hle|Hnle]; lra.
Qed.

(** C2, amended.  On every mini-batch the ratio of a sample is
    [exp(new_log_prob - old_log_prob)], the policy loss is
    [-mean(min(ratio * advantage, clamp(ratio, 1-eps, 1+eps) * advantage))],
    the value loss is the mean of the larger of the squared errors of
    the value and of the clipped value
    [old_value + clamp(value - old_value, -eps, eps)], the entropy loss
    is [-mean(entropy)] and the total is
    [policy_loss + value_coef * value_loss + entropy_coef * entropy_loss].
    The surrogate is the clipped branch on samples whose ratio is above
    [1+eps] with a non-negative advantage or below [1-eps] with a
    non-positive advantage; with the opposite signs it is the unclipped
    branch. *)
Theorem minibatch_losses (self : Trainer) (batch : list Sample) :
  let eps := clip_epsilon self in
  let log_probs := map new_log_prob batch in
  let batch_old_log_probs := map old_log_prob batch in
  let batch_advantages := map advantage batch in
  let values := map value batch in
  let batch_old_values := map old_value batch in
  let batch_returns := map return_ batch in
  let entropy := map sample_entropy batch in
  ratio log_probs batch_old_log_probs
  = map (fun s => exp (new_log_prob s - old_log_prob s)) batch
  /\ policy_loss self log_probs batch_old_log_probs batch_advantages
     = - mean (map (fun s => Rmin (spec_ratio s * advantage s)
                                  (clamp (spec_ratio s) (1 - eps) (1 + eps)
                                   * advantage s)) batch)
  /\ value_loss self values batch_old_values batch_returns
     = mean (map (fun s => Rmax ((value s - return_ s) ^ 2)
                                ((spec_clipped_value eps s - return_ s) ^ 2)) batch)
  /\ entropy_loss entropy = - mean (map sample_entropy batch)
  /\ loss self log_probs values entropy
          batch_old_log_probs batch_returns batch_advantages batch_old_values
     = spec_policy_loss eps batch
       + value_coef self * spec_value_loss eps batch
       + entropy_coef self * spec_entropy_loss batch
  /\ (0 <= eps ->
      Forall (fun s => (1 + eps < spec_ratio s /\ 0 <= advantage s)
                       \/ (spec_ratio s < 1 - eps /\ advantage s <= 0)) batch ->
      surrogate self (ratio log_probs batch_old_log_probs) batch_advantages
      = surr2 self (ratio log_probs batch_old_log_probs) batch_advantages)
  /\ (0 <= eps ->
      Forall (fun s => (1 + eps < spec_ratio s /\ advantage s <= 0)
                       \/ (spec_ratio s < 1 - eps /\ 0 <= advantage s)) batch ->
      surrogate self (ratio log_probs batch_old_log_probs) batch_advantages
      = surr1 (ratio log_probs batch_old_log_probs) batch_advantages).
Proof.
  intros eps log_probs batch_old_log_probs batch_advantages values
         batch_old_values batch_returns entropy.
  split; [apply ratio_per_sample|].
  split; [apply policy_loss_per_sample|].
  split; [apply value_loss_per_sample|].
  split; [reflexivity|].
  split.
  { unfold loss. unfold log_probs, batch_old_log_probs, batch_advantages, values,
      batch_old_values, batch_returns.
    rewrite policy_loss_per_sample, value_loss_per_sample. reflexivity. }
  split.
  - intros Heps Hall.
    unfold log_probs, batch_old_log_probs, batch_advantages.
    rewrite surrogate_per_sample, surr2_per_sample. fold eps.
    induction Hall as [|s l Hs _ IH]; simpl; [reflexivity|]. f_equal; [|exact IH].
    unfold spec_unclipped, spec_clipped.
    destruct Hs as [[Hr Ha]|[Hr Ha]].
    + rewrite clamp_above by exact Hr. apply Rmin_right. nra.
    + rewrite clamp_below by lra. apply Rmin_right. nra.
  - intros Heps Hall.
    unfold log_probs, batch_old_log_probs, batch_advantages.
    rewrite surrogate_per_sample, surr1_per_sample. fold eps.
    induction Hall as [|s l Hs _ IH]; simpl; [reflexivity|]. f_equal; [|exact IH].
    unfold spec_unclipped, spec_clipped.
    destruct Hs as [[Hr Ha]|[Hr Ha]].
    + rewrite clamp_above by exact Hr. apply Rmin_left. nra.
    + rewrite clamp_below by lra. apply Rmin_left. nra.
Qed.

(** The amended C2 on a one-sample batch with ratio [exp(1)] and
    advantage 1: the surrogate is the clipped branch. *)
Lemma minibatch_losses_witness :
  let self := mkTrainer (1 / 5) (1 / 2) (1 / 100) in
  let batch := [mkSample 1 0 1 0 0 0 0] in
  0 <= clip_epsilon self
  /\ Forall (fun s => (1 + clip_epsilon self < spec_ratio s /\ 0 <= advantage s)
                      \/ (spec_ratio s < 1 - clip_epsilon self /\ advantage s <= 0))
            batch
  /\ surrogate self (ratio (map new_log_prob batch) (map old_log_prob batch))
       (map advantage batch)
     = surr2 self (ratio (map new_log_prob batch) (map old_log_prob batch))
         (map advantage batch).
Proof.
  intros self batch.
  assert (Heps : 0 <= clip_epsilon self) by (simpl; lra).
  assert (Hall : Forall (fun s => (1 + clip_epsilon self < spec_ratio s
                                   /\ 0 <= advantage s)
                                  \/ (spec_ratio s < 1 - clip_epsilon self
                                      /\ advantage s <= 0)) batch).
  { constructor; [|constructor]. left. unfold spec_ratio. simpl.
    pose proof exp_1_above_2. lra. }
  split; [exact Heps|]. split; [exact Hall|].
  exact (proj1 (proj2 (proj2 (proj2 (proj2 (proj2 (minibatch_losses self batch))))))
           Heps Hall).
Defined.

End TrainerProps.

(** * Further behaviour of the environment *)

Module EnvBehaviour.

Import Num ServiceDeploymentEnv EnvProps.
Local Open Scope Z_scope.

(** ** Helper lemmas *)

Lemma reachable_services (c : Config) (s : Env) :
  reachable c s -> num_services s = cfg_num_services c.
Proof.
  induction 1 as [s Hinit | s s' obs Hr IH Hreset | s d action Hr IH].
  - apply init_inr_iff in Hinit as (_ & _ & ->). reflexivity.
  - apply Inv_reset in Hreset as (_ & (_ & Fs & _) & _). congruence.
  - destruct (Inv_step d action s (proj1 (reachable_facts c s Hr))) as (_ & _ & Fs & _).
    congruence.
Qed.

Lemma Qsum_pos_exists (l : list Q) :
  Forall (fun x => (0 <= x)%Q) l -> (0 < Qsum l)%Q ->
  exists k : nat, (k < length l)%nat /\ (0 < at_ l k)%Q.
Proof.
  induction 1 as [|x l Hx _ IH]; simpl; intros Hpos.
  - exfalso. revert Hpos. apply Qlt_irrefl.
  - change (0 < x + Qsum l)%Q in Hpos.
    destruct (Qlt_le_dec 0 x) as [Hx0|Hx0].
    + exists 0%nat. split; [lia | exact Hx0].
    + destruct IH as (k & Hk & Hat); [lra|].
      exists (S k). split; [lia | exact Hat].
Qed.

Lemma np_where_nonempty (cond : Q -> bool) (a : list Q) (k : nat) :
  (k < length a)%nat -> cond (at_ a k) = true ->
  (0 <? length (np_where cond a))%nat = true.
Proof.
  intros Hk Hc.
  assert (Hin : In k (np_where cond a)) by (apply np_where_spec; tauto).
  destruct (np_where cond a); [contradiction | reflexivity].
Qed.

Lemma np_where_empty (cond : Q -> bool) (a : list Q) :
  (0 <? length (np_where cond a))%nat = false ->
  forall k : nat, (k < length a)%nat -> cond (at_ a k) = false.
Proof.
  intros He k Hk. destruct (cond (at_ a k)) eqn:Hc; [|reflexivity].
  rewrite (np_where_nonempty cond a k Hk Hc) in He. discriminate.
Qed.

(** A call of [step] whose event handling succeeded returns, in a
    reachable state with a valid event distribution. *)
Lemma step_returns_after (c : Config) (d : Draws) (action : Z) (s s1 : Env)
    (r : Q) (i : Info) :
  reachable c s -> valid_distribution (event_probabilities s) = true ->
  apply_event d action s = inr (s1, r, i) ->
  let s' := set_current_event (next_event d) (set_steps (steps s + 1) s1) in
  step d action s
  = (s', inr (mkStepResult (observation_of s') r (100 <=? steps s + 1) false i)).
Proof.
  intros Hreach Hvalid Hev s'.
  destruct (reachable_facts c s Hreach) as [HI (_ & _ & Hmax & _)].
  destruct (Inv_after_event _ _ _ _ _ _ HI Hev)
    as (_ & (_ & _ & Fm & _ & Fp & _ & Fmax) & Hsteps & _).
  pose proof HI as (_ & _ & _ & _ & _ & _ & _ & Hms & _).
  destruct (step_after_event _ _ _ _ _ _ Hev)
    as [[Hv _]|[(_ & Hm & _)|(_ & _ & Hs)]]; [congruence | congruence|].
  rewrite Hs. unfold s'. rewrite Hsteps, Fmax, Hms. reflexivity.
Qed.

(** The state [reset] assigns. *)
Lemma reset_state (s s' : Env) (obs : list Q) :
  reset s = (s', inr obs) ->
  s' = mkEnv (num_nodes s) (num_services s) (max_agents s)
         (default_node_capacity s) (event_probabilities s)
         (replicate (Z.to_nat (num_nodes s)) 1%Q)
         (replicate (Z.to_nat (num_nodes s)) 0%Q)
         (replicate (Z.to_nat (num_nodes s)) (default_node_capacity s))
         0 no_event 0 100
  /\ obs = observation_of s'.
Proof.
  unfold reset. destruct (num_nodes s <? 0); [discriminate|].
  intros H. injection H as <- Hobs. split; [reflexivity|].
  apply get_observation_inr in Hobs. tauto.
Qed.

Lemma failed_nodes_empty_reset (s s' : Env) (obs : list Q) :
  reset s = (s', inr obs) -> failed_nodes_empty s'.
Proof.
  intros H. apply reset_state in H as [-> _]. intros i occ Hst _. simpl in Hst.
  apply lookup_replicate in Hst as [Hst _]. discriminate.
Qed.

Lemma failed_nodes_empty_event (d : Draws) (action : Z) (s s1 : Env) (r : Q) (i0 : Info) :
  Inv s -> failed_nodes_empty s -> apply_event d action s = inr (s1, r, i0) ->
  failed_nodes_empty s1.
Proof.
  intros HI HF H.
  pose proof HI as (_ & Hls & Hlo & _).
  unfold apply_event in H.
  destruct (current_event s).
  - destruct (action <? num_nodes s); [|injection H as <- _ _; exact HF].
    destruct (np_get (node_status s) action) as [st|] eqn:Hst_get; [|discriminate].
    destruct (Qeq_bool st 1) eqn:Hst1; [|injection H as <- _ _; exact HF].
    destruct (np_get (node_occupancy s) action) as [occ|] eqn:Hocc_get; [|discriminate].
    destruct (np_get (node_capacity s) action) as [cap|]; [|discriminate].
    destruct (Qltb occ cap); injection H as <- _ _; [|exact HF].
    apply np_get_Some in Hst_get as (k' & Hk' & Hstk).
    apply np_get_Some in Hocc_get as (k & Hk & Hocck).
    rewrite Hk. simpl default.
    assert (k' = k) by (rewrite Hls, <- Hlo in Hk'; congruence). subst k'.
    intros i o Hi Ho. simpl in Hi, Ho.
    destruct (decide (k = i)) as [<-|Hne].
    + rewrite Hstk in Hi. injection Hi as ->. discriminate.
    + rewrite list_lookup_insert_ne in Ho by exact Hne. exact (HF i o Hi Ho).
  - destruct (0 <? num_agents s); [|injection H as <- _ _; exact HF].
    destruct (0 <? length (np_where (Qltb 0) (node_occupancy s)))%nat eqn:Hne;
      injection H as <- _ _; [|exact HF].
    pose proof (choice_In (pick d) _ Hne) as Hin.
    apply np_where_spec in Hin as [Hlt Hpos]. apply Qltb_lt in Hpos.
    set (k := choice (pick d) (np_where (Qltb 0) (node_occupancy s))) in *.
    intros i o Hi Ho. simpl in Hi, Ho.
    destruct (decide (k = i)) as [<-|Hne'].
    + pose proof (HF k _ Hi (lookup_at _ _ Hlt)) as H0. rewrite H0 in Hpos.
      exfalso. revert Hpos. apply Qlt_irrefl.
    + rewrite list_lookup_insert_ne in Ho by exact Hne'. exact (HF i o Hi Ho).
  - destruct (0 <? length (np_where (fun x => Qeq_bool x 1) (node_status s)))%nat eqn:Hne;
      injection H as <- _ _; [|exact HF].
    pose proof (choice_In (pick d) _ Hne) as Hin.
    apply np_where_spec in Hin as [Hlt _].
    set (k := choice (pick d) (np_where (fun x => Qeq_bool x 1) (node_status s))) in *.
    intros i o Hi Ho. simpl in Hi, Ho.
    destruct (decide (k = i)) as [<-|Hne'].
    + rewrite list_lookup_insert_eq in Ho by lia. injection Ho as <-. reflexivity.
    + rewrite list_lookup_insert_ne in Hi, Ho by exact Hne'. exact (HF i o Hi Ho).
  - destruct (0 <? length (np_where (fun x => Qeq_bool x 0) (node_status s)))%nat;
      injection H as <- _ _; [|exact HF].
    set (k := choice (pick d) (np_where (fun x => Qeq_bool x 0) (node_status s))) in *.
    intros i o Hi Ho. simpl in Hi, Ho.
    destruct (decide (k = i)) as [<-|Hne'].
    + apply lookup_lt_Some in Ho.
      rewrite list_lookup_insert_eq in Hi by lia. discriminate.
    + rewrite list_lookup_insert_ne in Hi by exact Hne'. exact (HF i o Hi Ho).
  - injection H as <- _ _. exact HF.
Qed.

Lemma reachable_failed_nodes_empty (c : Config) (s : Env) :
  reachable c s -> failed_nodes_empty s.
Proof.
  induction 1 as [s Hinit | s s' obs Hr IH Hreset | s d action Hr IH].
  - apply init_inr_iff in Hinit as (Hn & Hm & ->).
    exact (failed_nodes_empty_reset _ _ _ (constructed_reset c Hn ltac:(lia))).
  - exact (failed_nodes_empty_reset _ _ _ Hreset).
  - destruct (reachable_facts c s Hr) as [HI _].
    destruct (apply_event d action s) as [e|[[s1 r] i0]] eqn:Hev.
    + rewrite (step_raises_in_event _ _ _ _ Hev). exact IH.
    + pose proof (failed_nodes_empty_event _ _ _ _ _ _ HI IH Hev) as HF.
      destruct (step_after_event _ _ _ _ _ _ Hev)
        as [[_ ->]|[(_ & _ & ->)|(_ & _ & ->)]]; exact HF.
Qed.

(** X1.  In every reachable state the nodes whose status is 0 (failed)
    have occupancy 0. *)
Theorem failed_nodes_hold_no_service (c : Config) (s : Env) :
  reachable c s -> failed_nodes_empty s.
Proof. exact (reachable_failed_nodes_empty c s). Qed.

(** X1 on the default environment after a failure of node 0. *)
Lemma failed_nodes_hold_no_service_witness :
  let s := mkEnv 3 5 10 5 default_event_probabilities
             [0; 1; 1]%Q [0; 0; 0]%Q [5; 5; 5]%Q 0 no_event 2 100 in
  reachable default_config s /\ failed_nodes_empty s.
Proof.
  intros s.
  assert (Hr : reachable default_config s).
  { assert (Hi : __init__ default_config
                 = inr (mkEnv 3 5 10 5 default_event_probabilities
                          [1; 1; 1]%Q [0; 0; 0]%Q [5; 5; 5]%Q 0 no_event 0 100))
      by reflexivity.
    exact (reach_step _ _ (mkDraws 0 no_event) 0
             (reach_step _ _ (mkDraws 0 node_failure) 0 (reach_init _ _ Hi))). }
  split; [exact Hr|]. exact (failed_nodes_hold_no_service default_config s Hr).
Defined.

(** ** Departure, failure and recovery *)

Lemma status_is_one (st : Q) : st = 0%Q \/ st = 1%Q -> Qeq_bool st 1 = true -> st = 1%Q.
Proof. intros [->| ->] H; [discriminate | reflexivity]. Qed.

Lemma status_is_zero (st : Q) : st = 0%Q \/ st = 1%Q -> Qeq_bool st 0 = true -> st = 0%Q.
Proof. intros [->| ->] H; [reflexivity | discriminate]. Qed.

Lemma whole_pos_ge_1 (x : Q) : whole x -> (0 < x)%Q -> (1 <= x)%Q.
Proof.
  intros (z & _ & Hx) Hpos. rewrite Hx in *.
  change 0%Q with (inject_Z 0) in Hpos. rewrite <- Zlt_Qlt in Hpos.
  change 1%Q with (inject_Z 1). rewrite <- Zle_Qle. lia.
Qed.

Lemma reachable_agents_nonneg (c : Config) (s : Env) :
  reachable c s -> 0 <= num_agents s.
Proof.
  intros Hr. destruct (reachable_facts c s Hr) as [(_ & _ & _ & _ & _ & Hocc & Hsum & _) _].
  assert (H : (0 <= Qsum (node_occupancy s))%Q).
  { apply Qsum_nonneg. eapply Forall_impl; [exact Hocc|].
    intros x [Hx _]. apply whole_nonneg, Hx. }
  rewrite <- Hsum in H. change 0%Q with (inject_Z 0) in H.
  rewrite <- Zle_Qle in H. exact H.
Qed.

(** X2.  On an agent departure in a reachable state (valid event
    distribution) the call returns reward 0 and leaves the statuses alone.
    With no agent nothing changes.  With at least one agent some node
    holding at least one service loses exactly one, and [num_agents] drops
    by one: the inner guard on occupied nodes never fails. *)
Theorem step_agent_departure (c : Config) (s : Env) (d : Draws) (action : Z) :
  reachable c s ->
  valid_distribution (event_probabilities s) = true ->
  current_event s = agent_departure ->
  exists (s' : Env) (res : StepResult),
    step d action s = (s', inr res)
    /\ reward res = 0%Q
    /\ node_status s' = node_status s
    /\ ((num_agents s = 0
         /\ node_occupancy s' = node_occupancy s /\ num_agents s' = 0)
        \/ (0 < num_agents s
            /\ exists (k : nat) (o : Q),
                 node_occupancy s !! k = Some o /\ (1 <= o)%Q
                 /\ node_occupancy s' = <[k := (o - 1)%Q]> (node_occupancy s)
                 /\ num_agents s' = num_agents s - 1)).
Proof.
  intros Hreach Hvalid Hev.
  destruct (reachable_facts c s Hreach) as [HI _].
  pose proof HI as (_ & _ & _ & _ & _ & Hocc & Hsum & _).
  pose proof (reachable_agents_nonneg c s Hreach) as Hna.
  destruct (Z.ltb_spec 0 (num_agents s)) as [Hpos|Hzero].
  - assert (Hne : (0 <? length (np_where (Qltb 0) (node_occupancy s)))%nat = true).
    { destruct (Qsum_pos_exists (node_occupancy s)) as (k & Hk & Hat).
      - eapply Forall_impl; [exact Hocc|]. intros x [Hx _]. apply whole_nonneg, Hx.
      - rewrite <- Hsum. change 0%Q with (inject_Z 0). rewrite <- Zlt_Qlt. exact Hpos.
      - apply (np_where_nonempty _ _ k Hk). apply Qltb_lt, Hat. }
    pose proof (choice_In (pick d) _ Hne) as Hin.
    apply np_where_spec in Hin as [Hlt Hgt]. apply Qltb_lt in Hgt.
    set (k := choice (pick d) (np_where (Qltb 0) (node_occupancy s))) in *.
    pose proof (lookup_at _ _ Hlt) as Hk.
    destruct (Forall_lookup_1 _ _ _ _ Hocc Hk) as [Hw _].
    assert (Happ : apply_event d action s
                   = inr (set_num_agents (num_agents s - 1)
                            (set_node_occupancy
                               (<[k := (at_ (node_occupancy s) k - 1)%Q]>
                                  (node_occupancy s)) s), 0%Q, info_empty)).
    { unfold apply_event. rewrite Hev.
      destruct (Z.ltb_spec 0 (num_agents s)); [|lia]. rewrite Hne. reflexivity. }
    eexists _, _. split; [exact (step_returns_after c _ _ _ _ _ _ Hreach Hvalid Happ)|].
    simpl. split; [reflexivity|]. split; [reflexivity|]. right.
    split; [exact Hpos|]. exists k, (at_ (node_occupancy s) k).
    split; [exact Hk|]. split; [apply whole_pos_ge_1; assumption|].
    split; reflexivity.
  - assert (Happ : apply_event d action s = inr (s, 0%Q, info_empty)).
    { unfold apply_event. rewrite Hev.
      destruct (Z.ltb_spec 0 (num_agents s)); [lia | reflexivity]. }
    eexists _, _. split; [exact (step_returns_after c _ _ _ _ _ _ Hreach Hvalid Happ)|].
    simpl. split; [reflexivity|]. split; [reflexivity|]. left.
    assert (num_agents s = 0) by lia. tauto.
Qed.

(** X2 on the default environment holding two agents on node 1. *)
Lemma step_agent_departure_witness :
  let arrive := mkDraws 0 agent_arrival in
  let script := [(arrive, 3); (arrive, 1); (mkDraws 0 agent_departure, 1)] in
  let s := mkEnv 3 5 10 5 default_event_probabilities
             [1; 1; 1]%Q [0; 2; 0]%Q [5; 5; 5]%Q 2 agent_departure 3 100 in
  reachable default_config s
  /\ valid_distribution (event_probabilities s) = true
  /\ current_event s = agent_departure
  /\ exists (s' : Env) (res : StepResult),
       step (mkDraws 7 no_event) 0 s = (s', inr res)
       /\ reward res = 0%Q /\ node_status s' = node_status s.
Proof.
  intros arrive script s.
  assert (Hr : reachable default_config s).
  { assert (Hi : __init__ default_config
                 = inr (mkEnv 3 5 10 5 default_event_probabilities
                          [1; 1; 1]%Q [0; 0; 0]%Q [5; 5; 5]%Q 0 no_event 0 100))
      by reflexivity.
    exact (reachable_run default_config script _ (reach_init _ _ Hi)). }
  assert (Hv : valid_distribution (event_probabilities s) = true) by reflexivity.
  assert (He : current_event s = agent_departure) by reflexivity.
  split; [exact Hr|]. split; [exact Hv|]. split; [exact He|].
  destruct (step_agent_departure default_config s (mkDraws 7 no_event) 0 Hr Hv He)
    as (s' & res & Hs & Hrew & Hst & _).
  exists s', res. split; [exact Hs|]. split; [exact Hrew | exact Hst].
Defined.

(** X3.  On a node failure in a reachable state (valid event
    distribution) the call returns.  With no active node nothing changes
    and the reward is 0.  Otherwise one active node [k] gets status 0 and
    occupancy 0, [num_agents] drops by exactly the occupancy [o] it held
    (the clamp at 0 never binds) and the reward is [-2 * o]. *)
Theorem step_node_failure (c : Config) (s : Env) (d : Draws) (action : Z) :
  reachable c s ->
  valid_distribution (event_probabilities s) = true ->
  current_event s = node_failure ->
  exists (s' : Env) (res : StepResult),
    step d action s = (s', inr res)
    /\ ((Forall (fun st => st = 0%Q) (node_status s)
         /\ reward res = 0%Q
         /\ node_status s' = node_status s
         /\ node_occupancy s' = node_occupancy s
         /\ num_agents s' = num_agents s)
        \/ (exists (k : nat) (o : Q),
              node_status s !! k = Some 1%Q
              /\ node_occupancy s !! k = Some o
              /\ node_status s' = <[k := 0%Q]> (node_status s)
              /\ node_occupancy s' = <[k := 0%Q]> (node_occupancy s)
              /\ (inject_Z (num_agents s') == inject_Z (num_agents s) - o)%Q
              /\ reward res = (- (2) * o)%Q)).
Proof.
  intros Hreach Hvalid Hev.
  destruct (reachable_facts c s Hreach) as [HI _].
  pose proof HI as (_ & Hls & Hlo & _ & Hst & _ & Hsum & _).
  destruct (0 <? length (np_where (fun x => Qeq_bool x 1) (node_status s)))%nat eqn:Hne.
  - pose proof (choice_In (pick d) _ Hne) as Hin.
    apply np_where_spec in Hin as [Hlt Hone].
    set (k := choice (pick d) (np_where (fun x => Qeq_bool x 1) (node_status s))) in *.
    pose proof (lookup_at _ _ Hlt) as Hk.
    apply status_is_one in Hone; [|exact (Forall_lookup_1 _ _ _ _ Hst Hk)].
    rewrite Hone in Hk.
    assert (Hlt' : (k < length (node_occupancy s))%nat) by lia.
    pose proof (lookup_at _ _ Hlt') as Hko.
    destruct (apply_event d action s) as [e|[[s1 r] i]] eqn:Happ.
    { unfold apply_event in Happ. rewrite Hev, Hne in Happ. discriminate. }
    pose proof (step_returns_after c _ _ _ _ _ _ Hreach Hvalid Happ) as Hs.
    pose proof (Inv_step d action s HI) as [HI' _]. rewrite Hs in HI'. simpl fst in HI'.
    destruct HI' as (_ & _ & _ & _ & _ & _ & Hsum' & _).
    unfold apply_event in Happ. rewrite Hev, Hne in Happ. fold k in Happ.
    injection Happ as <- <- <-.
    eexists _, _. split; [exact Hs|]. right.
    exists k, (at_ (node_occupancy s) k). simpl in Hsum' |- *.
    split; [exact Hk|]. split; [exact Hko|].
    split; [reflexivity|]. split; [reflexivity|]. split; [|reflexivity].
    rewrite Hsum', (Qsum_insert _ _ _ _ Hko), Hsum. ring.
  - pose proof (np_where_empty _ _ Hne) as Hnone.
    assert (Happ : apply_event d action s = inr (s, 0%Q, info_empty)).
    { unfold apply_event. rewrite Hev, Hne. reflexivity. }
    eexists _, _. split; [exact (step_returns_after c _ _ _ _ _ _ Hreach Hvalid Happ)|].
    left. simpl. split; [|repeat split].
    apply Forall_lookup_2. intros i st Hi.
    pose proof (lookup_lt_Some _ _ _ Hi) as Hlt.
    specialize (Hnone i Hlt). rewrite (at_lookup _ _ _ Hi) in Hnone.
    destruct (Forall_lookup_1 _ _ _ _ Hst Hi) as [->| ->]; [reflexivity | discriminate].
Qed.

(** X3 on the default environment holding three agents on node 0. *)
Lemma step_node_failure_witness :
  let arrive := mkDraws 0 agent_arrival in
  let script := [(arrive, 3); (arrive, 0); (arrive, 0); (mkDraws 0 node_failure, 0)] in
  let s := mkEnv 3 5 10 5 default_event_probabilities
             [1; 1; 1]%Q [3; 0; 0]%Q [5; 5; 5]%Q 3 node_failure 4 100 in
  reachable default_config s
  /\ valid_distribution (event_probabilities s) = true
  /\ current_event s = node_failure
  /\ exists (s' : Env) (res : StepResult),
       step (mkDraws 0 no_event) 0 s = (s', inr res).
Proof.
  intros arrive script s.
  assert (Hr : reachable default_config s).
  { assert (Hi : __init__ default_config
                 = inr (mkEnv 3 5 10 5 default_event_probabilities
                          [1; 1; 1]%Q [0; 0; 0]%Q [5; 5; 5]%Q 0 no_event 0 100))
      by reflexivity.
    exact (reachable_run default_config script _ (reach_init _ _ Hi)). }
  assert (Hv : valid_distribution (event_probabilities s) = true) by reflexivity.
  assert (He : current_event s = node_failure) by reflexivity.
  split; [exact Hr|]. split; [exact Hv|]. split; [exact He|].
  destruct (step_node_failure default_config s (mkDraws 0 no_event) 0 Hr Hv He)
    as (s' & res & Hs & _).
  exists s', res. exact Hs.
Defined.

(** X4.  On a node recovery in a reachable state (valid event
    distribution) the call returns and leaves occupancies and [num_agents]
    alone.  With no failed node nothing changes and the reward is 0.
    Otherwise one failed node gets status 1, the reward is 0.5, and the
    recovered node is empty. *)
Theorem step_node_recovery (c : Config) (s : Env) (d : Draws) (action : Z) :
  reachable c s ->
  valid_distribution (event_probabilities s) = true ->
  current_event s = node_recovery ->
  exists (s' : Env) (res : StepResult),
    step d action s = (s', inr res)
    /\ node_occupancy s' = node_occupancy s
    /\ num_agents s' = num_agents s
    /\ ((Forall (fun st => st = 1%Q) (node_status s)
         /\ reward res = 0%Q /\ node_status s' = node_status s)
        \/ (exists (k : nat) (o : Q),
              node_status s !! k = Some 0%Q
              /\ node_status s' = <[k := 1%Q]> (node_status s)
              /\ reward res = (1 # 2)%Q
              /\ node_occupancy s !! k = Some o /\ (o == 0)%Q)).
Proof.
  intros Hreach Hvalid Hev.
  destruct (reachable_facts c s Hreach) as [HI _].
  pose proof HI as (_ & Hls & Hlo & _ & Hst & _).
  destruct (0 <? length (np_where (fun x => Qeq_bool x 0) (node_status s)))%nat eqn:Hne.
  - pose proof (choice_In (pick d) _ Hne) as Hin.
    apply np_where_spec in Hin as [Hlt Hzero].
    set (k := choice (pick d) (np_where (fun x => Qeq_bool x 0) (node_status s))) in *.
    pose proof (lookup_at _ _ Hlt) as Hk.
    apply status_is_zero in Hzero; [|exact (Forall_lookup_1 _ _ _ _ Hst Hk)].
    rewrite Hzero in Hk.
    assert (Hlt' : (k < length (node_occupancy s))%nat) by lia.
    pose proof (lookup_at _ _ Hlt') as Hko.
    assert (Happ : apply_event d action s
                   = inr (set_node_status (<[k := 1%Q]> (node_status s)) s,
                          (1 # 2)%Q, info_node_recovery k)).
    { unfold apply_event. rewrite Hev, Hne. reflexivity. }
    eexists _, _. split; [exact (step_returns_after c _ _ _ _ _ _ Hreach Hvalid Happ)|].
    simpl. split; [reflexivity|]. split; [reflexivity|]. right.
    exists k, (at_ (node_occupancy s) k).
    split; [exact Hk|]. split; [reflexivity|]. split; [reflexivity|].
    split; [exact Hko|].
    exact (reachable_failed_nodes_empty c s Hreach k _ Hk Hko).
  - pose proof (np_where_empty _ _ Hne) as Hnone.
    assert (Happ : apply_event d action s = inr (s, 0%Q, info_empty)).
    { unfold apply_event. rewrite Hev, Hne. reflexivity. }
    eexists _, _. split; [exact (step_returns_after c _ _ _ _ _ _ Hreach Hvalid Happ)|].
    simpl. split; [reflexivity|]. split; [reflexivity|]. left.
    split; [|split; reflexivity].
    apply Forall_lookup_2. intros i st Hi.
    pose proof (lookup_lt_Some _ _ _ Hi) as Hlt.
    specialize (Hnone i Hlt). rewrite (at_lookup _ _ _ Hi) in Hnone.
    destruct (Forall_lookup_1 _ _ _ _ Hst Hi) as [->| ->]; [discriminate | reflexivity].
Qed.

(** X4 on the default environment with node 0 failed. *)
Lemma step_node_recovery_witness :
  let script := [(mkDraws 0 node_failure, 0); (mkDraws 0 node_recovery, 0)] in
  let s := mkEnv 3 5 10 5 default_event_probabilities
             [0; 1; 1]%Q [0; 0; 0]%Q [5; 5; 5]%Q 0 node_recovery 2 100 in
  reachable default_config s
  /\ valid_distribution (event_probabilities s) = true
  /\ current_event s = node_recovery
  /\ exists (s' : Env) (res : StepResult),
       step (mkDraws 0 no_event) 0 s = (s', inr res)
       /\ node_occupancy s' = node_occupancy s.
Proof.
  intros script s.
  assert (Hr : reachable default_config s).
  { assert (Hi : __init__ default_config
                 = inr (mkEnv 3 5 10 5 default_event_probabilities
                          [1; 1; 1]%Q [0; 0; 0]%Q [5; 5; 5]%Q 0 no_event 0 100))
      by reflexivity.
    exact (reachable_run default_config script _ (reach_init _ _ Hi)). }
  assert (Hv : valid_distribution (event_probabilities s) = true) by reflexivity.
  assert (He : current_event s = node_recovery) by reflexivity.
  split; [exact Hr|]. split; [exact Hv|]. split; [exact He|].
  destruct (step_node_recovery default_config s (mkDraws 0 no_event) 0 Hr Hv He)
    as (s' & res & Hs & Hocc & _).
  exists s', res. split; [exact Hs | exact Hocc].
Defined.

(** ** Actions outside [0, num_nodes] *)

Lemma np_index_wrap (len : nat) (i : Z) :
  - Z.of_nat len <= i < 0 -> np_index len i = np_index len (i + Z.of_nat len).
Proof.
  intros H. unfold np_index.
  destruct (Z.leb_spec 0 i), (Z.ltb_spec i 0), (Z.leb_spec (- Z.of_nat len) i),
           (Z.leb_spec 0 (i + Z.of_nat len)),
           (Z.ltb_spec (i + Z.of_nat len) (Z.of_nat len)); simpl; try lia.
  f_equal. lia.
Qed.

Lemma np_get_wrap (a : list Q) (i : Z) :
  - Z.of_nat (length a) <= i < 0 -> np_get a i = np_get a (i + Z.of_nat (length a)).
Proof. intros H. unfold np_get. rewrite (np_index_wrap _ _ H). reflexivity. Qed.

Lemma np_get_below (a : list Q) (i : Z) : i < - Z.of_nat (length a) -> np_get a i = None.
Proof.
  intros H. unfold np_get, np_index.
  destruct (Z.leb_spec 0 i), (Z.leb_spec (- Z.of_nat (length a)) i); simpl; try lia;
    rewrite ?andb_false_r; reflexivity.
Qed.

(** X5.  In a reachable state an action in [-num_nodes, 0) addresses the
    node arrays from the end: [step] does for it what it does for
    [action + num_nodes] (on an arrival, a deployment attempt on that
    node). *)
Theorem negative_action_wraps (c : Config) (s : Env) (d : Draws) (action : Z) :
  reachable c s -> - num_nodes s <= action < 0 ->
  step d action s = step d (action + num_nodes s) s.
Proof.
  intros Hreach Ha.
  destruct (reachable_facts c s Hreach) as [(Hn & Hls & Hlo & Hcap & _) _].
  assert (Hlc : length (node_capacity s) = Z.to_nat (num_nodes s))
    by (rewrite Hcap; apply length_replicate).
  assert (Happ : apply_event d action s = apply_event d (action + num_nodes s) s).
  { unfold apply_event. destruct (current_event s); try reflexivity.
    destruct (Z.ltb_spec action (num_nodes s)),
             (Z.ltb_spec (action + num_nodes s) (num_nodes s)); try lia.
    rewrite (np_get_wrap (node_status s)), (np_get_wrap (node_occupancy s)),
            (np_get_wrap (node_capacity s)), (np_index_wrap (length (node_occupancy s)))
      by lia.
    rewrite Hls, Hlo, Hlc, Z2Nat.id by exact Hn. reflexivity. }
  unfold step. rewrite Happ. reflexivity.
Qed.

(** X5 on the default environment: action -1 is node 2. *)
Lemma negative_action_wraps_witness :
  let s := mkEnv 3 5 10 5 default_event_probabilities
             [1; 1; 1]%Q [0; 0; 0]%Q [5; 5; 5]%Q 0 agent_arrival 1 100 in
  reachable default_config s /\ - num_nodes s <= -1 < 0
  /\ step (mkDraws 0 no_event) (-1) s = step (mkDraws 0 no_event) (-1 + num_nodes s) s.
Proof.
  intros s.
  assert (Hr : reachable default_config s).
  { assert (Hi : __init__ default_config
                 = inr (mkEnv 3 5 10 5 default_event_probabilities
                          [1; 1; 1]%Q [0; 0; 0]%Q [5; 5; 5]%Q 0 no_event 0 100))
      by reflexivity.
    exact (reach_step _ _ (mkDraws 0 agent_arrival) 3 (reach_init _ _ Hi)). }
  assert (Ha : - num_nodes s <= -1 < 0) by (simpl; lia).
  split; [exact Hr|]. split; [exact Ha|].
  exact (negative_action_wraps default_config s (mkDraws 0 no_event) (-1) Hr Ha).
Defined.

(** X6.  On an arrival in a reachable state, an action below [-num_nodes]
    makes [step] raise [IndexError] with the environment unchanged (not
    even the step counter moves), and every action from [num_nodes] up is
    the rejection. *)
Theorem arrival_action_out_of_range (c : Config) (s : Env) (d : Draws) (action : Z) :
  reachable c s -> current_event s = agent_arrival ->
  (action < - num_nodes s -> step d action s = (s, inl IndexError))
  /\ (num_nodes s <= action -> step d action s = step d (num_nodes s) s).
Proof.
  intros Hreach Hev.
  destruct (reachable_facts c s Hreach) as [(Hn & Hls & _) _].
  split; intros Ha.
  - apply step_raises_in_event. unfold apply_event. rewrite Hev.
    destruct (Z.ltb_spec action (num_nodes s)); [|lia].
    rewrite np_get_below by lia. reflexivity.
  - unfold step, apply_event. rewrite Hev.
    destruct (Z.ltb_spec action (num_nodes s)); [lia|].
    rewrite Z.ltb_irrefl. reflexivity.
Qed.

(** X6 on the default environment: action -4 raises. *)
Lemma arrival_action_out_of_range_witness :
  let s := mkEnv 3 5 10 5 default_event_probabilities
             [1; 1; 1]%Q [0; 0; 0]%Q [5; 5; 5]%Q 0 agent_arrival 1 100 in
  reachable default_config s /\ current_event s = agent_arrival
  /\ -4 < - num_nodes s
  /\ step (mkDraws 0 no_event) (-4) s = (s, inl IndexError).
Proof.
  intros s.
  assert (Hr : reachable default_config s).
  { assert (Hi : __init__ default_config
                 = inr (mkEnv 3 5 10 5 default_event_probabilities
                          [1; 1; 1]%Q [0; 0; 0]%Q [5; 5; 5]%Q 0 no_event 0 100))
      by reflexivity.
    exact (reach_step _ _ (mkDraws 0 agent_arrival) 3 (reach_init _ _ Hi)). }
  assert (He : current_event s = agent_arrival) by reflexivity.
  assert (Ha : -4 < - num_nodes s) by (simpl; lia).
  split; [exact Hr|]. split; [exact He|]. split; [exact Ha|].
  exact (proj1 (arrival_action_out_of_range default_config s (mkDraws 0 no_event) (-4) Hr He)
           Ha).
Defined.

(** ** Reset, rewards and counts *)

Lemma reachable_reset (c : Config) (s : Env) :
  reachable c s ->
  exists s0 : Env,
    __init__ c = inr s0 /\ reset s = (s0, inr (observation_of s0)).
Proof.
  intros Hreach.
  destruct (reachable_facts c s Hreach) as [(Hn & _) (Cn & Cm & Hmax & Cc & Cp)].
  pose proof (reachable_services c s Hreach) as Cs.
  exists (constructed c).
  split.
  - exact (reachable_constructed c s Hreach).
  - unfold constructed, reset. destruct (Z.ltb_spec (num_nodes s) 0); [lia|].
    rewrite Cn, Cs, Cm, Cc, Cp. f_equal.
    apply get_observation_of. simpl. congruence.
Qed.

(** X7.  In every reachable state [reset] returns, and it puts the
    environment back into the state the constructor built, emitting that
    state's observation: nothing of the episode survives a reset. *)
Theorem reset_restores_constructed_state (c : Config) (s : Env) :
  reachable c s ->
  exists s0 : Env,
    __init__ c = inr s0 /\ reset s = (s0, inr (observation_of s0)).
Proof. exact (reachable_reset c s). Qed.

(** X7 on the default environment in the middle of an episode. *)
Lemma reset_restores_constructed_state_witness :
  let s := mkEnv 3 5 10 5 default_event_probabilities
             [1; 1; 1]%Q [1; 0; 0]%Q [5; 5; 5]%Q 1 no_event 2 100 in
  reachable default_config s
  /\ exists s0 : Env,
       __init__ default_config = inr s0 /\ reset s = (s0, inr (observation_of s0)).
Proof.
  intros s.
  assert (Hr : reachable default_config s).
  { assert (Hi : __init__ default_config
                 = inr (mkEnv 3 5 10 5 default_event_probabilities
                          [1; 1; 1]%Q [0; 0; 0]%Q [5; 5; 5]%Q 0 no_event 0 100))
      by reflexivity.
    exact (reach_step _ _ (mkDraws 0 no_event) 0
             (reach_step _ _ (mkDraws 0 agent_arrival) 3 (reach_init _ _ Hi))). }
  split; [exact Hr|]. exact (reset_restores_constructed_state default_config s Hr).
Defined.

Lemma event_reward_bounds (d : Draws) (action : Z) (s s1 : Env) (r : Q) (i : Info) :
  Inv s -> apply_event d action s = inr (s1, r, i) ->
  (r <= 1)%Q
  /\ (whole (default_node_capacity s) -> (1 <= default_node_capacity s)%Q ->
      (- (2) * default_node_capacity s <= r)%Q).
Proof.
  intros HI H.
  pose proof HI as (_ & Hls & Hlo & _ & _ & Hocc & _).
  unfold apply_event in H.
  destruct (current_event s).
  - destruct (action <? num_nodes s); [|injection H as _ <- _; split; intros; lra].
    destruct (np_get (node_status s) action); [|discriminate].
    destruct (Qeq_bool q 1); [|injection H as _ <- _; split; intros; lra].
    destruct (np_get (node_occupancy s) action), (np_get (node_capacity s) action);
      try discriminate.
    destruct (Qltb q0 q1); injection H as _ <- _; split; intros; lra.
  - destruct (0 <? num_agents s); [|injection H as _ <- _; split; intros; lra].
    destruct (0 <? length _)%nat; injection H as _ <- _; split; intros; lra.
  - destruct (0 <? length (np_where (fun x => Qeq_bool x 1) (node_status s)))%nat eqn:Hne;
      [|injection H as _ <- _; split; intros; lra].
    injection H as _ <- _. simpl.
    pose proof (choice_In (pick d) _ Hne) as Hin.
    apply np_where_spec in Hin as [Hlt _].
    set (k := choice (pick d) (np_where (fun x => Qeq_bool x 1) (node_status s))) in *.
    assert (Hlt' : (k < length (node_occupancy s))%nat) by lia.
    pose proof (Forall_lookup_1 _ _ _ _ Hocc (lookup_at _ _ Hlt')) as Hok.
    pose proof (whole_nonneg _ (proj1 Hok)) as Hge.
    split; [lra|]. intros Hw _.
    pose proof (node_ok_le_capacity _ _ Hw Hok). lra.
  - destruct (0 <? length _)%nat; injection H as _ <- _; split; intros; lra.
  - injection H as _ <- _. split; intros; lra.
Qed.

(** X8.  Every reward [step] returns in a reachable state is at most 1;
    when the capacity is a whole number of at least 1 it is at least
    [-2 * capacity]. *)
Theorem step_reward_bounds (c : Config) (s s' : Env) (d : Draws) (action : Z)
    (res : StepResult) :
  reachable c s -> step d action s = (s', inr res) ->
  (reward res <= 1)%Q
  /\ (whole (default_node_capacity s) -> (1 <= default_node_capacity s)%Q ->
      (- (2) * default_node_capacity s <= reward res)%Q).
Proof.
  intros Hreach Hs. destruct (reachable_facts c s Hreach) as [HI _].
  destruct (apply_event d action s) as [e|[[s1 r] i]] eqn:Hev.
  - rewrite (step_raises_in_event _ _ _ _ Hev) in Hs. discriminate.
  - destruct (step_after_event _ _ _ _ _ _ Hev) as [[_ Hs']|[(_ & _ & Hs')|(_ & _ & Hs')]];
      rewrite Hs' in Hs; try discriminate.
    injection Hs as _ <-. simpl. exact (event_reward_bounds _ _ _ _ _ _ HI Hev).
Qed.

(** X8 on the failure of a node of the default environment holding 3 agents. *)
Lemma step_reward_bounds_witness :
  let arrive := mkDraws 0 agent_arrival in
  let script := [(arrive, 3); (arrive, 0); (arrive, 0); (mkDraws 0 node_failure, 0)] in
  let s := mkEnv 3 5 10 5 default_event_probabilities
             [1; 1; 1]%Q [3; 0; 0]%Q [5; 5; 5]%Q 3 node_failure 4 100 in
  let s' := mkEnv 3 5 10 5 default_event_probabilities
              [0; 1; 1]%Q [0; 0; 0]%Q [5; 5; 5]%Q 0 no_event 5 100 in
  let res := mkStepResult (observation_of s') (- (2) * 3)%Q false false
               (info_node_failure 0) in
  reachable default_config s
  /\ step (mkDraws 0 no_event) 0 s = (s', inr res)
  /\ (reward res <= 1)%Q.
Proof.
  intros arrive script s s' res.
  assert (Hr : reachable default_config s).
  { assert (Hi : __init__ default_config
                 = inr (mkEnv 3 5 10 5 default_event_probabilities
                          [1; 1; 1]%Q [0; 0; 0]%Q [5; 5; 5]%Q 0 no_event 0 100))
      by reflexivity.
    exact (reachable_run default_config script _ (reach_init _ _ Hi)). }
  assert (Hs : step (mkDraws 0 no_event) 0 s = (s', inr res)) by reflexivity.
  split; [exact Hr|]. split; [exact Hs|].
  exact (proj1 (step_reward_bounds default_config s s' (mkDraws 0 no_event) 0 res Hr Hs)).
Defined.

(** X9.  In every reachable state [num_agents] is at least 0, and at
    most [num_nodes * capacity] when the capacity is a whole number
    ([max_agents] plays no part). *)
Theorem num_agents_bounds (c : Config) (s : Env) :
  reachable c s ->
  0 <= num_agents s
  /\ (whole (default_node_capacity s) ->
      (inject_Z (num_agents s) <= inject_Z (num_nodes s) * default_node_capacity s)%Q).
Proof.
  intros Hreach. split; [exact (reachable_agents_nonneg c s Hreach)|].
  intros Hw.
  destruct (reachable_facts c s Hreach) as [(Hn & _ & Hlo & _ & _ & Hocc & Hsum & _) _].
  assert (Hle : Forall (fun x => (x <= default_node_capacity s)%Q) (node_occupancy s)).
  { eapply Forall_impl; [exact Hocc|]. intros x Hx.
    apply node_ok_le_capacity; assumption. }
  apply Qsum_le_bound in Hle. rewrite Hlo, Z2Nat.id in Hle by exact Hn.
  rewrite Hsum. exact Hle.
Qed.

(** X9 on the default environment as constructed. *)
Lemma num_agents_bounds_witness :
  let s := mkEnv 3 5 10 5 default_event_probabilities
             [1; 1; 1]%Q [0; 0; 0]%Q [5; 5; 5]%Q 0 no_event 0 100 in
  reachable default_config s /\ 0 <= num_agents s.
Proof.
  intros s.
  assert (Hr : reachable default_config s) by (apply reach_init; reflexivity).
  split; [exact Hr|]. exact (proj1 (num_agents_bounds default_config s Hr)).
Defined.

(** ** The length of an episode *)

Lemma step_advances (c : Config) (s : Env) (d : Draws) (action : Z) :
  reachable c s -> valid_distribution (event_probabilities s) = true ->
  - num_nodes s <= action ->
  exists (s' : Env) (res : StepResult),
    step d action s = (s', inr res)
    /\ steps s' = steps s + 1
    /\ terminated res = (100 <=? steps s + 1)
    /\ truncated res = false
    /\ num_nodes s' = num_nodes s
    /\ event_probabilities s' = event_probabilities s.
Proof.
  intros Hreach Hvalid Ha.
  destruct (reachable_facts c s Hreach) as [HI _].
  destruct (apply_event_returns d action s HI Ha) as (s1 & r & i & Hev).
  destruct (Inv_after_event _ _ _ _ _ _ HI Hev) as (_ & (Fn & _ & _ & _ & Fp & _) & _).
  eexists _, _. split; [exact (step_returns_after c _ _ _ _ _ _ Hreach Hvalid Hev)|].
  simpl. repeat split; assumption.
Qed.

Lemma run_advances (c : Config) (script : list (Draws * Z)) (s : Env) :
  reachable c s -> valid_distribution (event_probabilities s) = true ->
  Forall (fun da => - num_nodes s <= snd da) script ->
  steps (run script s) = steps s + Z.of_nat (length script)
  /\ num_nodes (run script s) = num_nodes s
  /\ event_probabilities (run script s) = event_probabilities s.
Proof.
  revert s. induction script as [|[d a] script IH]; intros s Hr Hv Hall.
  - simpl. repeat split. lia.
  - inversion Hall as [|? ? Ha Hall']; subst. simpl in Ha.
    destruct (step_advances c s d a Hr Hv Ha) as (s' & res & Hs & Hst & _ & _ & Hn & Hp).
    simpl run. rewrite Hs. simpl fst.
    destruct (IH s') as (IH1 & IH2 & IH3).
    + pose proof (reach_step c s d a Hr) as Hr'. rewrite Hs in Hr'. exact Hr'.
    + rewrite Hp. exact Hv.
    + rewrite Hn. exact Hall'.
    + rewrite IH1, IH2, IH3, Hst, Hn, Hp. simpl length. repeat split. lia.
Qed.

(** X10.  After a [reset], with a valid event distribution and actions
    that are all at least [-num_nodes], every call of [step] returns and
    the call number [n] returns [terminated] true exactly when [n >= 100]:
    an episode lasts exactly 100 steps. *)
Theorem episode_lasts_100_steps (c : Config) (s s0 : Env) (obs : list Q)
    (script : list (Draws * Z)) (d : Draws) (action : Z) :
  reachable c s -> reset s = (s0, inr obs) ->
  valid_distribution (event_probabilities s) = true ->
  Forall (fun da => - num_nodes s <= snd da) script ->
  - num_nodes s <= action ->
  exists (s' : Env) (res : StepResult),
    step d action (run script s0) = (s', inr res)
    /\ steps s' = Z.of_nat (length script) + 1
    /\ (terminated res = true <-> (99 <= length script)%nat).
Proof.
  intros Hreach Hreset Hvalid Hall Ha.
  assert (Hr0 : reachable c s0) by (eapply reach_reset; eassumption).
  pose proof (reset_state _ _ _ Hreset) as [Hs0 _].
  assert (Hn0 : num_nodes s0 = num_nodes s) by (rewrite Hs0; reflexivity).
  assert (Hp0 : event_probabilities s0 = event_probabilities s)
    by (rewrite Hs0; reflexivity).
  assert (Hst0 : steps s0 = 0) by (rewrite Hs0; reflexivity).
  destruct (run_advances c script s0 Hr0) as (Hsteps & Hn & Hp).
  { rewrite Hp0. exact Hvalid. }
  { rewrite Hn0. exact Hall. }
  destruct (step_advances c (run script s0) d action) as (s' & res & Hs & Hst & Hterm & _).
  { apply reachable_run, Hr0. }
  { rewrite Hp, Hp0. exact Hvalid. }
  { rewrite Hn, Hn0. exact Ha. }
  exists s', res. split; [exact Hs|].
  rewrite Hst, Hsteps, Hst0. split; [lia|].
  rewrite Hterm, Hsteps, Hst0. rewrite Z.leb_le. lia.
Qed.

(** X10 on the default environment: the first call after a reset. *)
Lemma episode_lasts_100_steps_witness :
  let s := mkEnv 3 5 10 5 default_event_probabilities
             [1; 1; 1]%Q [0; 0; 0]%Q [5; 5; 5]%Q 0 no_event 0 100 in
  reachable default_config s
  /\ reset s = (s, inr (observation_of s))
  /\ valid_distribution (event_probabilities s) = true
  /\ exists (s' : Env) (res : StepResult),
       step (mkDraws 0 agent_arrival) 3 (run [] s) = (s', inr res)
       /\ steps s' = Z.of_nat (length (@nil (Draws * Z))) + 1
       /\ (terminated res = true <-> (99 <= length (@nil (Draws * Z)))%nat).
Proof.
  intros s.
  assert (Hr : reachable default_config s) by (apply reach_init; reflexivity).
  assert (Hreset : reset s = (s, inr (observation_of s))) by reflexivity.
  assert (Hv : valid_distribution (event_probabilities s) = true) by reflexivity.
  split; [exact Hr|]. split; [exact Hreset|]. split; [exact Hv|].
  apply (episode_lasts_100_steps default_config s s (observation_of s) []
           (mkDraws 0 agent_arrival) 3 Hr Hreset Hv).
  - constructor.
  - simpl. lia.
Defined.

End EnvBehaviour.

(** * Further behaviour of the rollout buffer *)

Module BufferBehaviour.

Import Num RolloutBuffer BufferProps.
Local Open Scope Q_scope.

(** ** [add] and [get] *)

Lemma add_all_fields (ts : list Transition) (b : Buffer) :
  states (add_all ts b) = states b ++ map t_state ts
  /\ actions (add_all ts b) = actions b ++ map t_action ts
  /\ rewards (add_all ts b) = rewards b ++ map t_reward ts
  /\ log_probs (add_all ts b) = log_probs b ++ map t_log_prob ts
  /\ values (add_all ts b) = values b ++ map t_value ts
  /\ dones (add_all ts b) = dones b ++ map t_done ts.
Proof.
  revert b. induction ts as [|t ts IH]; intros b; simpl.
  - rewrite !app_nil_r. repeat split.
  - destruct (IH (add (t_state t) (t_action t) (t_reward t) (t_log_prob t)
                    (t_value t) (t_done t) b)) as (H1 & H2 & H3 & H4 & H5 & H6).
    unfold add_all in *. simpl in *. rewrite H1, H2, H3, H4, H5, H6.
    rewrite <- !app_assoc. repeat split.
Qed.

(** X11.  [add] appends: after adding the transitions [ts] to a buffer,
    [get] returns the five stored sequences followed by the states,
    actions, rewards, log-probabilities and values of [ts] in the order
    they were added, and the length has grown by the number of additions. *)
Theorem get_after_adds (b : Buffer) (ts : list Transition) :
  snd (get (add_all ts b))
  = (states b ++ map t_state ts, actions b ++ map t_action ts,
     map value_of (rewards b ++ map t_reward ts), log_probs b ++ map t_log_prob ts,
     values b ++ map t_value ts)
  /\ __len__ (add_all ts b) = (__len__ b + length ts)%nat
  /\ snd (get (add_all ts (clear b)))
     = (map t_state ts, map t_action ts, map value_of (map t_reward ts),
        map t_log_prob ts, map t_value ts).
Proof.
  destruct (add_all_fields ts b) as (H1 & H2 & H3 & H4 & H5 & _).
  destruct (add_all_fields ts (clear b)) as (C1 & C2 & C3 & C4 & C5 & _).
  split; [|split].
  - unfold get. simpl. rewrite H1, H2, H3, H4, H5. reflexivity.
  - unfold __len__. rewrite H1, length_app, length_map. reflexivity.
  - unfold get. simpl snd. rewrite C1, C2, C3, C4, C5. reflexivity.
Qed.

(** ** Generalised advantage estimation *)

(** X12.  With float rewards a transition stored with [done] true is
    cut off from what follows it in the buffer: its advantage is
    [reward - value] and its return is its reward, whatever the later
    transitions are. *)
Theorem gae_at_done (gamma gae_lambda : Q) (b : Buffer) (t : nat) :
  rewards_dtype b = float64 ->
  length (values b) = length (rewards b) ->
  (t < length (rewards b))%nat ->
  dones b !! t = Some true ->
  at_ (advantages_of gamma gae_lambda b) t == reward_at b t - at_ (values b) t
  /\ at_ (returns_of gamma gae_lambda b) t == reward_at b t.
Proof.
  intros Hf Hv Ht Hd.
  destruct (gae_recurrence gamma gae_lambda b Hf) as [_ Hrec].
  rewrite (returns_at gamma gae_lambda b t Hv Ht), (Hrec t Ht).
  unfold delta, not_done. rewrite Hd. simpl. split; ring.
Qed.

(** X12 on a buffer of two one-step episodes. *)
Lemma gae_at_done_witness :
  let b := of_transitions [mkTransition [0] 0 (Float 1) 0 (1 # 2) true;
                           mkTransition [0] 1 (Float 2) 0 (1 # 4) true] in
  rewards_dtype b = float64
  /\ length (values b) = length (rewards b)
  /\ (0 < length (rewards b))%nat
  /\ dones b !! 0%nat = Some true
  /\ at_ (returns_of (99 # 100) (95 # 100) b) 0 == reward_at b 0.
Proof.
  intros b.
  assert (Hf : rewards_dtype b = float64) by reflexivity.
  assert (Hv : length (values b) = length (rewards b)) by reflexivity.
  assert (Ht : (0 < length (rewards b))%nat) by (simpl; lia).
  assert (Hd : dones b !! 0%nat = Some true) by reflexivity.
  split; [exact Hf|]. split; [exact Hv|]. split; [exact Ht|]. split; [exact Hd|].
  exact (proj2 (gae_at_done (99 # 100) (95 # 100) b 0 Hf Hv Ht Hd)).
Defined.

(** X13.  With float rewards and [gae_lambda = 0] the advantage is the
    one-step temporal difference residual [delta[t]], and the return is
    [reward[t] + gamma * next_value[t] * (1 - done[t])]. *)
Theorem gae_lambda_zero (gamma : Q) (b : Buffer) (t : nat) :
  rewards_dtype b = float64 ->
  length (values b) = length (rewards b) ->
  (t < length (rewards b))%nat ->
  at_ (advantages_of gamma 0 b) t == delta gamma b t
  /\ at_ (returns_of gamma 0 b) t
     == reward_at b t + gamma * next_value b t * not_done b t.
Proof.
  intros Hf Hv Ht.
  destruct (gae_recurrence gamma 0 b Hf) as [_ Hrec].
  rewrite (returns_at gamma 0 b t Hv Ht), (Hrec t Ht).
  unfold delta. split; ring.
Qed.

(** X13 on a buffer of two transitions. *)
Lemma gae_lambda_zero_witness :
  let b := of_transitions [mkTransition [0] 0 (Float 1) 0 (1 # 2) false;
                           mkTransition [0] 1 (Float 2) 0 (1 # 4) true] in
  rewards_dtype b = float64
  /\ length (values b) = length (rewards b)
  /\ (0 < length (rewards b))%nat
  /\ at_ (advantages_of (99 # 100) 0 b) 0 == delta (99 # 100) b 0.
Proof.
  intros b.
  assert (Hf : rewards_dtype b = float64) by reflexivity.
  assert (Hv : length (values b) = length (rewards b)) by reflexivity.
  assert (Ht : (0 < length (rewards b))%nat) by (simpl; lia).
  split; [exact Hf|]. split; [exact Hv|]. split; [exact Ht|].
  exact (proj1 (gae_lambda_zero (99 # 100) b 0 Hf Hv Ht)).
Defined.

(** X14.  With float rewards and [gae_lambda = 1] the returns are the
    discounted rewards to go:
    [return[t] = reward[t] + gamma * (1 - done[t]) * return[t+1]], with 0
    for the return after the last transition.  The value estimates cancel
    out. *)
Theorem gae_lambda_one (gamma : Q) (b : Buffer) (t : nat) :
  rewards_dtype b = float64 ->
  length (values b) = length (rewards b) ->
  (t < length (rewards b))%nat ->
  at_ (returns_of gamma 1 b) t
  == reward_at b t
     + gamma * not_done b t
       * (if (t <? length (rewards b) - 1)%nat then at_ (returns_of gamma 1 b) (t + 1)
          else 0).
Proof.
  intros Hf Hv Ht.
  destruct (gae_recurrence gamma 1 b Hf) as [_ Hrec].
  rewrite (returns_at gamma 1 b t Hv Ht), (Hrec t Ht).
  unfold delta, next_value, gae_in.
  destruct (Nat.ltb_spec t (length (rewards b) - 1)) as [Hlt|Hge].
  - rewrite (returns_at gamma 1 b (t + 1) Hv) by lia. ring.
  - ring.
Qed.

(** X14 on a buffer of two transitions. *)
Lemma gae_lambda_one_witness :
  let b := of_transitions [mkTransition [0] 0 (Float 1) 0 (1 # 2) false;
                           mkTransition [0] 1 (Float 2) 0 (1 # 4) true] in
  rewards_dtype b = float64
  /\ length (values b) = length (rewards b)
  /\ (0 < length (rewards b))%nat
  /\ at_ (returns_of (1 # 2) 1 b) 0
     == reward_at b 0
        + (1 # 2) * not_done b 0
          * (if (0 <? length (rewards b) - 1)%nat then at_ (returns_of (1 # 2) 1 b) (0 + 1)
             else 0).
Proof.
  intros b.
  assert (Hf : rewards_dtype b = float64) by reflexivity.
  assert (Hv : length (values b) = length (rewards b)) by reflexivity.
  assert (Ht : (0 < length (rewards b))%nat) by (simpl; lia).
  split; [exact Hf|]. split; [exact Hv|]. split; [exact Ht|].
  exact (gae_lambda_one (1 # 2) b 0 Hf Hv Ht).
Defined.

(** ** Episodes sharing a buffer *)

Lemma of_transitions_fields (ts : list Transition) :
  rewards (of_transitions ts) = map t_reward ts
  /\ values (of_transitions ts) = map t_value ts
  /\ dones (of_transitions ts) = map t_done ts.
Proof.
  destruct (add_all_fields ts __init__) as (_ & _ & H3 & _ & H5 & H6).
  unfold of_transitions. rewrite H3, H5, H6. repeat split.
Qed.

Lemma at_app_l (l1 l2 : list Q) (t : nat) :
  (t < length l1)%nat -> at_ (l1 ++ l2) t = at_ l1 t.
Proof. intros H. unfold at_. rewrite lookup_app_l by exact H. reflexivity. Qed.

Lemma at_app_r (l1 l2 : list Q) (j : nat) :
  at_ (l1 ++ l2) (length l1 + j) = at_ l2 j.
Proof.
  unfold at_. rewrite lookup_app_r by lia.
  replace (length l1 + j - length l1)%nat with j by lia. reflexivity.
Qed.

Lemma at_app_from (l1 l2 : list Q) (n j : nat) :
  length l1 = n -> at_ (l1 ++ l2) (n + j) = at_ l2 j.
Proof. intros <-. apply at_app_r. Qed.

(** A reward list holding a float keeps the element type [float64]
    whatever is stored before or after it. *)
Lemma float64_has_float (l : list Number) :
  l <> [] -> dtype (np_array l) = float64 -> forallb is_int l = false.
Proof.
  intros Hne. unfold np_array. simpl dtype.
  destruct (forallb is_int l); [|reflexivity].
  destruct l; [congruence | discriminate].
Qed.

Lemma float64_app_l (l1 l2 : list Number) :
  l1 <> [] -> dtype (np_array l1) = float64 -> dtype (np_array (l1 ++ l2)) = float64.
Proof.
  intros Hne Hf. apply (float64_has_float l1 Hne) in Hf.
  unfold np_array. simpl dtype. rewrite forallb_app, Hf. reflexivity.
Qed.

Lemma float64_app_r (l1 l2 : list Number) :
  l2 <> [] -> dtype (np_array l2) = float64 -> dtype (np_array (l1 ++ l2)) = float64.
Proof.
  intros Hne Hf. apply (float64_has_float l2 Hne) in Hf.
  unfold np_array. simpl dtype. rewrite forallb_app, Hf, andb_false_r. reflexivity.
Qed.

Section TwoRollouts.

Variables (gamma gae_lambda : Q) (ts1 ts2 : list Transition).

Let b := of_transitions (ts1 ++ ts2).
Let b1 := of_transitions ts1.
Let b2 := of_transitions ts2.
Let T1 := length ts1.
Let T2 := length ts2.

Lemma joined_lengths :
  length (rewards b) = (T1 + T2)%nat /\ length (rewards b1) = T1
  /\ length (rewards b2) = T2.
Proof.
  unfold b, b1, b2, T1, T2.
  destruct (of_transitions_fields (ts1 ++ ts2)) as (-> & _).
  destruct (of_transitions_fields ts1) as (-> & _).
  destruct (of_transitions_fields ts2) as (-> & _).
  rewrite !length_map, length_app. repeat split.
Qed.

Lemma joined_float64_r :
  ts2 <> [] -> rewards_dtype b2 = float64 -> rewards_dtype b = float64.
Proof.
  unfold rewards_dtype, b, b2. intros Hne.
  destruct (of_transitions_fields (ts1 ++ ts2)) as (-> & _).
  destruct (of_transitions_fields ts2) as (-> & _).
  rewrite map_app. apply float64_app_r.
  destruct ts2; [congruence | discriminate].
Qed.

Lemma joined_float64_l :
  ts1 <> [] -> rewards_dtype b1 = float64 -> rewards_dtype b = float64.
Proof.
  unfold rewards_dtype, b, b1. intros Hne.
  destruct (of_transitions_fields (ts1 ++ ts2)) as (-> & _).
  destruct (of_transitions_fields ts1) as (-> & _).
  rewrite map_app. apply float64_app_l.
  destruct ts1; [congruence | discriminate].
Qed.

Lemma not_done_suffix (j : nat) : not_done b (T1 + j) = not_done b2 j.
Proof.
  unfold not_done, b, b2, T1.
  destruct (of_transitions_fields (ts1 ++ ts2)) as (_ & _ & ->).
  destruct (of_transitions_fields ts2) as (_ & _ & ->).
  rewrite map_app, lookup_app_r by (rewrite length_map; lia).
  rewrite length_map. replace (length ts1 + j - length ts1)%nat with j by lia.
  reflexivity.
Qed.

Lemma not_done_prefix (t : nat) : (t < T1)%nat -> not_done b t = not_done b1 t.
Proof.
  intros Ht. unfold not_done, b, b1.
  destruct (of_transitions_fields (ts1 ++ ts2)) as (_ & _ & ->).
  destruct (of_transitions_fields ts1) as (_ & _ & ->).
  rewrite map_app, lookup_app_l by (rewrite length_map; exact Ht). reflexivity.
Qed.

Lemma delta_suffix (j : nat) : (j < T2)%nat -> delta gamma b (T1 + j) = delta gamma b2 j.
Proof.
  intros Hj. destruct joined_lengths as (Lb & _ & L2).
  unfold delta, next_value, reward_at. rewrite not_done_suffix, Lb, L2.
  unfold b, b2, T1 in *.
  destruct (of_transitions_fields (ts1 ++ ts2)) as (-> & -> & _).
  destruct (of_transitions_fields ts2) as (-> & -> & _).
  rewrite !map_app.
  replace (length ts1 + j + 1)%nat with (length ts1 + (j + 1))%nat by lia.
  rewrite !(at_app_from _ _ (length ts1)) by (rewrite ?length_map; reflexivity).
  destruct (Nat.ltb_spec (length ts1 + j) (length ts1 + T2 - 1)),
           (Nat.ltb_spec j (T2 - 1)); try lia; reflexivity.
Qed.

Lemma delta_prefix (t : nat) : (t + 1 < T1)%nat -> delta gamma b t = delta gamma b1 t.
Proof.
  intros Ht. destruct joined_lengths as (Lb & L1 & _).
  unfold delta, next_value, reward_at. rewrite not_done_prefix, Lb, L1 by lia.
  unfold b, b1, T1 in *.
  destruct (of_transitions_fields (ts1 ++ ts2)) as (-> & -> & _).
  destruct (of_transitions_fields ts1) as (-> & -> & _).
  rewrite !map_app, !at_app_l by (rewrite ?length_map; lia).
  destruct (Nat.ltb_spec t (length ts1 + T2 - 1)),
           (Nat.ltb_spec t (length ts1 - 1)); try lia; reflexivity.
Qed.

Lemma advantages_suffix (n j : nat) :
  rewards_dtype b2 = float64 ->
  (j + n + 1 = T2)%nat ->
  at_ (advantages_of gamma gae_lambda b) (T1 + j)
  = at_ (advantages_of gamma gae_lambda b2) j.
Proof.
  intros Hf2 Hjn.
  assert (Hfb : rewards_dtype b = float64).
  { apply joined_float64_r; [|exact Hf2]. intros E. unfold T2 in Hjn. rewrite E in Hjn.
    simpl in Hjn. lia. }
  destruct joined_lengths as (Lb & _ & L2).
  destruct (gae_recurrence gamma gae_lambda b Hfb) as [_ Hb].
  destruct (gae_recurrence gamma gae_lambda b2 Hf2) as [_ H2].
  revert j Hjn. induction n as [|n IH]; intros j Hj;
    rewrite Hb, H2 by lia; rewrite delta_suffix, not_done_suffix by lia;
    unfold gae_in; rewrite Lb, L2;
    destruct (Nat.ltb_spec (T1 + j) (T1 + T2 - 1)), (Nat.ltb_spec j (T2 - 1));
    try lia; try reflexivity.
  replace (T1 + j + 1)%nat with (T1 + (j + 1))%nat by lia.
  rewrite (IH (j + 1)%nat) by lia. reflexivity.
Qed.

Lemma advantages_prefix (tr : Transition) (n t : nat) :
  rewards_dtype b1 = float64 ->
  last ts1 = Some tr -> t_done tr = true ->
  (t + n + 1 = T1)%nat ->
  at_ (advantages_of gamma gae_lambda b) t == at_ (advantages_of gamma gae_lambda b1) t.
Proof.
  intros Hf1 Hlast Hdone.
  assert (Hfb : rewards_dtype b = float64).
  { apply joined_float64_l; [|exact Hf1]. intros E. rewrite E in Hlast. discriminate. }
  destruct joined_lengths as (Lb & L1 & _).
  destruct (gae_recurrence gamma gae_lambda b Hfb) as [_ Hb].
  destruct (gae_recurrence gamma gae_lambda b1 Hf1) as [_ H1].
  assert (Hd1 : dones b1 !! (T1 - 1)%nat = Some true).
  { unfold b1, T1. destruct (of_transitions_fields ts1) as (_ & _ & ->).
    rewrite list_lookup_fmap. rewrite last_lookup in Hlast.
    replace (length ts1 - 1)%nat with (Nat.pred (length ts1)) by lia.
    rewrite Hlast. simpl. rewrite Hdone. reflexivity. }
  revert t. induction n as [|n IH]; intros t Ht; rewrite Hb, H1 by lia.
  - assert (t = (T1 - 1)%nat) by lia. subst t.
    rewrite not_done_prefix by lia.
    unfold delta. rewrite not_done_prefix by lia.
    unfold not_done. rewrite Hd1. simpl b2q.
    unfold reward_at, b, b1, T1 in *.
    destruct (of_transitions_fields (ts1 ++ ts2)) as (-> & -> & _).
    destruct (of_transitions_fields ts1) as (-> & -> & _).
    rewrite !map_app, !at_app_l by (rewrite ?length_map; lia). ring.
  - rewrite delta_prefix, not_done_prefix by lia.
    unfold gae_in. rewrite Lb, L1.
    destruct (Nat.ltb_spec t (T1 + T2 - 1)), (Nat.ltb_spec t (T1 - 1)); try lia.
    rewrite (IH (t + 1)%nat) by lia. reflexivity.
Qed.

End TwoRollouts.

(** X15.  Episodes with float rewards stored one after the other do not
    leak into each other.  In the buffer of the transitions [ts1 ++ ts2]
    the advantages of the transitions of [ts2] are those of the buffer of
    [ts2] alone when the reward array of [ts2] is a float array; and when
    [ts1] ends with a [done] transition and its reward array is a float
    array, the advantages of the transitions of [ts1] are those of the
    buffer of [ts1] alone. *)
Theorem gae_episodes_independent (gamma gae_lambda : Q) (ts1 ts2 : list Transition) :
  (rewards_dtype (of_transitions ts2) = float64 ->
   forall j : nat, (j < length ts2)%nat ->
     at_ (advantages_of gamma gae_lambda (of_transitions (ts1 ++ ts2))) (length ts1 + j)
     = at_ (advantages_of gamma gae_lambda (of_transitions ts2)) j)
  /\ (rewards_dtype (of_transitions ts1) = float64 ->
      forall (tr : Transition) (t : nat),
        last ts1 = Some tr -> t_done tr = true -> (t < length ts1)%nat ->
        at_ (advantages_of gamma gae_lambda (of_transitions (ts1 ++ ts2))) t
        == at_ (advantages_of gamma gae_lambda (of_transitions ts1)) t).
Proof.
  split.
  - intros Hf j Hj.
    apply (advantages_suffix gamma gae_lambda ts1 ts2 (length ts2 - 1 - j) j Hf). lia.
  - intros Hf tr t Hlast Hdone Ht.
    apply (advantages_prefix gamma gae_lambda ts1 ts2 tr (length ts1 - 1 - t) t Hf);
      [assumption | assumption | lia].
Qed.

(** X15 on two one-step episodes. *)
Lemma gae_episodes_independent_witness :
  let t1 := mkTransition [0] 0 (Float 1) 0 (1 # 2) true in
  let t2 := mkTransition [0] 1 (Float 2) 0 (1 # 4) true in
  rewards_dtype (of_transitions [t1]) = float64
  /\ last [t1] = Some t1 /\ t_done t1 = true /\ (0 < length [t1])%nat
  /\ at_ (advantages_of (99 # 100) (95 # 100) (of_transitions ([t1] ++ [t2]))) 0
     == at_ (advantages_of (99 # 100) (95 # 100) (of_transitions [t1])) 0.
Proof.
  intros t1 t2.
  assert (Hf : rewards_dtype (of_transitions [t1]) = float64) by reflexivity.
  assert (Hl : last [t1] = Some t1) by reflexivity.
  assert (Hd : t_done t1 = true) by reflexivity.
  assert (Ht : (0 < length [t1])%nat) by (simpl; lia).
  split; [exact Hf|]. split; [exact Hl|]. split; [exact Hd|]. split; [exact Ht|].
  exact (proj2 (gae_episodes_independent (99 # 100) (95 # 100) [t1] [t2]) Hf t1 0%nat
           Hl Hd Ht).
Defined.

End BufferBehaviour.

(** * Further behaviour of the trainer *)

Module TrainerBehaviour.

Import Num PPOTrainer TrainerProps.
Local Open Scope R_scope.

(** Linear and non-linear arithmetic over the reals. *)
Local Ltac lra := Lra.lra.
Local Ltac nra := Lra.nra.

(** ** Advantage normalisation *)

Lemma Rsum_map_affine (m c : R) (l : list R) :
  Rsum (map (fun a => (a - m) / c) l) = (Rsum l - INR (length l) * m) / c.
Proof.
  induction l as [|a l IH].
  - simpl. unfold Rdiv. lra.
  - change (Rsum (map (fun a => (a - m) / c) (a :: l)))
      with ((a - m) / c + Rsum (map (fun a => (a - m) / c) l)).
    rewrite IH. change (length (a :: l)) with (S (length l)). rewrite S_INR.
    change (Rsum (a :: l)) with (a + Rsum l). unfold Rdiv. lra.
Qed.

Lemma Rsum_constant (a : R) (l : list R) :
  Forall (fun x => x = a) l -> Rsum l = INR (length l) * a.
Proof.
  induction 1 as [|x l Hx _ IH].
  - simpl. lra.
  - change (Rsum (x :: l)) with (x + Rsum l).
    change (length (x :: l)) with (S (length l)). rewrite S_INR, IH, Hx. lra.
Qed.

Lemma std_nonneg (l : list R) : 0 <= std l.
Proof. unfold std. apply sqrt_pos. Qed.

(** X16.  For at least two advantages, the normalisation divides by a
    positive number, the normalised advantages have mean 0, and when all
    advantages are equal they are all normalised to 0 (the added [1e-8]
    keeps the division defined). *)
Theorem normalized_advantages (advantages : list R) :
  (2 <= length advantages)%nat ->
  0 < std advantages + 1 / 100000000
  /\ length (normalize advantages) = length advantages
  /\ mean (normalize advantages) = 0
  /\ (forall a : R, Forall (fun x => x = a) advantages ->
        Forall (fun x => x = 0) (normalize advantages)).
Proof.
  intros Hn.
  assert (Hpos : 0 < INR (length advantages)) by (apply lt_0_INR; lia).
  split; [pose proof (std_nonneg advantages); lra|].
  split; [apply length_map|]. split.
  - unfold mean at 1. unfold normalize. rewrite Rsum_map_affine, length_map.
    unfold mean. field. split; [lra|].
    pose proof (std_nonneg advantages). lra.
  - intros a Hall.
    assert (Hm : mean advantages = a).
    { unfold mean. rewrite (Rsum_constant a _ Hall). field. lra. }
    unfold normalize. rewrite Hm. apply Forall_map.
    eapply Forall_impl; [exact Hall|]. intros x ->. unfold Rdiv. lra.
Qed.

(** X16 on three equal advantages. *)
Lemma normalized_advantages_witness :
  (2 <= length [1; 1; 1])%nat /\ mean (normalize [1; 1; 1]) = 0.
Proof.
  assert (Hn : (2 <= length [1; 1; 1])%nat) by (simpl; lia).
  split; [exact Hn|].
  exact (proj1 (proj2 (proj2 (normalized_advantages [1; 1; 1] Hn)))).
Defined.

(** ** Mini-batches *)

Lemma range_count_covers (n k : nat) : (0 < k)%nat -> (n <= (n + k - 1) / k * k)%nat.
Proof.
  intros Hk.
  pose proof (Nat.div_mod (n + k - 1) k ltac:(lia)) as Hdm.
  pose proof (Nat.mod_upper_bound (n + k - 1) k ltac:(lia)) as Hmod.
  nia.
Qed.

Lemma range_count_tight (n k i : nat) :
  (0 < k)%nat -> (i < (n + k - 1) / k)%nat -> (i * k < n)%nat.
Proof.
  intros Hk Hi.
  pose proof (Nat.div_mod (n + k - 1) k ltac:(lia)) as Hdm.
  pose proof (Nat.mod_upper_bound (n + k - 1) k ltac:(lia)) as Hmod.
  nia.
Qed.

Lemma slice_batch {A : Type} (l : list A) (i k : nat) :
  slice l (i * k) (Nat.min (i * k + k) (length l)) = take k (drop (i * k) l).
Proof.
  unfold slice. destruct (Nat.le_ge_cases (i * k + k) (length l)) as [H|H].
  - rewrite Nat.min_l by exact H. f_equal. lia.
  - rewrite Nat.min_r by exact H.
    rewrite !take_ge; [reflexivity | rewrite length_drop; lia | rewrite length_drop; lia].
Qed.

Lemma concat_batches {A : Type} (l : list A) (k m : nat) :
  concat (map (fun i => take k (drop (i * k) l)) (seq 0 m)) = take (m * k) l.
Proof.
  induction m as [|m IH].
  - reflexivity.
  - rewrite seq_S, map_app, concat_app, IH. simpl.
    rewrite app_nil_r, take_take_drop. f_equal. lia.
Qed.

Lemma minibatches_positive (indices : list nat) (batch_size : Z) :
  (0 < batch_size)%Z ->
  let k := Z.to_nat batch_size in
  minibatches indices batch_size
  = inr (map (fun i => take k (drop (i * k) indices))
             (seq 0 ((length indices + k - 1) / k))).
Proof.
  intros Hb k. unfold minibatches, py_range.
  destruct (Z.eqb_spec batch_size 0); [lia|].
  destruct (Z.ltb_spec batch_size 0); [lia|].
  cbv zeta. fold k. rewrite List.map_map. f_equal.
  apply map_ext. intros i. apply slice_batch.
Qed.

Lemma minibatches_negative (indices : list nat) (batch_size : Z) :
  (batch_size < 0)%Z -> minibatches indices batch_size = inr [].
Proof.
  intros Hb. unfold minibatches, py_range.
  destruct (Z.eqb_spec batch_size 0); [lia|].
  destruct (Z.ltb_spec batch_size 0); [reflexivity | lia].
Qed.

(** X17.  With a positive [batch_size] the mini-batches of an epoch
    partition the shuffled index array: concatenated in order they give
    it back, so every transition is used exactly once per epoch; each
    batch holds between 1 and [batch_size] indices; and there are
    [ceil(n / batch_size)] of them.  A [batch_size] of 0 raises
    [ValueError]; a negative one gives no batch at all. *)
Theorem minibatches_partition (indices : list nat) (batch_size : Z) :
  ((0 < batch_size)%Z ->
   exists batches : list (list nat),
     minibatches indices batch_size = inr batches
     /\ concat batches = indices
     /\ Forall (fun b => (1 <= length b <= Z.to_nat batch_size)%nat) batches
     /\ length batches
        = ((length indices + Z.to_nat batch_size - 1) / Z.to_nat batch_size)%nat)
  /\ (batch_size = 0%Z -> minibatches indices batch_size = inl ValueError)
  /\ ((batch_size < 0)%Z -> minibatches indices batch_size = inr []).
Proof.
  split; [|split].
  - intros Hb. set (k := Z.to_nat batch_size).
    assert (Hk : (0 < k)%nat) by (unfold k; lia).
    eexists. split; [exact (minibatches_positive indices batch_size Hb)|].
    fold k. split; [|split].
    + rewrite concat_batches. apply take_ge. apply range_count_covers, Hk.
    + apply Forall_map. apply Forall_forall. intros i Hi.
      apply list_elem_of_In, in_seq in Hi.
      pose proof (range_count_tight (length indices) k i Hk ltac:(lia)) as Hlt.
      rewrite length_take, length_drop. lia.
    + rewrite length_map, length_seq. reflexivity.
  - intros ->. reflexivity.
  - apply minibatches_negative.
Qed.

(** X17 on five shuffled indices in batches of two. *)
Lemma minibatches_partition_witness :
  (0 < 2)%Z
  /\ exists batches : list (list nat),
       minibatches [3; 0; 4; 1; 2]%nat 2 = inr batches
       /\ concat batches = [3; 0; 4; 1; 2]%nat.
Proof.
  assert (Hb : (0 < 2)%Z) by lia.
  split; [exact Hb|].
  destruct (proj1 (minibatches_partition [3; 0; 4; 1; 2]%nat 2) Hb)
    as (batches & Hm & Hc & _).
  exists batches. split; [exact Hm | exact Hc].
Defined.

(** ** The number of optimizer steps *)

Section UpdateCount.

Variables (Policy : Type)
  (train_step : Policy -> list nat -> Policy * (Exception + Stat * Stat * Stat)).

(** Exception [e] is raised by a call of the loop body. *)
Let step_raises (e : Exception) : Prop :=
  exists (p : Policy) (batch : list nat), snd (train_step p batch) = inl e.

Lemma run_batches_raised (batches : list (list nat)) (st : Totals Policy)
    (e : Exception) :
  fold_left (run_batch Policy train_step) batches (st, Some e) = (st, Some e).
Proof. induction batches as [|b batches IH]; simpl; [reflexivity | exact IH]. Qed.

Lemma run_batches_outcome (batches : list (list nat)) (st : Totals Policy) :
  exists (st' : Totals Policy) (r : option Exception),
    fold_left (run_batch Policy train_step) batches (st, None) = (st', r)
    /\ ((r = None
         /\ num_updates Policy st' = (num_updates Policy st + length batches)%nat)
        \/ (exists e : Exception,
              r = Some e /\ step_raises e
              /\ (num_updates Policy st' < num_updates Policy st + length batches)%nat)).
Proof.
  revert st. induction batches as [|b batches IH]; intros st.
  - exists st, None. split; [reflexivity|]. left. split; [reflexivity | simpl; lia].
  - cbn [fold_left]. unfold run_batch at 2.
    destruct (train_step (policy Policy st) b) as [p' [e|[[pl vl] en]]] eqn:Hstep.
    + rewrite run_batches_raised. eexists _, _. split; [reflexivity|].
      right. exists e. split; [reflexivity|]. split.
      * exists (policy Policy st), b. rewrite Hstep. reflexivity.
      * simpl. lia.
    + destruct (IH (mkTotals Policy p' (stat_add (total_policy_loss Policy st) pl)
                      (stat_add (total_value_loss Policy st) vl)
                      (stat_add (total_entropy Policy st) en)
                      (S (num_updates Policy st))))
        as (st' & r & Hrun & Hout).
      exists st', r. split; [exact Hrun|]. simpl in Hout. simpl length.
      destruct Hout as [[-> Hn]|(e & -> & Hr & Hn)].
      * left. split; [reflexivity | lia].
      * right. exists e. split; [reflexivity|]. split; [exact Hr | lia].
Qed.

Lemma run_epoch_positive (batch_size : Z) (indices : list nat) (st : Totals Policy) :
  (0 < batch_size)%Z ->
  run_epoch Policy train_step batch_size (st, None) indices
  = fold_left (run_batch Policy train_step)
      (map (fun i => take (Z.to_nat batch_size)
                       (drop (i * Z.to_nat batch_size) indices))
           (seq 0 ((length indices + Z.to_nat batch_size - 1)
                   / Z.to_nat batch_size))) (st, None).
Proof.
  intros Hb. unfold run_epoch. rewrite (minibatches_positive indices batch_size Hb).
  reflexivity.
Qed.

Lemma run_epochs_raised (batch_size : Z) (shuffled : nat -> list nat)
    (epochs : list nat) (st : Totals Policy) (e : Exception) :
  fold_left (fun st e => run_epoch Policy train_step batch_size st (shuffled e))
            epochs (st, Some e) = (st, Some e).
Proof. induction epochs as [|x epochs IH]; simpl; [reflexivity | exact IH]. Qed.

Lemma run_epochs_outcome (batch_size : Z) (shuffled : nat -> list nat) (n : nat)
    (epochs : list nat) (st : Totals Policy) :
  (0 < batch_size)%Z -> (forall e, length (shuffled e) = n) ->
  exists (st' : Totals Policy) (r : option Exception),
    fold_left (fun st e => run_epoch Policy train_step batch_size st (shuffled e))
              epochs (st, None) = (st', r)
    /\ ((r = None
         /\ num_updates Policy st'
            = (num_updates Policy st
               + length epochs
                 * ((n + Z.to_nat batch_size - 1) / Z.to_nat batch_size))%nat)
        \/ (exists e : Exception,
              r = Some e /\ step_raises e
              /\ (num_updates Policy st'
                  < num_updates Policy st
                    + length epochs
                      * ((n + Z.to_nat batch_size - 1) / Z.to_nat batch_size))%nat)).
Proof.
  intros Hb Hlen. revert st. induction epochs as [|x epochs IH]; intros st.
  - exists st, None. split; [reflexivity|]. left. split; [reflexivity | simpl; lia].
  - cbn [fold_left]. rewrite (run_epoch_positive batch_size (shuffled x) st Hb).
    destruct (run_batches_outcome
                (map (fun i => take (Z.to_nat batch_size)
                                 (drop (i * Z.to_nat batch_size) (shuffled x)))
                     (seq 0 ((length (shuffled x) + Z.to_nat batch_size - 1)
                             / Z.to_nat batch_size))) st)
      as (st1 & r1 & Hrun1 & Hout1).
    rewrite Hrun1. rewrite length_map, length_seq, Hlen in Hout1.
    destruct Hout1 as [[-> Hn1]|(e & -> & Hr & Hn1)].
    + destruct (IH st1) as (st' & r & Hrun & Hout).
      exists st', r. split; [exact Hrun|]. simpl length.
      destruct Hout as [[-> Hn]|(e & -> & Hr & Hn)].
      * left. split; [reflexivity | lia].
      * right. exists e. split; [reflexivity|]. split; [exact Hr | lia].
    + rewrite run_epochs_raised. exists st1, (Some e). split; [reflexivity|].
      right. exists e. split; [reflexivity|]. split; [exact Hr|]. simpl length. lia.
Qed.

Lemma run_epochs_no_batch (batch_size : Z) (shuffled : nat -> list nat)
    (epochs : list nat) (st : Totals Policy) :
  (forall e, minibatches (shuffled e) batch_size = inr []) ->
  fold_left (fun st e => run_epoch Policy train_step batch_size st (shuffled e))
            epochs (st, None) = (st, None).
Proof.
  intros H. induction epochs as [|x epochs IH]; simpl; [reflexivity|].
  rewrite H. simpl. exact IH.
Qed.

(** X18.  What [update] does from its epochs on.  With [update_epochs],
    [batch_size] and the number [n] of transitions all positive, either
    every call of the loop body returns, and [update] returns after
    exactly [update_epochs * ceil(n / batch_size)] optimizer steps with
    the totals divided by that number; or a call of the loop body raises,
    and [update] raises that exception after fewer steps.  When no call
    of the loop body can raise it is the first.  When the very first call
    raises, [update] raises its exception, leaving the trainable state
    that call left.  With no transition and a positive [batch_size], with
    [update_epochs <= 0] or with a negative [batch_size] no step is taken
    and the final division raises [ZeroDivisionError]; with
    [batch_size = 0] and at least one epoch the first [range] raises
    [ValueError]. *)
Theorem update_outcome (update_epochs batch_size : Z) (shuffled : nat -> list nat)
    (n : nat) (policy0 : Policy) :
  (forall e, length (shuffled e) = n) ->
  ((0 < update_epochs)%Z -> (0 < batch_size)%Z -> (0 < n)%nat ->
   exists (st : Totals Policy) (r : option Exception),
     run_epochs Policy train_step update_epochs batch_size shuffled policy0 = (st, r)
     /\ ((r = None
          /\ num_updates Policy st
             = (Z.to_nat update_epochs
                * ((n + Z.to_nat batch_size - 1) / Z.to_nat batch_size))%nat
          /\ (0 < num_updates Policy st)%nat
          /\ update Policy train_step update_epochs batch_size shuffled policy0
             = (policy Policy st,
                inr (stat_div (total_policy_loss Policy st) (num_updates Policy st),
                     stat_div (total_value_loss Policy st) (num_updates Policy st),
                     stat_div (total_entropy Policy st) (num_updates Policy st))))
         \/ (exists e : Exception,
               r = Some e
               /\ (exists (p : Policy) (batch : list nat),
                     snd (train_step p batch) = inl e)
               /\ (num_updates Policy st
                   < Z.to_nat update_epochs
                     * ((n + Z.to_nat batch_size - 1) / Z.to_nat batch_size))%nat
               /\ update Policy train_step update_epochs batch_size shuffled policy0
                  = (policy Policy st, inl e))))
  /\ ((0 < update_epochs)%Z -> (0 < batch_size)%Z -> (0 < n)%nat ->
      (forall (p : Policy) (batch : list nat),
         exists stats, snd (train_step p batch) = inr stats) ->
      exists st : Totals Policy,
        run_epochs Policy train_step update_epochs batch_size shuffled policy0
        = (st, None)
        /\ num_updates Policy st
           = (Z.to_nat update_epochs
              * ((n + Z.to_nat batch_size - 1) / Z.to_nat batch_size))%nat
        /\ update Policy train_step update_epochs batch_size shuffled policy0
           = (policy Policy st,
              inr (stat_div (total_policy_loss Policy st) (num_updates Policy st),
                   stat_div (total_value_loss Policy st) (num_updates Policy st),
                   stat_div (total_entropy Policy st) (num_updates Policy st))))
  /\ ((0 < update_epochs)%Z -> (0 < batch_size)%Z -> (0 < n)%nat ->
      forall e : Exception,
        snd (train_step policy0 (take (Z.to_nat batch_size) (shuffled 0%nat))) = inl e ->
        update Policy train_step update_epochs batch_size shuffled policy0
        = (fst (train_step policy0 (take (Z.to_nat batch_size) (shuffled 0%nat))),
           inl e))
  /\ ((0 < batch_size)%Z -> n = 0%nat ->
      update Policy train_step update_epochs batch_size shuffled policy0
      = (policy0, inl ZeroDivisionError))
  /\ ((update_epochs <= 0)%Z ->
      update Policy train_step update_epochs batch_size shuffled policy0
      = (policy0, inl ZeroDivisionError))
  /\ ((batch_size < 0)%Z ->
      update Policy train_step update_epochs batch_size shuffled policy0
      = (policy0, inl ZeroDivisionError))
  /\ ((0 < update_epochs)%Z -> batch_size = 0%Z ->
      update Policy train_step update_epochs batch_size shuffled policy0
      = (policy0, inl ValueError)).
Proof.
  intros Hlen.
  assert (Hmain : (0 < update_epochs)%Z -> (0 < batch_size)%Z -> (0 < n)%nat ->
    exists (st : Totals Policy) (r : option Exception),
     run_epochs Policy train_step update_epochs batch_size shuffled policy0 = (st, r)
     /\ ((r = None
          /\ num_updates Policy st
             = (Z.to_nat update_epochs
                * ((n + Z.to_nat batch_size - 1) / Z.to_nat batch_size))%nat
          /\ (0 < num_updates Policy st)%nat
          /\ update Policy train_step update_epochs batch_size shuffled policy0
             = (policy Policy st,
                inr (stat_div (total_policy_loss Policy st) (num_updates Policy st),
                     stat_div (total_value_loss Policy st) (num_updates Policy st),
                     stat_div (total_entropy Policy st) (num_updates Policy st))))
         \/ (exists e : Exception,
               r = Some e
               /\ (exists (p : Policy) (batch : list nat),
                     snd (train_step p batch) = inl e)
               /\ (num_updates Policy st
                   < Z.to_nat update_epochs
                     * ((n + Z.to_nat batch_size - 1) / Z.to_nat batch_size))%nat
               /\ update Policy train_step update_epochs batch_size shuffled policy0
                  = (policy Policy st, inl e)))).
  { intros He Hb Hn.
    destruct (run_epochs_outcome batch_size shuffled n (seq 0 (Z.to_nat update_epochs))
                (mkTotals Policy policy0 (Some 0) (Some 0) (Some 0) 0) Hb Hlen)
      as (st & r & Hrun & Hout).
    rewrite length_seq in Hout. simpl num_updates in Hout.
    exists st, r. split; [exact Hrun|].
    unfold update. unfold run_epochs in *. rewrite Hrun.
    destruct Hout as [[-> Hcount]|(e & -> & Hr & Hcount)].
    - left. split; [reflexivity|]. split; [exact Hcount|].
      assert (Hpos : (0 < num_updates Policy st)%nat).
      { rewrite Hcount.
        assert (1 <= (n + Z.to_nat batch_size - 1) / Z.to_nat batch_size)%nat.
        { apply Nat.div_le_lower_bound; lia. }
        nia. }
      split; [exact Hpos|].
      destruct (Nat.eqb_spec (num_updates Policy st) 0); [lia | reflexivity].
    - right. exists e. split; [reflexivity|]. split; [exact Hr|].
      split; [exact Hcount | reflexivity]. }
  split; [exact Hmain|]. split; [|split; [|split; [|split; [|split]]]].
  - intros He Hb Hn Htotal.
    destruct (Hmain He Hb Hn) as (st & r & Hrun & [(-> & Hcount & _ & Hup)|Hraise]).
    + exists st. split; [exact Hrun|]. split; [exact Hcount | exact Hup].
    + destruct Hraise as (e & _ & (p & batch & Hr) & _).
      destruct (Htotal p batch) as [stats Hs]. congruence.
  - intros He Hb Hn e Hraise.
    unfold update, run_epochs.
    destruct (Z.to_nat update_epochs) as [|m] eqn:Hm; [lia|].
    cbn [seq fold_left].
    rewrite (run_epoch_positive batch_size (shuffled 0%nat) _ Hb).
    rewrite Hlen.
    assert (Hc : exists c, ((n + Z.to_nat batch_size - 1) / Z.to_nat batch_size)%nat = S c).
    { assert (1 <= (n + Z.to_nat batch_size - 1) / Z.to_nat batch_size)%nat.
      { apply Nat.div_le_lower_bound; lia. }
      destruct ((n + Z.to_nat batch_size - 1) / Z.to_nat batch_size)%nat;
        [lia | eauto]. }
    destruct Hc as [c ->]. cbn [seq map fold_left].
    change (drop (0 * Z.to_nat batch_size) (shuffled 0%nat)) with (shuffled 0%nat).
    unfold run_batch at 2. simpl policy.
    destruct (train_step policy0 (take (Z.to_nat batch_size) (shuffled 0%nat)))
      as [p' [e'|stats]]; simpl in Hraise; [|discriminate].
    injection Hraise as ->.
    rewrite run_batches_raised, run_epochs_raised. reflexivity.
  - intros Hb ->. unfold update, run_epochs.
    rewrite run_epochs_no_batch; [reflexivity|].
    intros e. rewrite (minibatches_positive _ _ Hb).
    specialize (Hlen e). rewrite Hlen. simpl.
    rewrite Nat.div_small by lia. reflexivity.
  - intros He. unfold update, run_epochs.
    replace (Z.to_nat update_epochs) with 0%nat by lia. reflexivity.
  - intros Hb. unfold update, run_epochs.
    rewrite run_epochs_no_batch; [reflexivity|].
    intros e. exact (minibatches_negative (shuffled e) batch_size Hb).
  - intros He ->. unfold update, run_epochs.
    destruct (Z.to_nat update_epochs) as [|m] eqn:Hm; [lia|].
    simpl. rewrite run_epochs_raised. reflexivity.
Qed.

End UpdateCount.

(** X18 on two epochs over five transitions in batches of two, with a
    loop body that counts its calls and never raises. *)
Lemma update_outcome_witness :
  let train_step := fun (p : nat) (_ : list nat) =>
    (S p, inr (Some 1, Some 1, Some 1) : Exception + Stat * Stat * Stat) in
  (forall e : nat, length ((fun _ => [3; 0; 4; 1; 2]%nat) e) = 5%nat)
  /\ (0 < 2)%Z /\ (0 < 5)%nat
  /\ (forall (p : nat) (batch : list nat),
        exists stats, snd (train_step p batch) = inr stats)
  /\ exists st : Totals nat,
       run_epochs nat train_step 2 2 (fun _ => [3; 0; 4; 1; 2]%nat) 0%nat = (st, None)
       /\ num_updates nat st = (Z.to_nat 2 * ((5 + Z.to_nat 2 - 1) / Z.to_nat 2))%nat.
Proof.
  intros train_step.
  assert (Hl : forall e : nat, length ((fun _ => [3; 0; 4; 1; 2]%nat) e) = 5%nat)
    by (intros e; reflexivity).
  assert (Hb : (0 < 2)%Z) by lia.
  assert (Hn : (0 < 5)%nat) by lia.
  assert (Ht : forall (p : nat) (batch : list nat),
             exists stats, snd (train_step p batch) = inr stats)
    by (intros p batch; eexists; reflexivity).
  split; [exact Hl|]. split; [exact Hb|]. split; [exact Hn|]. split; [exact Ht|].
  destruct (proj1 (proj2 (update_outcome nat train_step 2 2
                            (fun _ => [3; 0; 4; 1; 2]%nat) 5 0%nat Hl)) Hb Hb Hn Ht)
    as (st & Hrun & Hcount & _).
  exists st. split; [exact Hrun | exact Hcount].
Defined.

(** One transition and four epochs, with a loop body whose second call
    raises [ValueError] (as [policy.evaluate] does once the first step has
    left [nan] parameters): [update] raises after one optimizer step. *)
Example update_second_step_raises :
  let train_step := fun (p : nat) (_ : list nat) =>
    match p with
    | O => (S p, inr (None, None, None) : Exception + Stat * Stat * Stat)
    | S _ => (p, inl ValueError)
    end in
  update nat train_step 4 64 (fun _ => [0%nat]) 0%nat = (1%nat, inl ValueError).
Proof. reflexivity. Qed.

(** ** What clipping does to the losses *)

Lemma Rsum_map_le {A : Type} (f g : A -> R) (l : list A) :
  (forall x, f x <= g x) -> Rsum (map f l) <= Rsum (map g l).
Proof.
  intros H. induction l as [|a l IH]; simpl; [lra|].
  change (f a + Rsum (map f l) <= g a + Rsum (map g l)). specialize (H a). lra.
Qed.

Lemma mean_map_le {A : Type} (f g : A -> R) (l : list A) :
  (forall x, f x <= g x) -> mean (map f l) <= mean (map g l).
Proof.
  intros H. unfold mean. rewrite !length_map.
  destruct l as [|a l]; [simpl; lra|].
  apply Rmult_le_compat_r.
  - left. apply Rinv_0_lt_compat, lt_0_INR. simpl. lia.
  - apply Rsum_map_le, H.
Qed.

Lemma Rsum_map_zero {A : Type} (l : list A) : Rsum (map (fun _ : A => 0) l) = 0.
Proof.
  induction l as [|a l IH]; simpl; [reflexivity|].
  change (0 + Rsum (map (fun _ : A => 0) l) = 0). lra.
Qed.

Lemma mean_map_nonneg {A : Type} (f : A -> R) (l : list A) :
  (forall x, 0 <= f x) -> 0 <= mean (map f l).
Proof.
  intros H. pose proof (mean_map_le (fun _ => 0) f l H) as Hle.
  assert (H0 : mean (map (fun _ : A => 0) l) = 0).
  { unfold mean. rewrite Rsum_map_zero. unfold Rdiv. lra. }
  lra.
Qed.

Lemma map_ext_all {A B : Type} (f g : A -> B) (l : list A) :
  Forall (fun x => f x = g x) l -> map f l = map g l.
Proof. induction 1 as [|x l Hx _ IH]; simpl; [reflexivity | rewrite Hx, IH; reflexivity]. Qed.

Lemma Rabs_le_bounds (x e : R) : Rabs x <= e -> - e <= x <= e.
Proof. unfold Rabs. destruct (Rcase_abs x); lra. Qed.

Lemma clamp_range (x lo hi : R) : lo <= hi -> lo <= clamp x lo hi <= hi.
Proof.
  intros H. unfold clamp. split.
  - apply Rmin_glb; [apply Rmax_r | exact H].
  - apply Rmin_r.
Qed.

Lemma clamp_inside (x lo hi : R) : lo <= x <= hi -> clamp x lo hi = x.
Proof.
  intros [H1 H2]. unfold clamp. rewrite Rmax_left by exact H1. apply Rmin_left, H2.
Qed.

Lemma values_clipped_per_sample (self : Trainer) (batch : list Sample) :
  values_clipped self (map value batch) (map old_value batch)
  = map (spec_clipped_value (clip_epsilon self)) batch.
Proof.
  unfold values_clipped. rewrite zipWith_map, List.map_map, zipWith_map. reflexivity.
Qed.

(** X19.  Clipping only ever makes the losses larger: on every
    mini-batch the policy loss is at least the loss of the unclipped
    surrogate [-mean(ratio * advantage)], the value loss is at least the
    mean squared error of the new values, and the value loss is never
    negative. *)
Theorem clipped_losses_pessimistic (self : Trainer) (batch : list Sample) :
  let log_probs := map new_log_prob batch in
  let batch_old_log_probs := map old_log_prob batch in
  let batch_advantages := map advantage batch in
  let values := map value batch in
  let batch_old_values := map old_value batch in
  let batch_returns := map return_ batch in
  - mean (surr1 (ratio log_probs batch_old_log_probs) batch_advantages)
  <= policy_loss self log_probs batch_old_log_probs batch_advantages
  /\ mean (map (fun x => x ^ 2) (zipWith Rminus values batch_returns))
     <= value_loss self values batch_old_values batch_returns
  /\ 0 <= value_loss self values batch_old_values batch_returns.
Proof.
  cbv zeta. rewrite surr1_per_sample, policy_loss_per_sample, value_loss_per_sample.
  rewrite zipWith_map, List.map_map.
  unfold spec_policy_loss, spec_value_loss. split; [|split].
  - apply Ropp_le_contravar. apply mean_map_le. intros s. apply Rmin_l.
  - apply mean_map_le. intros s. apply Rmax_l.
  - apply mean_map_nonneg. intros s.
    eapply Rle_trans; [|apply Rmax_l]. apply pow2_ge_0.
Qed.

(** X20.  With [clip_epsilon >= 0], every clipped value lies within
    [clip_epsilon] of the old value of its sample, and every entry of the
    clipped surrogate is the advantage of its sample times a factor in
    [1 - eps, 1 + eps]. *)
Theorem clipping_ranges (self : Trainer) (batch : list Sample) :
  0 <= clip_epsilon self ->
  Forall2 (fun vc s => Rabs (vc - old_value s) <= clip_epsilon self)
          (values_clipped self (map value batch) (map old_value batch)) batch
  /\ Forall2 (fun x s => exists w : R,
                 1 - clip_epsilon self <= w <= 1 + clip_epsilon self
                 /\ x = w * advantage s)
             (surr2 self (ratio (map new_log_prob batch) (map old_log_prob batch))
                    (map advantage batch)) batch.
Proof.
  intros Heps. rewrite values_clipped_per_sample.
  rewrite (surr2_per_sample self batch). split.
  - induction batch as [|s l IH]; simpl; constructor; [|exact IH].
    unfold spec_clipped_value.
    pose proof (clamp_range (value s - old_value s) (- clip_epsilon self)
                  (clip_epsilon self) ltac:(lra)) as [H1 H2].
    apply Rabs_le. lra.
  - induction batch as [|s l IH]; simpl; constructor; [|exact IH].
    unfold spec_clipped. eexists. split; [|reflexivity].
    apply clamp_range. lra.
Qed.

(** X20 on one sample whose value moved by 1 with [eps = 0.2]. *)
Lemma clipping_ranges_witness :
  let self := mkTrainer (1 / 5) (1 / 2) (1 / 100) in
  let batch := [mkSample 0 0 1 2 1 0 0] in
  0 <= clip_epsilon self
  /\ Forall2 (fun vc s => Rabs (vc - old_value s) <= clip_epsilon self)
             (values_clipped self (map value batch) (map old_value batch)) batch.
Proof.
  intros self batch.
  assert (Heps : 0 <= clip_epsilon self) by (simpl; lra).
  split; [exact Heps|]. exact (proj1 (clipping_ranges self batch Heps)).
Defined.

(** X21.  With [clip_epsilon >= 0] clipping is inactive inside the
    range: when every ratio lies in [1 - eps, 1 + eps] the policy loss is
    the unclipped [-mean(ratio * advantage)]; when every new value lies
    within [eps] of the old one the value loss is the mean squared error;
    and when the new log-probabilities equal the old ones (the first
    step after a rollout) the policy loss is [-mean(advantage)]. *)
Theorem clipping_inactive_in_range (self : Trainer) (batch : list Sample) :
  0 <= clip_epsilon self ->
  let eps := clip_epsilon self in
  let log_probs := map new_log_prob batch in
  let batch_old_log_probs := map old_log_prob batch in
  let batch_advantages := map advantage batch in
  (Forall (fun s => 1 - eps <= spec_ratio s <= 1 + eps) batch ->
   policy_loss self log_probs batch_old_log_probs batch_advantages
   = - mean (surr1 (ratio log_probs batch_old_log_probs) batch_advantages))
  /\ (Forall (fun s => Rabs (value s - old_value s) <= eps) batch ->
      value_loss self (map value batch) (map old_value batch) (map return_ batch)
      = mean (map (fun x => x ^ 2)
                  (zipWith Rminus (map value batch) (map return_ batch))))
  /\ (Forall (fun s => new_log_prob s = old_log_prob s) batch ->
      policy_loss self log_probs batch_old_log_probs batch_advantages
      = - mean batch_advantages).
Proof.
  intros Heps eps log_probs batch_old_log_probs batch_advantages.
  unfold log_probs, batch_old_log_probs, batch_advantages.
  rewrite surr1_per_sample, policy_loss_per_sample, value_loss_per_sample.
  rewrite zipWith_map, List.map_map. fold eps.
  unfold spec_policy_loss, spec_value_loss.
  assert (Hin : forall s, 1 - eps <= spec_ratio s <= 1 + eps ->
                  Rmin (spec_unclipped s) (spec_clipped eps s) = spec_unclipped s).
  { intros s Hs. unfold spec_clipped, spec_unclipped.
    rewrite clamp_inside by exact Hs. apply Rmin_left. lra. }
  split; [|split].
  - intros Hall. f_equal. f_equal. apply map_ext_all.
    eapply Forall_impl; [exact Hall|]. exact Hin.
  - intros Hall. f_equal. apply map_ext_all.
    eapply Forall_impl; [exact Hall|]. intros s Hs. simpl.
    unfold spec_clipped_value. rewrite clamp_inside.
    + replace (old_value s + (value s - old_value s)) with (value s) by lra.
      apply Rmax_left. lra.
    + apply Rabs_le_bounds in Hs. fold eps. lra.
  - intros Hall. f_equal. f_equal. apply map_ext_all.
    eapply Forall_impl; [exact Hall|]. intros s Hs. simpl.
    assert (Hr : spec_ratio s = 1).
    { unfold spec_ratio. rewrite Hs. replace (old_log_prob s - old_log_prob s) with 0 by lra.
      apply exp_0. }
    rewrite Hin by (rewrite Hr; unfold eps; lra).
    unfold spec_unclipped. rewrite Hr. lra.
Qed.

(** X21 on one sample evaluated under the policy that collected it. *)
Lemma clipping_inactive_in_range_witness :
  let self := mkTrainer (1 / 5) (1 / 2) (1 / 100) in
  let batch := [mkSample (-1) (-1) 3 2 1 0 0] in
  0 <= clip_epsilon self
  /\ Forall (fun s => new_log_prob s = old_log_prob s) batch
  /\ policy_loss self (map new_log_prob batch) (map old_log_prob batch)
       (map advantage batch)
     = - mean (map advantage batch).
Proof.
  intros self batch.
  assert (Heps : 0 <= clip_epsilon self) by (simpl; lra).
  assert (Hall : Forall (fun s => new_log_prob s = old_log_prob s) batch)
    by (constructor; [reflexivity | constructor]).
  split; [exact Heps|]. split; [exact Hall|].
  exact (proj2 (proj2 (clipping_inactive_in_range self batch Heps)) Hall).
Defined.

End TrainerBehaviour.

(** * Behaviour of the loops around the environment *)

Module DriverProps.

Import Num RolloutBuffer ServiceDeploymentEnv Drivers EnvProps EnvBehaviour.
Local Open Scope Z_scope.

(** ** evaluate.py *)

Section Episode.

Variables (c : Config) (oracle : Z -> Draws * Z).

Lemma episode_loop_ends (fuel : nat) (env : Env) (total : Q) (count : Z) :
  reachable c env ->
  valid_distribution (event_probabilities env) = true ->
  (forall k, - num_nodes env <= snd (oracle k)) ->
  0 <= steps env < 100 ->
  (100 - steps env <= Z.of_nat fuel ->
   exists (env' : Env) (total' : Q),
     episode_loop fuel oracle env total count
     = Some (inr (env', total', count + (100 - steps env)))
     /\ steps env' = 100 /\ reachable c env')
  /\ (Z.of_nat fuel < 100 - steps env ->
      episode_loop fuel oracle env total count = None).
Proof.
  revert env total count.
  induction fuel as [|fuel IH]; intros env total count Hr Hv Ha Hs.
  - split; [lia | reflexivity].
  - simpl episode_loop. destruct (oracle count) as [d action] eqn:Ho.
    assert (Hact : - num_nodes env <= action).
    { specialize (Ha count). rewrite Ho in Ha. exact Ha. }
    destruct (step_advances c env d action Hr Hv Hact)
      as (env1 & res & Hstep & Hst & Hterm & Htrunc & Hn & Hp).
    assert (Hr1 : reachable c env1).
    { pose proof (reach_step c env d action Hr) as H. rewrite Hstep in H. exact H. }
    rewrite Hstep, Hterm, Htrunc, orb_false_r.
    destruct (Z.leb_spec 100 (steps env + 1)) as [Hend|Hgo].
    + split; [|lia]. intros _. exists env1, (total + reward res)%Q.
      split; [f_equal; f_equal; f_equal; lia|]. split; [lia | exact Hr1].
    + destruct (IH env1 (total + reward res)%Q (count + 1) Hr1) as [IHyes IHno].
      * rewrite Hp. exact Hv.
      * rewrite Hn. exact Ha.
      * lia.
      * split.
        -- intros Hf. destruct IHyes as (env' & total' & Hloop & Hend & Hr'); [lia|].
           exists env', total'. split; [|split; assumption].
           rewrite Hloop. f_equal. f_equal. f_equal. lia.
        -- intros Hf. apply IHno. lia.
Qed.

End Episode.

(** X22.  An evaluation episode on a reachable environment (valid event
    distribution, actions at least [-num_nodes]) ends without exception
    after exactly 100 iterations of its loop: with room for 100
    iterations it returns the step count 100, with less it has not ended. *)
Theorem evaluate_episode_takes_100_steps (c : Config) (oracle : Z -> Draws * Z)
    (fuel : nat) (env : Env) :
  reachable c env ->
  valid_distribution (event_probabilities env) = true ->
  (forall k, - num_nodes env <= snd (oracle k)) ->
  ((100 <= fuel)%nat ->
   exists (env' : Env) (total : Q),
     evaluate_episode fuel oracle env = Some (inr (env', total, 100))
     /\ steps env' = 100)
  /\ ((fuel < 100)%nat -> evaluate_episode fuel oracle env = None).
Proof.
  intros Hr Hv Ha.
  destruct (reachable_reset c env Hr) as (env0 & _ & Hreset).
  assert (Hr0 : reachable c env0) by (eapply reach_reset; eassumption).
  pose proof (reset_state _ _ _ Hreset) as [Hs0 _].
  assert (Hn0 : num_nodes env0 = num_nodes env) by (rewrite Hs0; reflexivity).
  assert (Hp0 : event_probabilities env0 = event_probabilities env)
    by (rewrite Hs0; reflexivity).
  assert (Hst0 : steps env0 = 0) by (rewrite Hs0; reflexivity).
  destruct (episode_loop_ends c oracle fuel env0 0%Q 0 Hr0) as [Hyes Hno].
  { rewrite Hp0. exact Hv. }
  { rewrite Hn0. exact Ha. }
  { lia. }
  unfold evaluate_episode. rewrite Hreset. rewrite Hst0 in Hyes, Hno. split.
  - intros Hf. destruct Hyes as (env' & total & Hloop & Hend & _); [lia|].
    exists env', total. split; [exact Hloop | exact Hend].
  - intros Hf. apply Hno. lia.
Qed.

(** X22 on the default environment with an oracle that always rejects. *)
Lemma evaluate_episode_takes_100_steps_witness :
  let env := mkEnv 3 5 10 5 default_event_probabilities
               [1; 1; 1]%Q [0; 0; 0]%Q [5; 5; 5]%Q 0 no_event 0 100 in
  let oracle := fun _ : Z => (mkDraws 0 agent_arrival, 3) in
  reachable default_config env
  /\ valid_distribution (event_probabilities env) = true
  /\ (forall k, - num_nodes env <= snd (oracle k))
  /\ (100 <= 100)%nat
  /\ exists (env' : Env) (total : Q),
       evaluate_episode 100 oracle env = Some (inr (env', total, 100))
       /\ steps env' = 100.
Proof.
  intros env oracle.
  assert (Hr : reachable default_config env) by (apply reach_init; reflexivity).
  assert (Hv : valid_distribution (event_probabilities env) = true) by reflexivity.
  assert (Ha : forall k, - num_nodes env <= snd (oracle k)) by (intros k; simpl; lia).
  assert (Hf : (100 <= 100)%nat) by lia.
  split; [exact Hr|]. split; [exact Hv|]. split; [exact Ha|]. split; [exact Hf|].
  exact (proj1 (evaluate_episode_takes_100_steps default_config oracle 100 env Hr Hv Ha) Hf).
Defined.

(** ** train.py *)

Lemma done_count_add (st : list Q) (a : Z) (r : Number) (lp v : Q) (d : bool)
    (b : Buffer) :
  done_count (add st a r lp v d b) = (done_count b + (if d then 1 else 0))%nat.
Proof.
  unfold done_count. simpl. rewrite List.filter_app, length_app.
  destruct d; reflexivity.
Qed.

Lemma collect_iteration_ready (c : Config) (log_interval : Z) (ts : TrainState)
    (d : Draws) (a : Act) :
  log_interval <> 0 ->
  train_ready c ts -> - num_nodes (env ts) <= act_action a ->
  Forall (fun l => l = 100) (episode_lengths ts) ->
  exists ts' : TrainState,
    collect_iteration log_interval (d, a) ts = inr ts'
    /\ train_ready c ts'
    /\ num_nodes (env ts') = num_nodes (env ts)
    /\ global_step ts' = global_step ts + 1
    /\ __len__ (buffer ts') = S (__len__ (buffer ts))
    /\ Forall (fun l => l = 100) (episode_lengths ts')
    /\ (done_count (buffer ts') + length (episode_lengths ts)
        = done_count (buffer ts) + length (episode_lengths ts'))%nat.
Proof.
  intros Hlog (Hr & Hv & Hlen & Hlt & Hlists & Hal) Ha Hall.
  destruct (step_advances c (env ts) d (act_action a) Hr Hv Ha)
    as (env1 & res & Hstep & Hst & Hterm & Htrunc & Hn & Hp).
  assert (Hr1 : reachable c env1).
  { pose proof (reach_step c (env ts) d (act_action a) Hr) as H.
    rewrite Hstep in H. exact H. }
  assert (Hsteps0 : 0 <= steps (env ts)).
  { destruct (reachable_facts c _ Hr) as [(_ & _ & _ & _ & _ & _ & _ & _ & H) _]. exact H. }
  unfold collect_iteration. rewrite Hstep, Hterm, Htrunc, orb_false_r.
  destruct (Z.leb_spec 100 (steps (env ts) + 1)) as [Hend|Hgo].
  - destruct (Z.eqb_spec log_interval 0); [contradiction|].
    destruct (reachable_reset c env1 Hr1) as (env2 & _ & Hreset).
    pose proof (reset_state _ _ _ Hreset) as [Hs2 _].
    rewrite Hreset. eexists. split; [reflexivity|]. simpl.
    split; [|split; [|split; [|split; [|split]]]].
    + unfold train_ready. simpl.
      split; [eapply reach_reset; eassumption|].
      split; [rewrite Hs2; simpl; rewrite Hp; exact Hv|].
      split; [rewrite Hs2; reflexivity|].
      split; [rewrite Hs2; simpl; lia|].
      split; [rewrite !length_app; simpl; lia|].
      exact (BufferProps.aligned_exec _ (call_add _ _ _ _ _ _) Hal).
    + rewrite Hs2. simpl. exact Hn.
    + reflexivity.
    + unfold __len__. simpl. rewrite length_app. simpl. lia.
    + apply Forall_app. split; [exact Hall|]. constructor; [lia | constructor].
    + rewrite done_count_add, length_app. simpl. lia.
  - eexists. split; [reflexivity|]. simpl.
    split; [|split; [|split; [|split; [|split]]]].
    + unfold train_ready. simpl.
      split; [exact Hr1|]. split; [rewrite Hp; exact Hv|].
      split; [lia|]. split; [lia|]. split; [exact Hlists|].
      exact (BufferProps.aligned_exec _ (call_add _ _ _ _ _ _) Hal).
    + exact Hn.
    + reflexivity.
    + unfold __len__. simpl. rewrite length_app. simpl. lia.
    + exact Hall.
    + rewrite done_count_add. lia.
Qed.

Lemma collect_rollout_ready (c : Config) (oracle : Z -> Draws * Act) (n : nat)
    (total_timesteps log_interval : Z) (ts : TrainState) :
  log_interval <> 0 ->
  train_ready c ts ->
  (forall g, - num_nodes (env ts) <= act_action (snd (oracle g))) ->
  Forall (fun l => l = 100) (episode_lengths ts) ->
  global_step ts < total_timesteps ->
  exists ts' : TrainState,
    collect_rollout n total_timesteps log_interval oracle ts = inr ts'
    /\ train_ready c ts'
    /\ global_step ts'
       = global_step ts + Z.min (Z.of_nat n) (total_timesteps - global_step ts)
    /\ Z.of_nat (__len__ (buffer ts'))
       = Z.of_nat (__len__ (buffer ts))
         + Z.min (Z.of_nat n) (total_timesteps - global_step ts)
    /\ Forall (fun l => l = 100) (episode_lengths ts')
    /\ (done_count (buffer ts') + length (episode_lengths ts)
        = done_count (buffer ts) + length (episode_lengths ts'))%nat
    /\ num_nodes (env ts') = num_nodes (env ts).
Proof.
  intros Hlog. revert ts. induction n as [|n IH]; intros ts Hready Ha Hall Hgs.
  - exists ts. simpl. repeat split; try tauto; try lia; apply Hready.
  - simpl collect_rollout. destruct (oracle (global_step ts)) as [d a] eqn:Ho.
    assert (Hact : - num_nodes (env ts) <= act_action a).
    { specialize (Ha (global_step ts)). rewrite Ho in Ha. exact Ha. }
    destruct (collect_iteration_ready c log_interval ts d a Hlog Hready Hact Hall)
      as (ts1 & Hit & Hready1 & Hn1 & Hg1 & Hl1 & Hall1 & Hd1).
    rewrite Hit.
    destruct (Z.leb_spec total_timesteps (global_step ts1)) as [Hstop|Hmore].
    + exists ts1. split; [reflexivity|]. split; [exact Hready1|].
      split; [lia|]. split; [lia|]. split; [exact Hall1|]. split; [exact Hd1 | exact Hn1].
    + destruct (IH ts1 Hready1)
        as (ts' & Hrun & Hready' & Hg' & Hl' & Hall' & Hd' & Hn');
        [rewrite Hn1; exact Ha | exact Hall1 | lia|].
      exists ts'. split; [exact Hrun|]. split; [exact Hready'|].
      split; [lia|]. split; [lia|]. split; [exact Hall'|]. split; [lia | congruence].
Qed.

(** X23.  Collecting a rollout.  From variables in the state the
    training loop keeps them in (a reachable environment with a valid
    event distribution, the running episode below the horizon), with
    [global_step < total_timesteps], a non-zero [log_interval], policy
    actions of at least [-num_nodes] and only episodes of length 100
    recorded so far, the collection loop ends without exception after
    [min(update_interval, total_timesteps - global_step)] iterations: the
    buffer has grown by that many transitions, [global_step] has advanced
    by as many, every recorded episode length is still 100, and the
    number of [done] flags added to the buffer is the number of episodes
    recorded meanwhile. *)
Theorem collect_rollout_counts (c : Config) (oracle : Z -> Draws * Act) (n : nat)
    (total_timesteps log_interval : Z) (ts : TrainState) :
  log_interval <> 0 ->
  train_ready c ts ->
  (forall g, - num_nodes (env ts) <= act_action (snd (oracle g))) ->
  Forall (fun l => l = 100) (episode_lengths ts) ->
  global_step ts < total_timesteps ->
  exists ts' : TrainState,
    collect_rollout n total_timesteps log_interval oracle ts = inr ts'
    /\ train_ready c ts'
    /\ global_step ts'
       = global_step ts + Z.min (Z.of_nat n) (total_timesteps - global_step ts)
    /\ Z.of_nat (__len__ (buffer ts'))
       = Z.of_nat (__len__ (buffer ts))
         + Z.min (Z.of_nat n) (total_timesteps - global_step ts)
    /\ Forall (fun l => l = 100) (episode_lengths ts')
    /\ (done_count (buffer ts') + length (episode_lengths ts)
        = done_count (buffer ts) + length (episode_lengths ts'))%nat.
Proof.
  intros Hlog Hready Ha Hall Hgs.
  destruct (collect_rollout_ready c oracle n total_timesteps log_interval ts
              Hlog Hready Ha Hall Hgs) as (ts' & H1 & H2 & H3 & H4 & H5 & H6 & _).
  exists ts'. tauto.
Qed.

(** X23 on the start of training on the default environment. *)
Lemma collect_rollout_counts_witness :
  let env0 := mkEnv 3 5 10 5 default_event_probabilities
                [1; 1; 1]%Q [0; 0; 0]%Q [5; 5; 5]%Q 0 no_event 0 100 in
  let ts := mkTrainState env0 RolloutBuffer.__init__ (observation_of env0)
              0%Q 0 0 0 [] [] in
  let oracle := fun _ : Z => (mkDraws 0 agent_arrival, mkAct 0 0%Q 0%Q) in
  train_ready default_config ts
  /\ global_step ts < 5
  /\ exists ts' : TrainState,
       collect_rollout 3 5 10 oracle ts = inr ts'
       /\ global_step ts' = global_step ts + Z.min (Z.of_nat 3) (5 - global_step ts).
Proof.
  intros env0 ts oracle.
  assert (Hready : train_ready default_config ts).
  { unfold train_ready. simpl.
    split; [apply reach_init; reflexivity|]. split; [reflexivity|].
    split; [reflexivity|]. split; [lia|]. split; [reflexivity|].
    repeat split; reflexivity. }
  assert (Hlog : 10 <> 0) by lia.
  assert (Ha : forall g, - num_nodes (env ts) <= act_action (snd (oracle g)))
    by (intros g; simpl; lia).
  assert (Hall : Forall (fun l => l = 100) (episode_lengths ts)) by constructor.
  assert (Hgs : global_step ts < 5) by (simpl; lia).
  split; [exact Hready|]. split; [exact Hgs|].
  destruct (collect_rollout_counts default_config oracle 3 5 10 ts Hlog Hready Ha Hall Hgs)
    as (ts' & Hrun & _ & Hg & _).
  exists ts'. split; [exact Hrun | exact Hg].
Defined.

(** ** The rewards a rollout stores *)





Lemma train_state_eta (ts : TrainState) :
  mkTrainState (env ts) (buffer ts) (state ts) (episode_reward ts) (episode_length ts)
    (global_step ts) (episode_num ts) (episode_rewards ts) (episode_lengths ts) = ts.
Proof. destruct ts. reflexivity. Qed.

Section TrainLoop.

Variables (c : Config) (trainer_update : Buffer -> option Exception)
          (oracle : Z -> Draws * Act)
          (update_interval total_timesteps save_interval log_interval : Z).

Hypothesis update_returns : forall b, trainer_update b = None.
Hypothesis interval_positive : 0 < update_interval.
Hypothesis save_interval_nonzero : save_interval <> 0.
Hypothesis log_interval_nonzero : log_interval <> 0.

Lemma train_pass_ready (ts : TrainState) :
  train_ready c ts ->
  (forall g, - num_nodes (env ts) <= act_action (snd (oracle g))) ->
  Forall (fun l => l = 100) (episode_lengths ts) ->
  global_step ts < total_timesteps ->
  exists ts' : TrainState,
    train_pass trainer_update update_interval total_timesteps save_interval
      log_interval oracle ts
    = inr ts'
    /\ train_ready c ts'
    /\ global_step ts < global_step ts' <= total_timesteps
    /\ __len__ (buffer ts') = 0%nat
    /\ Forall (fun l => l = 100) (episode_lengths ts')
    /\ num_nodes (env ts') = num_nodes (env ts).
Proof.
  intros Hready Ha Hall Hgs.
  destruct (collect_rollout_ready c oracle (Z.to_nat update_interval) total_timesteps
              log_interval ts log_interval_nonzero Hready Ha Hall Hgs)
    as (ts1 & Hrun & Hready1 & Hg1 & Hl1 & Hall1 & _ & Hn1).
  unfold train_pass. rewrite Hrun.
  destruct (Nat.ltb_spec 0 (__len__ (buffer ts1))) as [Hpos|Hzero]; [|lia].
  rewrite update_returns.
  destruct (Z.eqb_spec save_interval 0); [contradiction|].
  eexists. split; [reflexivity|]. simpl.
  split; [|split; [lia | split; [reflexivity | split; [exact Hall1 | exact Hn1]]]].
  destruct Hready1 as (H1 & H2 & H3 & H4 & H5 & _).
  unfold train_ready. simpl. repeat split; assumption.
Qed.

Lemma train_loop_ends (fuel : nat) (ts : TrainState) :
  train_ready c ts ->
  (forall g, - num_nodes (env ts) <= act_action (snd (oracle g))) ->
  Forall (fun l => l = 100) (episode_lengths ts) ->
  __len__ (buffer ts) = 0%nat ->
  (0 < fuel)%nat ->
  total_timesteps - global_step ts < Z.of_nat fuel ->
  exists ts' : TrainState,
    train_loop trainer_update fuel update_interval total_timesteps save_interval
      log_interval oracle ts
    = Some (inr ts')
    /\ global_step ts' = Z.max (global_step ts) total_timesteps
    /\ __len__ (buffer ts') = 0%nat
    /\ Forall (fun l => l = 100) (episode_lengths ts').
Proof.
  revert ts. induction fuel as [|fuel IH]; intros ts Hready Ha Hall Hlen Hpos Hfuel.
  - lia.
  - simpl train_loop.
    destruct (Z.ltb_spec (global_step ts) total_timesteps) as [Hgs|Hdone].
    + destruct (train_pass_ready ts Hready Ha Hall Hgs)
        as (ts1 & Hpass & Hready1 & Hg1 & Hl1 & Hall1 & Hn1).
      rewrite Hpass.
      destruct (IH ts1 Hready1) as (ts' & Hloop & Hg' & Hl' & Hall');
        [rewrite Hn1; exact Ha | exact Hall1 | exact Hl1 | lia | lia|].
      exists ts'. split; [exact Hloop|]. split; [lia|]. split; [exact Hl' | exact Hall'].
    + exists ts. split; [reflexivity|]. split; [lia|]. split; [exact Hlen | exact Hall].
Qed.

End TrainLoop.

(** X24.  The training loop ends.  Started as [train] starts it (a
    reachable environment, an empty buffer), with a positive
    [update_interval], non-zero [save_interval] and [log_interval], policy
    actions of at least [-num_nodes] and updates that do not raise, the
    [while] loop ends without exception within any number of passes above
    [total_timesteps - global_step] (and at least one), with [global_step]
    at [total_timesteps] (when it was below), the buffer empty again and
    every recorded episode of length 100. *)
Theorem train_loop_finishes (c : Config) (trainer_update : Buffer -> option Exception)
    (oracle : Z -> Draws * Act)
    (update_interval total_timesteps save_interval log_interval : Z)
    (fuel : nat) (ts : TrainState) :
  (forall b, trainer_update b = None) ->
  0 < update_interval -> save_interval <> 0 -> log_interval <> 0 ->
  train_ready c ts ->
  (forall g, - num_nodes (env ts) <= act_action (snd (oracle g))) ->
  Forall (fun l => l = 100) (episode_lengths ts) ->
  __len__ (buffer ts) = 0%nat ->
  (0 < fuel)%nat ->
  total_timesteps - global_step ts < Z.of_nat fuel ->
  exists ts' : TrainState,
    train_loop trainer_update fuel update_interval total_timesteps save_interval
      log_interval oracle ts
    = Some (inr ts')
    /\ global_step ts' = Z.max (global_step ts) total_timesteps
    /\ __len__ (buffer ts') = 0%nat
    /\ Forall (fun l => l = 100) (episode_lengths ts').
Proof.
  intros Hup Hint Hsave Hlog. apply train_loop_ends; assumption.
Qed.

(** X24 on the start of training on the default environment, for 5 steps
    collected 3 at a time. *)
Lemma train_loop_finishes_witness :
  let env0 := mkEnv 3 5 10 5 default_event_probabilities
                [1; 1; 1]%Q [0; 0; 0]%Q [5; 5; 5]%Q 0 no_event 0 100 in
  let ts := mkTrainState env0 RolloutBuffer.__init__ (observation_of env0)
              0%Q 0 0 0 [] [] in
  let oracle := fun _ : Z => (mkDraws 0 agent_arrival, mkAct 0 0%Q 0%Q) in
  let trainer_update := fun _ : Buffer => @None Exception in
  train_ready default_config ts
  /\ exists ts' : TrainState,
       train_loop trainer_update 6 3 5 10000 10 oracle ts = Some (inr ts')
       /\ global_step ts' = Z.max (global_step ts) 5.
Proof.
  intros env0 ts oracle trainer_update.
  assert (Hready : train_ready default_config ts).
  { unfold train_ready. simpl.
    split; [apply reach_init; reflexivity|]. split; [reflexivity|].
    split; [reflexivity|]. split; [lia|]. split; [reflexivity|].
    repeat split; reflexivity. }
  split; [exact Hready|].
  destruct (train_loop_finishes default_config trainer_update oracle 3 5 10000 10 6 ts)
    as (ts' & Hloop & Hg & _).
  - intros b. reflexivity.
  - lia.
  - lia.
  - lia.
  - exact Hready.
  - intros g. simpl. lia.
  - constructor.
  - reflexivity.
  - lia.
  - simpl. lia.
  - exists ts'. split; [exact Hloop | exact Hg].
Defined.

(** X25.  Three settings the training loop does not survive.  With
    [update_interval <= 0] (a non-zero [save_interval], an empty buffer,
    [global_step < total_timesteps]) no step is ever collected and the
    [while] loop never ends: it is still running after any number of
    passes.  With [save_interval = 0] the first pass raises
    [ZeroDivisionError] at the checkpoint test, after its rollout and
    update.  With [log_interval = 0] the iteration that ends an episode
    raises [ZeroDivisionError]. *)
Theorem train_loop_misconfigured (c : Config)
    (trainer_update : Buffer -> option Exception) (oracle : Z -> Draws * Act)
    (update_interval total_timesteps save_interval log_interval : Z)
    (fuel : nat) (ts : TrainState) :
  global_step ts < total_timesteps ->
  (update_interval <= 0 -> save_interval <> 0 -> __len__ (buffer ts) = 0%nat ->
   train_loop trainer_update fuel update_interval total_timesteps save_interval
     log_interval oracle ts
   = None)
  /\ (save_interval = 0 -> log_interval <> 0 -> (forall b, trainer_update b = None) ->
      train_ready c ts ->
      (forall g, - num_nodes (env ts) <= act_action (snd (oracle g))) ->
      Forall (fun l => l = 100) (episode_lengths ts) ->
      train_loop trainer_update (S fuel) update_interval total_timesteps save_interval
        log_interval oracle ts
      = Some (inl ZeroDivisionError))
  /\ (log_interval = 0 -> train_ready c ts -> steps (env ts) = 99 ->
      forall (d : Draws) (a : Act),
        - num_nodes (env ts) <= act_action a ->
        collect_iteration log_interval (d, a) ts = inl ZeroDivisionError).
Proof.
  intros Hgs. split; [|split].
  - intros Hint Hsave Hlen. induction fuel as [|fuel IH]; [reflexivity|].
    simpl train_loop. destruct (Z.ltb_spec (global_step ts) total_timesteps); [|lia].
    unfold train_pass. replace (Z.to_nat update_interval) with 0%nat by lia.
    simpl collect_rollout. cbv iota beta.
    rewrite Hlen. destruct (Z.eqb_spec save_interval 0); [contradiction|].
    change (0 <? 0)%nat with false. cbv iota beta.
    rewrite train_state_eta. exact IH.
  - intros -> Hlog Hup Hready Ha Hall.
    destruct (collect_rollout_ready c oracle (Z.to_nat update_interval) total_timesteps
                log_interval ts Hlog Hready Ha Hall Hgs) as (ts1 & Hrun & _).
    simpl train_loop. destruct (Z.ltb_spec (global_step ts) total_timesteps); [|lia].
    unfold train_pass. rewrite Hrun.
    destruct (0 <? __len__ (buffer ts1))%nat; [rewrite Hup|]; reflexivity.
  - intros -> (Hr & Hv & _) H99 d a Ha.
    destruct (step_advances c (env ts) d (act_action a) Hr Hv Ha)
      as (env1 & res & Hstep & _ & Hterm & Htrunc & _).
    unfold collect_iteration. rewrite Hstep, Hterm, Htrunc, H99. reflexivity.
Qed.

(** X25 on the default environment with [update_interval = 0]. *)
Lemma train_loop_misconfigured_witness :
  let env0 := mkEnv 3 5 10 5 default_event_probabilities
                [1; 1; 1]%Q [0; 0; 0]%Q [5; 5; 5]%Q 0 no_event 0 100 in
  let ts := mkTrainState env0 RolloutBuffer.__init__ (observation_of env0)
              0%Q 0 0 0 [] [] in
  let oracle := fun _ : Z => (mkDraws 0 agent_arrival, mkAct 0 0%Q 0%Q) in
  let trainer_update := fun _ : Buffer => @None Exception in
  global_step ts < 5
  /\ train_loop trainer_update 1000 0 5 10000 10 oracle ts = None.
Proof.
  intros env0 ts oracle trainer_update.
  assert (Hgs : global_step ts < 5) by (simpl; lia).
  split; [exact Hgs|].
  apply (proj1 (train_loop_misconfigured default_config trainer_update oracle 0 5 10000 10
                  1000 ts Hgs)).
  - lia.
  - lia.
  - reflexivity.
Defined.

End DriverProps.

(** * Behaviour of the policy network *)

Module PolicyProps.

Import Num ActorCritic.
Local Open Scope R_scope.

Local Ltac lra := Lra.lra.
Local Ltac nra := Lra.nra.

Lemma ln_nonpos (p : R) : 0 < p -> p <= 1 -> ln p <= 0.
Proof.
  intros H0 [Hlt| ->].
  - pose proof (ln_increasing p 1 H0 Hlt) as H. rewrite ln_1 in H. lra.
  - rewrite ln_1. lra.
Qed.

Lemma Rsum_cons (a : R) (l : list R) : PPOTrainer.Rsum (a :: l) = a + PPOTrainer.Rsum l.
Proof. reflexivity. Qed.

Lemma Rsum_map_div {A : Type} (f : A -> R) (c : R) (l : list A) :
  PPOTrainer.Rsum (map (fun a => f a / c) l) = PPOTrainer.Rsum (map f l) / c.
Proof.
  induction l as [|a l IH]; simpl map.
  - simpl. unfold Rdiv. lra.
  - rewrite !Rsum_cons, IH. unfold Rdiv. lra.
Qed.

Lemma Rsum_exp_pos (x : list R) : (1 <= length x)%nat -> 0 < PPOTrainer.Rsum (map exp x).
Proof.
  destruct x as [|a x]; simpl length; [lia|]. intros _.
  simpl map. rewrite Rsum_cons.
  assert (H : 0 <= PPOTrainer.Rsum (map exp x)).
  { induction x as [|b x IH]; simpl map; [simpl; lra|].
    rewrite Rsum_cons. pose proof (exp_pos b). lra. }
  pose proof (exp_pos a). lra.
Qed.

Lemma entry_le_sum (l : list R) (i : nat) (p : R) :
  Forall (fun q => 0 <= q) l -> l !! i = Some p -> p <= PPOTrainer.Rsum l.
Proof.
  intros H. revert i. induction H as [|q l Hq Hl IH]; intros [|i] Hi;
    simpl in Hi; try discriminate; rewrite Rsum_cons.
  - injection Hi as ->.
    assert (0 <= PPOTrainer.Rsum l).
    { clear IH. induction Hl as [|r l Hr _ IH]; [simpl; lra | rewrite Rsum_cons; lra]. }
    lra.
  - specialize (IH i Hi). lra.
Qed.

Lemma plogp_sum_nonpos (l : list R) :
  Forall (fun p => 0 < p <= 1) l -> PPOTrainer.Rsum (map (fun p => p * ln p) l) <= 0.
Proof.
  induction 1 as [|q l [Hq0 Hq1] _ IH]; simpl map; [simpl; lra|].
  rewrite Rsum_cons.
  assert (ln q <= 0) by (apply ln_nonpos; assumption).
  nra.
Qed.

Lemma softmax_distribution (x : list R) :
  (1 <= length x)%nat ->
  Forall (fun p => 0 < p) (softmax x) /\ PPOTrainer.Rsum (softmax x) = 1.
Proof.
  intros Hx. pose proof (Rsum_exp_pos x Hx) as Hpos. split.
  - unfold softmax. apply Forall_map. apply Forall_forall. intros xi _. simpl.
    apply Rdiv_lt_0_compat; [apply exp_pos | exact Hpos].
  - unfold softmax. rewrite (Rsum_map_div exp). field. lra.
Qed.

Lemma Categorical_normalised (probs : list R) :
  PPOTrainer.Rsum probs = 1 -> Categorical probs = probs.
Proof.
  intros H. unfold Categorical. rewrite H. clear H.
  induction probs as [|p l IH]; simpl; [reflexivity|].
  f_equal; [field | exact IH].
Qed.

Lemma forward_probs (self : Network) (state : list R) :
  let probs := fst (forward self state) in
  (1 <= length probs)%nat ->
  Forall (fun p => 0 < p <= 1) probs
  /\ PPOTrainer.Rsum probs = 1
  /\ Categorical probs = probs.
Proof.
  unfold forward. simpl fst. intros Hlen.
  set (logits := linear (actor_0 self) _) in *.
  assert (Hl : (1 <= length logits)%nat).
  { unfold softmax in Hlen. rewrite length_map in Hlen. exact Hlen. }
  destruct (softmax_distribution logits Hl) as [Hpos Hsum].
  split; [|split; [exact Hsum | apply Categorical_normalised, Hsum]].
  apply Forall_lookup_2. intros i p Hi.
  pose proof (Forall_lookup_1 _ _ _ _ Hpos Hi) as Hp. split; [exact Hp|].
  rewrite <- Hsum. apply (entry_le_sum _ i); [|exact Hi].
  eapply Forall_impl; [exact Hpos|]. intros q Hq. lra.
Qed.

(** X26.  The action probabilities [forward] returns for a state are a
    probability distribution whenever there is at least one action: every
    entry is positive and at most 1 and they sum to 1, so that the
    normalisation [Categorical] applies leaves them as they are. *)
Theorem forward_action_probs_distribution (self : Network) (state : list R) :
  (1 <= length (fst (forward self state)))%nat ->
  Forall (fun p => 0 < p <= 1) (fst (forward self state))
  /\ PPOTrainer.Rsum (fst (forward self state)) = 1
  /\ Categorical (fst (forward self state)) = fst (forward self state).
Proof. exact (forward_probs self state). Qed.

(** X26 on a one-layer-wide network with two actions. *)
Lemma forward_action_probs_distribution_witness :
  let layer := mkLinear [[1]] [0] in
  let self := mkNetwork layer layer (mkLinear [[1]; [-1]] [0; 0]) layer in
  (1 <= length (fst (forward self [1%R])))%nat
  /\ PPOTrainer.Rsum (fst (forward self [1%R])) = 1.
Proof.
  intros layer self.
  assert (Hlen : (1 <= length (fst (forward self [1%R])))%nat) by (simpl; lia).
  split; [exact Hlen|].
  exact (proj1 (proj2 (forward_action_probs_distribution self [1%R] Hlen))).
Defined.

(** X27.  Whatever [act] and [evaluate] return, the log-probability is
    at most 0 and the entropy is at least 0; [act] returns the sampled
    action, which indexes the action probabilities. *)
Theorem log_prob_and_entropy_signs (self : Network) (state : list R) (action : nat) :
  (forall lp v : R,
     act self state action = Some (action, lp, v) ->
     lp <= 0 /\ (action < length (fst (forward self state)))%nat)
  /\ (forall lp v en : R,
        evaluate self state action = Some (lp, v, en) -> lp <= 0 /\ 0 <= en).
Proof.
  pose proof (forward_probs self state) as Hf.
  assert (Hlp : forall (probs : list R) (lp : R),
             probs = fst (forward self state) ->
             log_prob (Categorical probs) action = Some lp ->
             lp <= 0 /\ (action < length probs)%nat
             /\ 0 <= entropy (Categorical probs)).
  { intros probs lp -> H. unfold log_prob in H.
    destruct (Categorical (fst (forward self state)) !! action) as [p|] eqn:Hp;
      [|discriminate].
    simpl in H. injection H as <-.
    assert (Hlen : (1 <= length (fst (forward self state)))%nat).
    { apply lookup_lt_Some in Hp. unfold Categorical in Hp. rewrite length_map in Hp. lia. }
    destruct (Hf Hlen) as (Hrange & _ & Hcat). rewrite Hcat in Hp |- *.
    split; [|split].
    - destruct (Forall_lookup_1 _ _ _ _ Hrange Hp) as [H0 H1].
      apply ln_nonpos; assumption.
    - eapply lookup_lt_Some, Hp.
    - unfold entropy.
      pose proof (plogp_sum_nonpos _ Hrange). lra. }
  split.
  - intros lp v. unfold act. destruct (forward self state) as [probs value] eqn:Hfw.
    destruct (log_prob (Categorical probs) action) as [lp'|] eqn:Hl; [|discriminate].
    simpl. destruct (value !! 0%nat); [|discriminate]. simpl. intros [= <- _].
    destruct (Hlp probs lp' eq_refl Hl) as (H1 & H2 & _). split; assumption.
  - intros lp v en. unfold evaluate. destruct (forward self state) as [probs values] eqn:Hfw.
    destruct (log_prob (Categorical probs) action) as [lp'|] eqn:Hl; [|discriminate].
    simpl. destruct (values !! 0%nat); [|discriminate]. simpl. intros [= <- _ <-].
    destruct (Hlp probs lp' eq_refl Hl) as (H1 & _ & H3). split; assumption.
Qed.

(** X27 on the two-action network. *)
Lemma log_prob_and_entropy_signs_witness :
  let layer := mkLinear [[1]] [0] in
  let self := mkNetwork layer layer (mkLinear [[1]; [-1]] [0; 0]) layer in
  exists lp v en : R,
    evaluate self [1%R] 1 = Some (lp, v, en) /\ lp <= 0 /\ 0 <= en.
Proof.
  intros layer self.
  destruct (evaluate self [1%R] 1) as [[[lp v] en]|] eqn:He; [|discriminate He].
  exists lp, v, en. split; [reflexivity|].
  exact (proj2 (log_prob_and_entropy_signs self [1%R] 1%nat) lp v en He).
Defined.

End PolicyProps.
